(** * shopify-customizer: the cue-model authoring scripts

    A shallow embedding of the geometry and glTF-patching code of the
    repository's Python scripts, and the properties its specification
    states about them.

    Numbers.  Python [int] is [Z].  Python [float] values are embedded as
    real numbers ([R]): [np.cos], [np.sin], [math.atan2], [math.sqrt] and
    the arithmetic operators are the exact ones, and storing a value in a
    [float32] array keeps it.  Binary rounding is outside the embedding;
    every statement below about a coordinate is a statement of exact
    arithmetic.  Integer arrays ([uint16]) are embedded with their
    wrap-around. *)

From Stdlib Require Import ZArith String Strings.Byte List Reals Lra Lia Bool.
Import ListNotations.

(** ** Python exceptions as an error monad *)

Inductive exn : Set :=
| ZeroDivisionError
| IndexError
| TypeError
| ValueError.

Inductive res (A : Type) : Type :=
| Ok (a : A)
| Raise (e : exn).
Arguments Ok {A} a.
Arguments Raise {A} e.

Definition bind {A B : Type} (m : res A) (k : A -> res B) : res B :=
  match m with
  | Ok a => k a
  | Raise e => Raise e
  end.

Notation "x <- m ;; k" := (bind m (fun x => k))
  (at level 61, m at next level, right associativity).
Notation "' p <- m ;; k" := (bind m (fun x => match x with p => k end))
  (at level 61, p pattern, m at next level, right associativity).

(** [for x in l: body], threading the loop's state. *)
Fixpoint for_each {A S : Type} (l : list A) (body : A -> S -> res S) (s : S) : res S :=
  match l with
  | [] => Ok s
  | a :: l' => s' <- body a s ;; for_each l' body s'
  end.

(** [range(n)] on Python integers: empty when [n <= 0]. *)
Definition range (n : Z) : list Z := map Z.of_nat (seq 0 (Z.to_nat n)).

(** [a / b] on Python integers is true division. *)
Definition true_div (a b : Z) : res R :=
  if (b =? 0)%Z then Raise ZeroDivisionError else Ok (IZR a / IZR b)%R.

Definition vec3 : Type := (R * R * R)%type.
Definition vec2 : Type := (R * R)%type.

(** The components of a row, and what it means to be the largest and the
    smallest entry of a list. *)
Definition px (v : vec3) : R := fst (fst v).
Definition py (v : vec3) : R := snd (fst v).
Definition pz (v : vec3) : R := snd v.

Definition is_maximum (m : R) (l : list R) : Prop :=
  In m l /\ Forall (fun x => (x <= m)%R) l.

Definition is_minimum (m : R) (l : list R) : Prop :=
  In m l /\ Forall (fun x => (m <= x)%R) l.

(** [min] and [max] of a Python sequence. *)
Definition py_min (l : list R) : res R :=
  match l with
  | [] => Raise ValueError
  | x :: l' => Ok (fold_left Rmin l' x)
  end.

Definition py_max (l : list R) : res R :=
  match l with
  | [] => Raise ValueError
  | x :: l' => Ok (fold_left Rmax l' x)
  end.

(** [l[i]] and [l[i] = x] on a Python list or a Blender collection. *)
Definition lookup {A : Type} (l : list A) (i : nat) : res A :=
  match nth_error l i with
  | Some a => Ok a
  | None => Raise IndexError
  end.

Fixpoint set_item {A : Type} (l : list A) (i : nat) (x : A) : res (list A) :=
  match l, i with
  | [], _ => Raise IndexError
  | _ :: l', O => Ok (x :: l')
  | a :: l', S i' => l'' <- set_item l' i' x ;; Ok (a :: l'')
  end.

(** [a / b] on Python floats. *)
Definition float_div (a b : R) : res R :=
  if Req_dec_T b 0%R then Raise ZeroDivisionError else Ok (a / b)%R.

(** [math.atan2(y, x)] on exact reals (signed zeros are outside the
    embedding). *)
Definition atan2 (y x : R) : R :=
  if Rlt_dec 0%R x then atan (y / x)%R
  else if Rlt_dec x 0%R then
    (if Rle_dec 0%R y then (atan (y / x) + PI)%R else (atan (y / x) - PI)%R)
  else if Rlt_dec 0%R y then (PI / 2)%R
  else if Rlt_dec y 0%R then (- (PI / 2))%R
  else 0%R.

(** ** add_cue_customizable_layer.py: the cylinder shell *)

Module Cylinder.
Local Open Scope R_scope.

Record MeshData : Type := {
  positions : list vec3;
  normals : list vec3;
  uvs : list vec2;
  indices : list Z
}.

(** One pass of the vertex loop (lines 50-70): the bottom and the top
    vertex of ring [i] are appended to each of the three lists. *)
Definition vertex_step (segments : Z) (radius height_start height_end : R)
    (i : Z) (st : list vec3 * list vec3 * list vec2)
  : res (list vec3 * list vec3 * list vec2) :=
  q <- true_div i segments ;;
  let angle := q * 2 * PI in
  let x := cos angle * radius in
  let z := sin angle * radius in
  let nx := cos angle in
  let nz := sin angle in
  u <- true_div i segments ;;
  let '(positions, normals, uvs) := st in
  Ok ((positions ++ [(x, height_start, z)]) ++ [(x, height_end, z)],
      (normals ++ [(nx, 0, nz)]) ++ [(nx, 0, nz)],
      (uvs ++ [(u, 0)]) ++ [(u, 1)]).

(** One pass of the index loop (lines 73-78): two triangles per quad. *)
Definition index_step (indices : list Z) (i : Z) : list Z :=
  let base := (i * 2)%Z in
  (indices ++ [base; base + 1; base + 2]%Z) ++ [base + 1; base + 3; base + 2]%Z.

(** The Python list [indices] before it is stored. *)
Definition triangle_indices (segments : Z) : list Z :=
  fold_left index_step (range segments) [].

(** Storing a Python integer in a [uint16] array keeps its low 16 bits.
    (NumPy releases that refuse an out-of-range integer do so exactly
    where this conversion would change the value.) *)
Definition to_uint16 (x : Z) : Z := (x mod 65536)%Z.

Definition create_cylinder_mesh_data (segments : Z) (radius height_start height_end : R)
  : res MeshData :=
  '(positions, normals, uvs) <-
    for_each (range (segments + 1))
             (vertex_step segments radius height_start height_end) ([], [], []) ;;
  let indices := triangle_indices segments in
  Ok {| positions := positions;
        normals := normals;
        uvs := uvs;
        indices := map to_uint16 indices |}.

(** Configuration (lines 28-31). *)
Definition SEGMENTS : Z := 32%Z.
Definition RADIUS : R := 2.15.
Definition HEIGHT_START : R := 0.0.
Definition HEIGHT_END : R := 0.365.

(** Closed forms of what one ring contributes, used to state results. *)

(** The angle of ring [i]. *)
Definition ring_angle (segments i : Z) : R := IZR i / IZR segments * 2 * PI.

Definition ring_positions (segments : Z) (radius h0 h1 : R) (i : Z) : list vec3 :=
  [(cos (ring_angle segments i) * radius, h0, sin (ring_angle segments i) * radius);
   (cos (ring_angle segments i) * radius, h1, sin (ring_angle segments i) * radius)].

Definition ring_normals (segments : Z) (i : Z) : list vec3 :=
  [(cos (ring_angle segments i), 0, sin (ring_angle segments i));
   (cos (ring_angle segments i), 0, sin (ring_angle segments i))].

Definition ring_uvs (segments : Z) (i : Z) : list vec2 :=
  [(IZR i / IZR segments, 0); (IZR i / IZR segments, 1)].

(** The six entries one quad contributes: two triangles. *)
Definition quad_triangles (i : Z) : list Z :=
  [i * 2; i * 2 + 1; i * 2 + 2; i * 2 + 1; i * 2 + 3; i * 2 + 2]%Z.

Definition shell (segments : Z) (radius h0 h1 : R) : MeshData :=
  {| positions := flat_map (ring_positions segments radius h0 h1) (range (segments + 1));
     normals := flat_map (ring_normals segments) (range (segments + 1));
     uvs := flat_map (ring_uvs segments) (range (segments + 1));
     indices := map to_uint16 (flat_map quad_triangles (range segments)) |}.

Definition norm3 (v : vec3) : R :=
  let '(x, y, z) := v in sqrt (x * x + y * y + z * z).

End Cylinder.

(** ** add_cue_customizable_layer.py: appending the shell to a GLB *)

Module Gltf.
Import Cylinder.
Local Open Scope Z_scope.

(** The pygltflib records, with the fields the script reads or writes. *)

Record Buffer : Type := {
  uri : option string;
  buffer_byteLength : Z
}.

Record BufferView : Type := {
  buffer : Z;
  byteOffset : Z;
  byteLength : Z;
  target : Z
}.

Record Accessor : Type := {
  bufferView : Z;
  componentType : Z;
  count : Z;
  type : string;
  acc_max : option (list R);
  acc_min : option (list R)
}.

Record Material : Type := {
  material_name : string;
  baseColorFactor : list R;
  metallicFactor : R;
  roughnessFactor : R
}.

Record Primitive : Type := {
  attributes : list (string * Z);
  primitive_indices : option Z;
  primitive_material : option Z
}.

Record Mesh : Type := {
  mesh_name : string;
  primitives : list Primitive
}.

Record Node : Type := {
  node_mesh : option Z;
  node_name : string;
  scale : option (list R)
}.

Record Scene : Type := {
  scene_nodes : list Z
}.

Record GLTF2 : Type := {
  buffers : list Buffer;
  bufferViews : list BufferView;
  accessors : list Accessor;
  materials : list Material;
  meshes : list Mesh;
  nodes : list Node;
  scenes : list Scene;
  glb_data : option (list byte)   (* binary_blob() *)
}.

(** [len(x)] *)
Definition len {A : Type} (l : list A) : Z := Z.of_nat (length l).

(** [l[0]] *)
Definition item0 {A : Type} (l : list A) : res A :=
  match l with
  | [] => Raise IndexError
  | a :: _ => Ok a
  end.

(** Lines 118-119. *)
Definition pad_to_4 (length : Z) : Z := (4 - (length mod 4)) mod 4.

(** [b'\x00' * k] *)
Definition zeros (k : Z) : list byte := repeat x00 (Z.to_nat k).

Definition byte_of_Z (k : Z) : byte :=
  match Byte.of_N (Z.to_N (k mod 256)) with
  | Some b => b
  | None => x00
  end.

(** A [uint16] entry, little-endian. *)
Definition uint16_bytes (k : Z) : list byte :=
  [byte_of_Z k; byte_of_Z (k / 256)].

Definition uint16_tobytes (a : list Z) : list byte := flat_map uint16_bytes a.

(** [a.max(axis=0).tolist()] and [a.min(axis=0).tolist()] on an array of
    rows; NumPy refuses to reduce an empty array. *)
Definition row_max (a b : vec3) : vec3 :=
  let '(ax, ay, az) := a in
  let '(bx, by_, bz) := b in
  (Rmax ax bx, Rmax ay by_, Rmax az bz).

Definition row_min (a b : vec3) : vec3 :=
  let '(ax, ay, az) := a in
  let '(bx, by_, bz) := b in
  (Rmin ax bx, Rmin ay by_, Rmin az bz).

Definition tolist (v : vec3) : list R := let '(x, y, z) := v in [x; y; z].

Definition max_axis0 (a : list vec3) : res (list R) :=
  match a with
  | [] => Raise ValueError
  | v :: a' => Ok (tolist (fold_left row_max a' v))
  end.

Definition min_axis0 (a : list vec3) : res (list R) :=
  match a with
  | [] => Raise ValueError
  | v :: a' => Ok (tolist (fold_left row_min a' v))
  end.

Section Main.

(** The four bytes of a [float32], and the bytes behind a buffer's URI
    (pygltflib's [get_data_from_buffer_uri]). *)
Variable pack_f32 : R -> byte * byte * byte * byte.
Variable get_data_from_buffer_uri : string -> res (list byte).

Definition float32_bytes (x : R) : list byte :=
  let '(b0, b1, b2, b3) := pack_f32 x in [b0; b1; b2; b3].

Definition vec3_tobytes (a : list vec3) : list byte :=
  flat_map (fun v : vec3 =>
              let '(x, y, z) := v in
              float32_bytes x ++ float32_bytes y ++ float32_bytes z) a.

Definition vec2_tobytes (a : list vec2) : list byte :=
  flat_map (fun v : vec2 => let '(x, y) := v in float32_bytes x ++ float32_bytes y) a.

(** Line 94: the URI's bytes when the buffer has a (non-empty) URI, the
    GLB's binary chunk otherwise; [len] of a missing chunk raises. *)
Definition existing_data_of (gltf : GLTF2) (existing_buffer : Buffer) : res (list byte) :=
  match uri existing_buffer with
  | Some u =>
      if String.eqb u EmptyString then
        match glb_data gltf with Some d => Ok d | None => Raise TypeError end
      else get_data_from_buffer_uri u
  | None =>
      match glb_data gltf with Some d => Ok d | None => Raise TypeError end
  end.

(** Lines 122-127: where each array starts in the new buffer. *)
Definition offsets (new_data_start positions_length normals_length uvs_length : Z)
  : Z * Z * Z * Z :=
  let positions_offset := new_data_start in
  let normals_offset := positions_offset + positions_length + pad_to_4 positions_length in
  let uvs_offset := normals_offset + normals_length + pad_to_4 normals_length in
  let indices_offset := uvs_offset + uvs_length + pad_to_4 uvs_length in
  (positions_offset, normals_offset, uvs_offset, indices_offset).

(** Lines 130-146: the existing bytes, then each array and its padding. *)
Definition build_buffer (existing_data positions_bytes normals_bytes uvs_bytes
                         indices_bytes : list byte) : list byte :=
  (((((((existing_data
           ++ positions_bytes) ++ zeros (pad_to_4 (len positions_bytes)))
           ++ normals_bytes) ++ zeros (pad_to_4 (len normals_bytes)))
           ++ uvs_bytes) ++ zeros (pad_to_4 (len uvs_bytes)))
           ++ indices_bytes) ++ zeros (pad_to_4 (len indices_bytes)).

(** Lines 105-280 of [main], for the arrays of a generated mesh. *)
Definition append_layer (mesh : MeshData) (existing_data : list byte) (gltf : GLTF2)
  : res GLTF2 :=
  let positions_bytes := vec3_tobytes (positions mesh) in
  let normals_bytes := vec3_tobytes (normals mesh) in
  let uvs_bytes := vec2_tobytes (uvs mesh) in
  let indices_bytes := uint16_tobytes (indices mesh) in
  let positions_length := len positions_bytes in
  let normals_length := len normals_bytes in
  let uvs_length := len uvs_bytes in
  let indices_length := len indices_bytes in
  let new_data_start := len existing_data in
  let '(positions_offset, normals_offset, uvs_offset, indices_offset) :=
    offsets new_data_start positions_length normals_length uvs_length in
  let new_buffer_data :=
    build_buffer existing_data positions_bytes normals_bytes uvs_bytes indices_bytes in
  existing_buffer <- item0 (buffers gltf) ;;
  let buffers' :=
    {| uri := uri existing_buffer; buffer_byteLength := len new_buffer_data |}
      :: tl (buffers gltf) in
  let positions_bv_idx := len (bufferViews gltf) in
  let bvs1 := bufferViews gltf ++
    [{| buffer := 0; byteOffset := positions_offset;
        byteLength := positions_length; target := 34962 |}] in
  let normals_bv_idx := len bvs1 in
  let bvs2 := bvs1 ++
    [{| buffer := 0; byteOffset := normals_offset;
        byteLength := normals_length; target := 34962 |}] in
  let uvs_bv_idx := len bvs2 in
  let bvs3 := bvs2 ++
    [{| buffer := 0; byteOffset := uvs_offset;
        byteLength := uvs_length; target := 34962 |}] in
  let indices_bv_idx := len bvs3 in
  let bvs4 := bvs3 ++
    [{| buffer := 0; byteOffset := indices_offset;
        byteLength := indices_length; target := 34963 |}] in
  let vertex_count := len (positions mesh) in
  let index_count := len (indices mesh) in
  let positions_acc_idx := len (accessors gltf) in
  position_max <- max_axis0 (positions mesh) ;;
  position_min <- min_axis0 (positions mesh) ;;
  let accs1 := accessors gltf ++
    [{| bufferView := positions_bv_idx; componentType := 5126;
        count := vertex_count; type := "VEC3";
        acc_max := Some position_max; acc_min := Some position_min |}] in
  let normals_acc_idx := len accs1 in
  let accs2 := accs1 ++
    [{| bufferView := normals_bv_idx; componentType := 5126;
        count := vertex_count; type := "VEC3";
        acc_max := None; acc_min := None |}] in
  let uvs_acc_idx := len accs2 in
  let accs3 := accs2 ++
    [{| bufferView := uvs_bv_idx; componentType := 5126;
        count := vertex_count; type := "VEC2";
        acc_max := None; acc_min := None |}] in
  let indices_acc_idx := len accs3 in
  let accs4 := accs3 ++
    [{| bufferView := indices_bv_idx; componentType := 5123;
        count := index_count; type := "SCALAR";
        acc_max := None; acc_min := None |}] in
  let material_idx :=
    match materials gltf with [] => 0 | _ :: _ => len (materials gltf) end in
  let materials0 :=
    match materials gltf with [] => [] | _ :: _ => materials gltf end in
  let materials' := materials0 ++
    [{| material_name := "outside";
        baseColorFactor := [1.0; 1.0; 1.0; 1.0]%R;
        metallicFactor := 0.0%R;
        roughnessFactor := 0.5%R |}] in
  let primitive :=
    {| attributes := [("POSITION"%string, positions_acc_idx);
                      ("NORMAL"%string, normals_acc_idx);
                      ("TEXCOORD_0"%string, uvs_acc_idx)];
       primitive_indices := Some indices_acc_idx;
       primitive_material := Some material_idx |} in
  let mesh_idx := len (meshes gltf) in
  let meshes' := meshes gltf ++
    [{| mesh_name := "CustomizableLayer"; primitives := [primitive] |}] in
  existing_node <- item0 (nodes gltf) ;;
  let node_scale :=
    match scale existing_node with
    | Some (c :: s) => c :: s
    | _ => [1; 1; 1]%R
    end in
  let node_idx := len (nodes gltf) in
  let nodes' := nodes gltf ++
    [{| node_mesh := Some mesh_idx; node_name := "CustomizableLayerNode";
        scale := Some node_scale |}] in
  scene0 <- item0 (scenes gltf) ;;
  let scenes' :=
    {| scene_nodes := scene_nodes scene0 ++ [node_idx] |} :: tl (scenes gltf) in
  Ok {| buffers := buffers';
        bufferViews := bvs4;
        accessors := accs4;
        materials := materials';
        meshes := meshes';
        nodes := nodes';
        scenes := scenes';
        glb_data := Some new_buffer_data |}.

(** [main], from the loaded model to the model that is saved. *)
Definition main (gltf : GLTF2) : res GLTF2 :=
  existing_buffer <- item0 (buffers gltf) ;;
  existing_data <- existing_data_of gltf existing_buffer ;;
  mesh <- create_cylinder_mesh_data SEGMENTS RADIUS HEIGHT_START HEIGHT_END ;;
  append_layer mesh existing_data gltf.

(** The entries [append_layer] registers, named to state results. *)

Definition new_bufferViews (mesh : MeshData) (existing_data : list byte)
  : list BufferView :=
  let positions_length := len (vec3_tobytes (positions mesh)) in
  let normals_length := len (vec3_tobytes (normals mesh)) in
  let uvs_length := len (vec2_tobytes (uvs mesh)) in
  let indices_length := len (uint16_tobytes (indices mesh)) in
  let '(positions_offset, normals_offset, uvs_offset, indices_offset) :=
    offsets (len existing_data) positions_length normals_length uvs_length in
  [{| buffer := 0; byteOffset := positions_offset;
      byteLength := positions_length; target := 34962 |};
   {| buffer := 0; byteOffset := normals_offset;
      byteLength := normals_length; target := 34962 |};
   {| buffer := 0; byteOffset := uvs_offset;
      byteLength := uvs_length; target := 34962 |};
   {| buffer := 0; byteOffset := indices_offset;
      byteLength := indices_length; target := 34963 |}].

Definition new_accessors (mesh : MeshData) (first_view : Z)
    (position_max position_min : list R) : list Accessor :=
  [{| bufferView := first_view; componentType := 5126;
      count := len (positions mesh); type := "VEC3";
      acc_max := Some position_max; acc_min := Some position_min |};
   {| bufferView := first_view + 1; componentType := 5126;
      count := len (positions mesh); type := "VEC3";
      acc_max := None; acc_min := None |};
   {| bufferView := first_view + 2; componentType := 5126;
      count := len (positions mesh); type := "VEC2";
      acc_max := None; acc_min := None |};
   {| bufferView := first_view + 3; componentType := 5123;
      count := len (indices mesh); type := "SCALAR";
      acc_max := None; acc_min := None |}].

Definition outside_material : Material :=
  {| material_name := "outside";
     baseColorFactor := [1.0; 1.0; 1.0; 1.0]%R;
     metallicFactor := 0.0%R;
     roughnessFactor := 0.5%R |}.

Definition layer_mesh (first_accessor material_idx : Z) : Mesh :=
  {| mesh_name := "CustomizableLayer";
     primitives :=
       [{| attributes := [("POSITION"%string, first_accessor);
                          ("NORMAL"%string, first_accessor + 1);
                          ("TEXCOORD_0"%string, first_accessor + 2)];
           primitive_indices := Some (first_accessor + 3);
           primitive_material := Some material_idx |}] |}.

(** The scale the new node takes from the node at index 0: that node's
    scale when it has one (a non-empty list), [1, 1, 1] otherwise. *)
Definition inherited_scale (existing_node : Node) : list R :=
  match scale existing_node with
  | Some (c :: s) => c :: s
  | _ => [1; 1; 1]%R
  end.

Definition layer_node (mesh_idx : Z) (existing_node : Node) : Node :=
  {| node_mesh := Some mesh_idx; node_name := "CustomizableLayerNode";
     scale := Some (inherited_scale existing_node) |}.

Definition layer_bytes (mesh : MeshData) (existing_data : list byte) : list byte :=
  build_buffer existing_data
    (vec3_tobytes (positions mesh)) (vec3_tobytes (normals mesh))
    (vec2_tobytes (uvs mesh)) (uint16_tobytes (indices mesh)).

End Main.

(** Stand-ins for the two host functions, for closed examples. *)
Definition zero_pack (x : R) : byte * byte * byte * byte := (x00, x00, x00, x00).
Definition no_uri (u : string) : res (list byte) := Raise ValueError.

(** A small GLB: one buffer of four bytes in the binary chunk, one scaled
    node in one scene. *)
Definition small_glb : GLTF2 :=
  {| buffers := [{| uri := None; buffer_byteLength := 4 |}];
     bufferViews := [{| buffer := 0; byteOffset := 0; byteLength := 4; target := 34963 |}];
     accessors := [];
     materials := [];
     meshes := [];
     nodes := [{| node_mesh := None; node_name := "Cue"; scale := Some [2; 3; 2]%R |}];
     scenes := [{| scene_nodes := [0] |}];
     glb_data := Some [x00; x00; x01; x00] |}.

(** A model whose first buffer sits behind a URI and holds six bytes
    (three 16-bit indices). *)
Definition six_bytes (u : string) : res (list byte) :=
  Ok [x00; x00; x01; x00; x02; x00].

Definition uri_model : GLTF2 :=
  {| buffers := [{| uri := Some "indices.bin"%string; buffer_byteLength := 6 |}];
     bufferViews := [{| buffer := 0; byteOffset := 0; byteLength := 6; target := 34963 |}];
     accessors := [];
     materials := [];
     meshes := [];
     nodes := [{| node_mesh := None; node_name := "Cue"; scale := None |}];
     scenes := [{| scene_nodes := [0] |}];
     glb_data := None |}.

End Gltf.

(** ** check_uv_dimensions.py: the UV inspection utility *)

Module CheckUv.
Local Open Scope R_scope.

(** A scene object: its name, its type ('MESH', 'CAMERA', ...), whether
    it is selected, and the UV coordinates of its mesh, face by face and
    loop by loop ([None] when the mesh has no active UV layer). *)
Record Object : Type := {
  name : string;
  type : string;
  selected : bool;
  face_uvs_of : option (list (list vec2))
}.

(** [bpy.context]: the scene's objects and which of them is active. *)
Record Context : Type := {
  objects : list Object;
  active : option nat
}.

Definition active_object (ctx : Context) : option (nat * Object) :=
  match active ctx with
  | Some i => option_map (pair i) (nth_error (objects ctx) i)
  | None => None
  end.

Definition is_mesh (o : Object) : bool := String.eqb (type o) "MESH".

(** Lines 15-19: the first mesh of the scene, with its index. *)
Fixpoint first_mesh (i : nat) (l : list Object) : option (nat * Object) :=
  match l with
  | [] => None
  | o :: l' => if is_mesh o then Some (i, o) else first_mesh (S i) l'
  end.

Fixpoint select_set (l : list Object) (i : nat) : list Object :=
  match l, i with
  | [], _ => []
  | o :: l', O =>
      {| name := name o; type := type o; selected := true;
         face_uvs_of := face_uvs_of o |} :: l'
  | o :: l', S i' => o :: select_set l' i'
  end.

Definition sum (l : list R) : R := fold_left Rplus l 0.

(** Lines 41-60, one face: its UVs join the rectangle's or the circles'
    according to their mean v. *)
Definition face_step (face_uvs : list vec2)
    (st : list vec2 * list vec2 * list vec2)
  : res (list vec2 * list vec2 * list vec2) :=
  let '(all_uvs, rect_uvs, circle_uvs) := st in
  let all_uvs := all_uvs ++ face_uvs in
  match face_uvs with
  | [] => Raise ZeroDivisionError
  | _ :: _ =>
      let avg_v := sum (map snd face_uvs) / INR (length face_uvs) in
      if Rlt_dec 0.45 avg_v
      then Ok (all_uvs, rect_uvs ++ face_uvs, circle_uvs)
      else Ok (all_uvs, rect_uvs, circle_uvs ++ face_uvs)
  end.

Section Report.

(** Python's number formatting and rounding, left to the host:
    [f"{x:.4f}"], [f"{x:.2f}"], [str(n)], [int(x)] and [round(x)]. *)
Variable fmt4 : R -> string.
Variable fmt2 : R -> string.
Variable str : Z -> string.
Variable int : R -> Z.
Variable round : R -> Z.

Local Open Scope string_scope.
Local Open Scope list_scope.
Local Infix "+++" := String.append (at level 60, right associativity).

Definition pixel_line (rect_width rect_height : R) (base : Z) : string :=
  let pw := int (IZR base * rect_width) in
  let ph := int (IZR base * rect_height) in
  "  " +++ str base +++ "px → " +++ str pw +++ " × " +++ str ph.

(** Lines 67-129. *)
Definition report (obj : Object) (rect_uvs circle_uvs : list vec2) : res (list string) :=
  rect_min_u <- py_min (map fst rect_uvs) ;;
  rect_max_u <- py_max (map fst rect_uvs) ;;
  rect_min_v <- py_min (map snd rect_uvs) ;;
  rect_max_v <- py_max (map snd rect_uvs) ;;
  let rect_width := (rect_max_u - rect_min_u)%R in
  let rect_height := (rect_max_v - rect_min_v)%R in
  let rect_aspect :=
    if Rlt_dec 0 rect_height then (rect_width / rect_height)%R else 1.0%R in
  circle_lines <-
    match circle_uvs with
    | [] => Ok []
    | _ :: _ =>
        circ_min_u <- py_min (map fst circle_uvs) ;;
        circ_max_u <- py_max (map fst circle_uvs) ;;
        circ_min_v <- py_min (map snd circle_uvs) ;;
        circ_max_v <- py_max (map snd circle_uvs) ;;
        Ok ["U: " +++ fmt4 circ_min_u +++ " → " +++ fmt4 circ_max_u;
            "V: " +++ fmt4 circ_min_v +++ " → " +++ fmt4 circ_max_v]
    end ;;
  let rec_w := round (2048 * rect_width) in
  let rec_h := round (2048 * rect_height) in
  Ok (["Object: " +++ name obj;
       "";
       "═══ RECTANGLE (Side) ═══";
       "UV Points: " +++ str (Z.of_nat (List.length rect_uvs));
       "U: " +++ fmt4 rect_min_u +++ " → " +++ fmt4 rect_max_u;
       "V: " +++ fmt4 rect_min_v +++ " → " +++ fmt4 rect_max_v;
       "Width: " +++ fmt4 rect_width;
       "Height: " +++ fmt4 rect_height;
       "Aspect: " +++ fmt2 rect_aspect +++ ":1";
       "";
       "═══ CIRCLES (Caps) ═══";
       "UV Points: " +++ str (Z.of_nat (List.length circle_uvs))]
      ++ circle_lines
      ++ ["";
          "═══ PIXEL DIMENSIONS ═══";
          "(Rectangle only, 1:1 mapping)";
          ""]
      ++ map (pixel_line rect_width rect_height) [512; 1024; 2048; 4096]%Z
      ++ ["";
          "═══ RECOMMENDATION ═══";
          "surface.jpg: " +++ str rec_w +++ " × " +++ str rec_h;
          "Aspect ratio: " +++ fmt2 rect_aspect +++ ":1";
          "";
          "═══ FOR main.js ═══";
          "Rect V range: " +++ fmt4 rect_min_v +++ " to " +++ fmt4 rect_max_v;
          "Apply texture only where V > 0.45"]).

(** The function returns its list of lines; the context it leaves behind
    has the inspected object active and selected. *)
Definition get_uv_pixel_dimensions (ctx : Context) : res (list string * Context) :=
  let '(obj, ctx) :=
    match active_object ctx with
    | Some o => (Some o, ctx)
    | None =>
        match first_mesh 0 (objects ctx) with
        | Some (i, o) => (Some (i, o), {| objects := objects ctx; active := Some i |})
        | None => (None, ctx)
        end
    end in
  match obj with
  | None => Ok (["ERROR: No mesh object found!"; "Please import cue.glb first."], ctx)
  | Some (i, obj) =>
      if negb (is_mesh obj)
      then Ok (["ERROR: No mesh object found!"; "Please import cue.glb first."], ctx)
      else
        let ctx := {| objects := select_set (objects ctx) i; active := active ctx |} in
        match face_uvs_of obj with
        | None => Ok (["ERROR: Mesh has no UV layers!"], ctx)
        | Some faces =>
            '(all_uvs, rect_uvs, circle_uvs) <- for_each faces face_step ([], [], []) ;;
            match rect_uvs with
            | [] => Ok (["ERROR: No rectangle UVs found!"; "Try adjusting threshold."], ctx)
            | _ :: _ =>
                lines <- report obj rect_uvs circle_uvs ;;
                Ok (lines, ctx)
            end
        end
  end.

End Report.

(** The object the utility settles on (lines 12-19), if any. *)
Definition inspected (ctx : Context) : option Object :=
  match active_object ctx with
  | Some (_, o) => Some o
  | None => option_map snd (first_mesh 0 (objects ctx))
  end.

(** The two situations of the error paths: no mesh object was found, or
    the mesh that was found has no UV layer. *)
Definition no_mesh_found (ctx : Context) : Prop :=
  match inspected ctx with
  | None => True
  | Some o => is_mesh o = false
  end.

Definition no_uv_layer (ctx : Context) : Prop :=
  match inspected ctx with
  | None => False
  | Some o => is_mesh o = true /\ face_uvs_of o = None
  end.

(** [line.startswith("ERROR:")] *)
Definition is_error_line (line : string) : bool := String.prefix "ERROR:" line.

(** Stand-ins for the host's formatting, for closed examples. *)
Definition no_fmt (x : R) : string := EmptyString.
Definition no_str (n : Z) : string := EmptyString.
Definition no_int (x : R) : Z := 0%Z.

Definition empty_scene : Context := {| objects := []; active := None |}.

Definition bare_mesh_scene : Context :=
  {| objects := [{| name := "Cue"; type := "MESH"; selected := false;
                    face_uvs_of := None |}];
     active := None |}.

End CheckUv.

(** ** create_cue_butt.py: UV unwrap of the cylinder's side *)

Module CueButt.
Local Open Scope R_scope.

(** The edit mesh: a loop is a face corner, with its vertex's
    coordinates and its UV; a face has its normal and its loops.  (The
    UV layer is created when missing, lines 134-135; every loop's UV is
    then overwritten.) *)
Record BMLoop : Type := {
  vert : vec3;
  uv : vec2
}.

Record BMFace : Type := {
  normal : vec3;
  loops : list BMLoop
}.

Record BMesh : Type := {
  verts : list vec3;
  faces : list BMFace
}.

(** Lines 158-162: a cap loop. *)
Definition collapse_loop (loop : BMLoop) : BMLoop :=
  {| vert := vert loop; uv := (0.5, 0.005) |}.

(** Lines 165-178: a side loop. *)
Definition project_loop (min_z z_range : R) (loop : BMLoop) : BMLoop :=
  let '(x, y, z) := vert loop in
  let angle := atan2 y x in
  let u := (angle + PI) / (2 * PI) in
  let v := if Rlt_dec 0 z_range then (z - min_z) / z_range else 0.5 in
  {| vert := vert loop; uv := (u, v) |}.

(** Lines 151-178: one face. *)
Definition unwrap_face (min_z z_range : R) (face : BMFace) : BMFace :=
  if Rlt_dec 0.9 (Rabs (pz (normal face)))
  then {| normal := normal face; loops := map collapse_loop (loops face) |}
  else {| normal := normal face; loops := map (project_loop min_z z_range) (loops face) |}.

Definition unwrap_cylinder_side_only (bm : BMesh) (uv_aspect : R) : res BMesh :=
  let z_coords := map pz (verts bm) in
  min_z <- py_min z_coords ;;
  max_z <- py_max z_coords ;;
  let z_range := max_z - min_z in
  Ok {| verts := verts bm; faces := map (unwrap_face min_z z_range) (faces bm) |}.

(** A side quad's edge and a cap corner of a cylinder of height 2. *)
Definition sample_bmesh : BMesh :=
  {| verts := [(1, 0, 0); (1, 0, 2)];
     faces := [{| normal := (1, 0, 0);
                  loops := [{| vert := (1, 0, 0); uv := (0, 0) |};
                            {| vert := (1, 0, 2); uv := (0, 0) |}] |};
               {| normal := (0, 0, 1);
                  loops := [{| vert := (1, 0, 2); uv := (0, 0) |}] |}] |}.

End CueButt.

(** ** generate_cue.py: tapered sections and their UV mapping *)

Module GenerateCue.
Local Open Scope R_scope.

(** Lines 158-179: one vertex of the primitive cylinder. *)
Definition taper_vertex (length radius_top radius_bottom : R) (v : vec3) : vec3 :=
  let '(x, y, z) := v in
  let z_min := - length / 2 in
  let t := if Rlt_dec 0 length then (z - z_min) / length else 0.5 in
  let t := Rmax 0.0 (Rmin 1.0 t) in
  let target_radius := radius_bottom + (radius_top - radius_bottom) * t in
  let current_dist := sqrt (x ^ 2 + y ^ 2) in
  if Rlt_dec 0.0001 current_dist
  then let scale_factor := target_radius / current_dist in
       (x * scale_factor, y * scale_factor, z)
  else (x, y, z).

(** [create_tapered_cylinder], on the vertices of the cylinder that
    [primitive_cylinder_add] has created (radius 1.0, depth [length]). *)
Definition create_tapered_cylinder (length radius_top radius_bottom : R)
    (verts : list vec3) : list vec3 :=
  map (taper_vertex length radius_top radius_bottom) verts.

(** The mesh data of an object: vertex coordinates, the vertex index of
    each loop, the polygons (normal and loop indices) and the active UV
    layer's data, one entry per loop ([None]: the mesh has no UV layer). *)
Record MeshPolygon : Type := {
  polygon_normal : vec3;
  loop_indices : list nat
}.

Record Mesh : Type := {
  vertices : list vec3;
  loops : list nat;
  polygons : list MeshPolygon;
  uv_layer : option (list vec2)
}.

Record Object : Type := {
  matrix_world : vec3 -> vec3;   (* v |-> obj.matrix_world @ v *)
  data : Mesh
}.

(** Lines 217-224: [None] is [float('inf')] (or [float('-inf')]), the
    value before any vertex is seen. *)
Definition track_min (acc : option R) (z : R) : option R :=
  match acc with
  | None => Some z
  | Some m => Some (Rmin m z)
  end.

Definition track_max (acc : option R) (z : R) : option R :=
  match acc with
  | None => Some z
  | Some m => Some (Rmax m z)
  end.

(** Line 226. *)
Definition z_range_of (min_z max_z : option R) : R :=
  match min_z, max_z with
  | Some lo, Some hi => if Rlt_dec lo hi then hi - lo else 1.0
  | _, _ => 1.0
  end.

(** An infinite bound survives only for a mesh without vertices, where
    every vertex lookup raises before the bound is used. *)
Definition finite (b : option R) : R :=
  match b with
  | Some r => r
  | None => 0
  end.

(** Lines 231-245: one loop of a polygon. *)
Definition uv_of_loop (obj : Object) (min_z z_range : R) (loop_idx : nat) : res vec2 :=
  vertex_index <- lookup (loops (data obj)) loop_idx ;;
  co <- lookup (vertices (data obj)) vertex_index ;;
  let '(x, y, z) := matrix_world obj co in
  let angle := atan2 y x in
  let u := (angle + PI) / (2 * PI) in
  let v := (z - min_z) / z_range in
  Ok (u, v).

Definition loop_step (obj : Object) (min_z z_range : R) (loop_idx : nat)
    (uvs : list vec2) : res (list vec2) :=
  uv <- uv_of_loop obj min_z z_range loop_idx ;;
  set_item uvs loop_idx uv.

Definition apply_cylindrical_uv_proper (obj : Object) : res Object :=
  let mesh := data obj in
  let uvs :=
    match uv_layer mesh with
    | Some uvs => uvs
    | None => repeat (0, 0) (length (loops mesh))
    end in
  let world_z := map (fun co => pz (matrix_world obj co)) (vertices mesh) in
  let min_z := fold_left track_min world_z None in
  let max_z := fold_left track_max world_z None in
  let z_range := z_range_of min_z max_z in
  uvs' <- for_each (polygons mesh)
            (fun poly uvs =>
               for_each (loop_indices poly) (loop_step obj (finite min_z) z_range) uvs)
            uvs ;;
  Ok {| matrix_world := matrix_world obj;
        data := {| vertices := vertices mesh; loops := loops mesh;
                   polygons := polygons mesh; uv_layer := Some uvs' |} |}.

(** A flat triangle facing up, as an end cap is. *)
Definition cap_triangle : Object :=
  {| matrix_world := fun co => co;
     data := {| vertices := [(1, 0, 0); (-1, 0, 0); (0, 1, 0)];
                loops := [0; 1; 2]%nat;
                polygons := [{| polygon_normal := (0, 0, 1);
                                loop_indices := [0; 1; 2]%nat |}];
                uv_layer := None |} |}.

End GenerateCue.

(** ** create_cue_export.py: tapered sections *)

Module CreateCueExport.
Local Open Scope R_scope.

(** Lines 49-57: one vertex of the primitive cylinder. *)
Definition section_vertex (length r_start r_end z_start : R) (v : vec3) : vec3 :=
  let '(x, y, z) := v in
  let local_z := if Rlt_dec 0 length then (z - z_start) / length else 0 in
  let local_z := Rmax 0 (Rmin 1 local_z) in
  let radius := r_start + (r_end - r_start) * local_z in
  let current_dist := sqrt (x ^ 2 + y ^ 2) in
  if Rlt_dec 0.001 current_dist
  then let scale := radius / current_dist in
       (x * scale, y * scale, z)
  else (x, y, z).

(** [create_cue_section], on the vertices of the cylinder that
    [primitive_cylinder_add] has created (radius 1.0, depth [length]). *)
Definition create_cue_section (length r_start r_end z_start : R)
    (verts : list vec3) : list vec3 :=
  map (section_vertex length r_start r_end z_start) verts.

End CreateCueExport.

(** ** create_cue.py: tapered segments *)

Module CreateCue.
Local Open Scope R_scope.

(** Lines 82-86: one vertex; the top half is scaled. *)
Definition scale_top (r_start r_end : R) (v : vec3) : res vec3 :=
  let '(x, y, z) := v in
  if Rlt_dec 0 z
  then scale_factor <- float_div r_end r_start ;;
       Ok (x * scale_factor, y * scale_factor, z)
  else Ok (x, y, z).

Fixpoint for_verts (f : vec3 -> res vec3) (verts : list vec3) : res (list vec3) :=
  match verts with
  | [] => Ok []
  | v :: verts' =>
      v' <- f v ;;
      verts'' <- for_verts f verts' ;;
      Ok (v' :: verts'')
  end.

(** Lines 76-89 of [create_cue_stick], on the vertices of the cylinder
    that [primitive_cylinder_add] has created (radius [r_start]). *)
Definition taper_segment (r_start r_end : R) (verts : list vec3) : res (list vec3) :=
  if Req_dec_T r_start r_end
  then Ok verts
  else for_verts (scale_top r_start r_end) verts.

End CreateCue.

(** ** Circles, interpolation and the cylindrical projection *)

Section Shapes.
Local Open Scope R_scope.

(** A point on the circle of radius [r] about the z axis. *)
Definition on_circle (r : R) (v : vec3) : Prop :=
  px v * px v + py v * py v = r * r.

(** A vertex of the cylinder that [primitive_cylinder_add(radius=r,
    depth=d)] creates, in the coordinates the scripts read: on the circle
    of radius [r] about the z axis, at height -d/2 or d/2. *)
Definition primitive_vertex (r d : R) (v : vec3) : Prop :=
  on_circle r v /\ (pz v = - d / 2 \/ pz v = d / 2).

(** Linear interpolation from [a] (at t = 0) to [b] (at t = 1). *)
Definition lerp (a b t : R) : R := a + (b - a) * t.

(** [max(0, min(1, t))] *)
Definition clamp01 (t : R) : R := Rmax 0 (Rmin 1 t).

(** The u coordinate of the cylindrical projection of a point. *)
Definition cylinder_u (x y : R) : R := (atan2 y x + PI) / (2 * PI).

(** The normal of an end cap: [abs(normal.z) > 0.9]. *)
Definition is_cap_normal (n : vec3) : Prop := 0.9 < Rabs (pz n).

(** Two vertices of a primitive of radius 1 and depth 2, and two of a
    primitive of radius 3 and depth 2: one on each ring. *)
Definition sample_unit_verts : list vec3 := [(1, 0, -1); (0, 1, 1)].
Definition sample_cue_verts : list vec3 := [(3, 0, -1); (0, 3, 1)].

End Shapes.

(** ** Vectors and triangles, to speak of the shell's surface *)

Section Surface.
Local Open Scope R_scope.

Definition vsub (a b : vec3) : vec3 := (px a - px b, py a - py b, pz a - pz b).

Definition cross (a b : vec3) : vec3 :=
  (py a * pz b - pz a * py b, pz a * px b - px a * pz b, px a * py b - py a * px b).

Definition dot (a b : vec3) : R := px a * px b + py a * py b + pz a * pz b.

(** The normal of the triangle [a b c] by the right-hand rule (the side
    from which [a], [b], [c] appear counter-clockwise). *)
Definition face_normal (a b c : vec3) : vec3 := cross (vsub b a) (vsub c a).

(** A point of the cylinder of radius [r] about the y axis. *)
Definition on_cylinder (r : R) (v : vec3) : Prop := px v * px v + pz v * pz v = r * r.

(** An index list read three entries at a time. *)
Fixpoint triangles_of (l : list Z) : list (Z * Z * Z) :=
  match l with
  | a :: b :: c :: l' => (a, b, c) :: triangles_of l'
  | _ => []
  end.

End Surface.

(** ** Reading a glTF model back: from accessor to bytes *)

Section Resolve.
Import Gltf.

(** The bytes a buffer view covers in the binary chunk. *)
Definition view_bytes (g : GLTF2) (view_idx : Z) : option (list byte) :=
  match nth_error (bufferViews g) (Z.to_nat view_idx), glb_data g with
  | Some view, Some blob =>
      Some (firstn (Z.to_nat (byteLength view)) (skipn (Z.to_nat (byteOffset view)) blob))
  | _, _ => None
  end.

(** The bytes an accessor reads, through its buffer view. *)
Definition accessor_bytes (g : GLTF2) (accessor_idx : Z) : option (list byte) :=
  match nth_error (accessors g) (Z.to_nat accessor_idx) with
  | Some acc => view_bytes g (bufferView acc)
  | None => None
  end.

(** The accessor index a primitive gives for an attribute name. *)
Fixpoint attribute (attrs : list (string * Z)) (name : string) : option Z :=
  match attrs with
  | [] => None
  | (k, v) :: attrs' => if String.eqb k name then Some v else attribute attrs' name
  end.

End Resolve.

(** ** The inspection utility's split of the faces *)

Section UvSplit.
Local Open Scope R_scope.

(** The mean v of a face's UVs (line 52), and whether the face counts as
    part of the rectangle (line 57). *)
Definition mean_v (face_uvs : list vec2) : R :=
  CheckUv.sum (map snd face_uvs) / INR (length face_uvs).

Definition is_rect_face (face_uvs : list vec2) : bool :=
  if Rlt_dec 0.45 (mean_v face_uvs) then true else false.

Definition is_circle_face (face_uvs : list vec2) : bool := negb (is_rect_face face_uvs).

End UvSplit.

(** ** A scene to inspect: one unwrapped mesh *)

Section InspectedScene.
Local Open Scope R_scope.
Local Open Scope string_scope.

(** A mesh with a side quad over the upper half of the UV square and a
    cap collapsed to one point, not yet active. *)
Definition unwrapped_scene : CheckUv.Context :=
  {| CheckUv.objects :=
       [{| CheckUv.name := "Camera"; CheckUv.type := "CAMERA";
           CheckUv.selected := false; CheckUv.face_uvs_of := None |};
        {| CheckUv.name := "CueButt"; CheckUv.type := "MESH";
           CheckUv.selected := false;
           CheckUv.face_uvs_of :=
             Some [[(0, 0.5); (1, 0.5); (1, 1); (0, 1)]; [(0.5, 0.005)]] |}];
     CheckUv.active := None |}.

End InspectedScene.

(** ** The UV layer that generate_cue.py writes into *)

Section UvLayer.

(** Lines 209-213: the active layer's data before the loop (a new layer
    has one entry per loop), and the loops the polygon loop visits. *)
Definition layer_before (mesh : GenerateCue.Mesh) : list vec2 :=
  match GenerateCue.uv_layer mesh with
  | Some uvs => uvs
  | None => repeat (0%R, 0%R) (length (GenerateCue.loops mesh))
  end.

Definition visited_loops (mesh : GenerateCue.Mesh) : list nat :=
  flat_map GenerateCue.loop_indices (GenerateCue.polygons mesh).

(** A UV inside the unit square; u = 0 excluded. *)
Definition in_unit_square (uv : vec2) : Prop :=
  (0 < fst uv <= 1)%R /\ (0 <= snd uv <= 1)%R.

End UvLayer.

(** ** generate_cue.py: colours and the stack of sections *)

Module PoolCue.
Local Open Scope R_scope.

(** [hex_color.lstrip('#')] *)
Fixpoint lstrip_hash (s : string) : string :=
  match s with
  | String c s' => if String.eqb (String c EmptyString) "#"%string then lstrip_hash s' else s
  | EmptyString => s
  end.

(** A [SectionSpec] tuple, with the names the section loop gives to its
    components (line 334). *)
Record SectionSpec : Type := {
  name : string;
  length_mm : R;
  r_top_mm : R;
  r_bottom_mm : R;
  color_hex : string;
  mat_name : string;
  metallic : R;
  roughness : R
}.

(** What [create_tapered_cylinder] returns: the object's name, the
    height of its origin, the depth of its primitive, its vertices in
    local coordinates and its material (name, colour, metallic,
    roughness). *)
Record CueSection : Type := {
  section_name : string;
  location_z : R;
  depth : R;
  vertices : list vec3;
  material_name : string;
  material_color : R * R * R * R;
  material_metallic : R;
  material_roughness : R
}.

Section Host.

(** [int(s, 16)], and the local vertex coordinates of the mesh that
    [primitive_cylinder_add(vertices, radius, depth)] creates. *)
Variable int16 : string -> res Z.
Variable primitive_cylinder_add : Z -> R -> R -> list vec3.

(** Lines 36-50. *)
Definition hex_to_rgba (hex_color : string) : res (R * R * R * R) :=
  let hex_color := lstrip_hash hex_color in
  r <- int16 (substring 0 2 hex_color) ;;
  g <- int16 (substring 2 2 hex_color) ;;
  b <- int16 (substring 4 2 hex_color) ;;
  Ok (IZR r / 255.0, IZR g / 255.0, IZR b / 255.0, 1.0).

(** Lines 108-188, with the default of 32 segments. *)
Definition create_tapered_cylinder (name : string)
    (length radius_top radius_bottom z_position : R)
    (color : R * R * R * R) (material_name : string) (metallic roughness : R)
  : CueSection :=
  {| section_name := name;
     location_z := z_position + length / 2;
     depth := length;
     vertices :=
       GenerateCue.create_tapered_cylinder length radius_top radius_bottom
         (primitive_cylinder_add 32 1.0 length);
     material_name := material_name;
     material_color := color;
     material_metallic := metallic;
     material_roughness := roughness |}.

(** Lines 334-361: one section; the state is [z_position], [all_objects]
    and [custom_layer_obj]. *)
Definition section_step (s : SectionSpec)
    (st : R * list CueSection * option CueSection)
  : res (R * list CueSection * option CueSection) :=
  let '(z_position, all_objects, custom_layer_obj) := st in
  let mm_to_units := 0.001 in
  let length := length_mm s * mm_to_units in
  let r_top := r_top_mm s * mm_to_units / 2 in
  let r_bottom := r_bottom_mm s * mm_to_units / 2 in
  let z_position := z_position - length in
  color <- hex_to_rgba (color_hex s) ;;
  let obj := create_tapered_cylinder (name s) length r_top r_bottom z_position
               color (mat_name s) (metallic s) (roughness s) in
  let all_objects := all_objects ++ [obj] in
  let custom_layer_obj :=
    if String.eqb (mat_name s) "outside" then Some obj else custom_layer_obj in
  Ok (z_position, all_objects, custom_layer_obj).

(** Lines 325-327: one line of the printed breakdown; the percentage
    divides by the total length. *)
Definition breakdown_step (total_length_mm : R) (s : SectionSpec) (u : unit)
  : res unit :=
  q <- float_div (length_mm s) total_length_mm ;;
  let pct := q * 100 in
  Ok tt.

(** Lines 315-361 of [create_pool_cue], for a list of sections. *)
Definition place_sections (sections : list SectionSpec)
  : res (R * list CueSection * option CueSection) :=
  let mm_to_units := 0.001 in
  let total_length_mm := fold_left Rplus (map length_mm sections) 0 in
  _ <- for_each sections (breakdown_step total_length_mm) tt ;;
  let z_position := total_length_mm * mm_to_units in
  for_each sections section_step (z_position, [], None).

End Host.

(** Lines 292-313. *)
Definition sections : list SectionSpec :=
  [ {| name := "Tip"; length_mm := 43; r_top_mm := 12; r_bottom_mm := 12;
       color_hex := "#3D2314"; mat_name := "tip"; metallic := 0.0; roughness := 0.8 |};
    {| name := "Shaft"; length_mm := 682; r_top_mm := 12; r_bottom_mm := 14;
       color_hex := "#DEB887"; mat_name := "shaft"; metallic := 0.0; roughness := 0.4 |};
    {| name := "Ferrule"; length_mm := 43; r_top_mm := 14; r_bottom_mm := 14;
       color_hex := "#FFFFF0"; mat_name := "ferrule"; metallic := 0.1; roughness := 0.2 |};
    {| name := "CustomWrap"; length_mm := 653; r_top_mm := 14; r_bottom_mm := 25;
       color_hex := "#808080"; mat_name := "outside"; metallic := 0.0; roughness := 0.3 |};
    {| name := "Bumper"; length_mm := 29; r_top_mm := 25; r_bottom_mm := 28;
       color_hex := "#1A1A1A"; mat_name := "bumper"; metallic := 0.0;
       roughness := 0.95 |} ]%string.

(** The heights an object occupies: a primitive of depth [d] around its
    origin. *)
Definition bottom (o : CueSection) : R := location_z o - depth o / 2.
Definition top (o : CueSection) : R := location_z o + depth o / 2.

(** Objects stacked downwards without gap or overlap, from [from] to
    [to]. *)
Fixpoint stacked_down (from : R) (objs : list CueSection) (to : R) : Prop :=
  match objs with
  | [] => from = to
  | o :: objs' => top o = from /\ stacked_down (bottom o) objs' to
  end.

(** [mat_name == "outside"], on the object made. *)
Definition is_outside (o : CueSection) : bool :=
  String.eqb (material_name o) "outside".

(** Stand-ins for the host, for closed examples. *)
Definition zero_int16 (s : string) : res Z := Ok 0%Z.
Definition no_primitive (vertices : Z) (radius depth : R) : list vec3 := [].

End PoolCue.

(** ** create_cue.py: the stack of segments *)

Module CueStick.
Local Open Scope R_scope.

(** A segment tuple (line 64): length, radius_start, radius_end, name,
    is_customizable. *)
Record Segment : Type := {
  length : R;
  r_start : R;
  r_end : R;
  name : string;
  is_custom : bool
}.

(** The object of a segment: its name, the height of its origin, the
    depth of its primitive and its vertices in local coordinates.  (The
    material nodes are the host's.) *)
Record CueObject : Type := {
  object_name : string;
  location_z : R;
  depth : R;
  vertices : list vec3
}.

Section Host.

Variable primitive_cylinder_add : Z -> R -> R -> list vec3.

(** Lines 64-128: one segment; the state is [z_offset], [all_objects]
    and [customizable_objects]. *)
Definition segment_step (s : Segment)
    (st : R * list CueObject * list CueObject)
  : res (R * list CueObject * list CueObject) :=
  let '(z_offset, all_objects, customizable_objects) := st in
  verts <- CreateCue.taper_segment (r_start s) (r_end s)
             (primitive_cylinder_add 32 (r_start s) (length s)) ;;
  let obj := {| object_name := name s;
                location_z := z_offset + length s / 2;
                depth := length s;
                vertices := verts |} in
  let customizable_objects :=
    if is_custom s then customizable_objects ++ [obj] else customizable_objects in
  let all_objects := all_objects ++ [obj] in
  let z_offset := z_offset + length s in
  Ok (z_offset, all_objects, customizable_objects).

(** Lines 60-128 of [create_cue_stick], for a list of segments. *)
Definition place_segments (segments : list Segment)
  : res (R * list CueObject * list CueObject) :=
  for_each segments segment_step (0, [], []).

End Host.

(** Lines 36-58. *)
Definition segments : list Segment :=
  [ {| length := 0.01; r_start := 0.006; r_end := 0.006; name := "Tip";
       is_custom := false |};
    {| length := 0.025; r_start := 0.006; r_end := 0.007; name := "Ferrule";
       is_custom := false |};
    {| length := 0.35; r_start := 0.007; r_end := 0.010; name := "Shaft";
       is_custom := false |};
    {| length := 0.02; r_start := 0.012; r_end := 0.012; name := "Joint";
       is_custom := false |};
    {| length := 0.25; r_start := 0.012; r_end := 0.014; name := "Forearm";
       is_custom := false |};
    {| length := 0.45; r_start := 0.014; r_end := 0.015; name := "CustomWrap";
       is_custom := true |};
    {| length := 0.15; r_start := 0.015; r_end := 0.016; name := "ButtSleeve";
       is_custom := false |};
    {| length := 0.025; r_start := 0.016; r_end := 0.014; name := "Bumper";
       is_custom := false |} ]%string.

Definition bottom (o : CueObject) : R := location_z o - depth o / 2.
Definition top (o : CueObject) : R := location_z o + depth o / 2.

(** Objects stacked upwards without gap or overlap, from [from] to
    [to]. *)
Fixpoint stacked_up (from : R) (objs : list CueObject) (to : R) : Prop :=
  match objs with
  | [] => from = to
  | o :: objs' => bottom o = from /\ stacked_up (top o) objs' to
  end.

Definition no_primitive (vertices : Z) (radius depth : R) : list vec3 := [].

End CueStick.

(** ** create_cue_export.py: the sections of the realistic cue *)

Module RealisticCue.
Local Open Scope string_scope.
Local Open Scope R_scope.

(** Lines 84-89. *)
Definition total_length : R := 3.0.
Definition tip_radius : R := 0.013.
Definition butt_radius : R := 0.029.

(** Lines 112-114. *)
Definition get_radius (z_ratio : R) : R :=
  butt_radius + (tip_radius - butt_radius) * z_ratio.

(** A section tuple (line 118): name, z_start_ratio, z_end_ratio,
    is_custom. *)
Record SectionSpec : Type := {
  name : string;
  start_ratio : R;
  end_ratio : R;
  is_custom : bool
}.

(** The object of a section: its name, the height of its origin, the
    depth of its primitive, its vertices in local coordinates, the
    material it is given (name, colour, metallic, roughness) and whether
    [apply_cylindrical_uv] was run on it. *)
Record CueSection : Type := {
  section_name : string;
  location_z : R;
  depth : R;
  vertices : list vec3;
  material : string * (R * R * R * R) * R * R;
  uv_projected : bool
}.

Section Host.

Variable primitive_cylinder_add : Z -> R -> R -> list vec3.

(** Lines 118-137: one section. *)
Definition section_object (s : SectionSpec) : CueSection :=
  let z_start := start_ratio s * total_length in
  let z_end := end_ratio s * total_length in
  let length := z_end - z_start in
  let r_start := get_radius (start_ratio s) in
  let r_end := get_radius (end_ratio s) in
  let verts := CreateCueExport.create_cue_section length r_start r_end z_start
                 (primitive_cylinder_add 32 1.0 length) in
  let '(mat, uv) :=
    if String.eqb (name s) "Tip"
    then (("Tip_mat", (0.12, 0.18, 0.42, 1.0), 0.0, 0.8), false)
    else if String.eqb (name s) "Bumper"
    then (("Bumper_mat", (0.03, 0.03, 0.03, 1.0), 0.0, 0.95), false)
    else if is_custom s
    then (("outside", (0.88, 0.76, 0.53, 1.0), 0.0, 0.4), true)
    else (("Shaft_mat", (0.88, 0.76, 0.53, 1.0), 0.0, 0.4), false) in
  {| section_name := name s;
     location_z := z_start + length / 2;
     depth := length;
     vertices := verts;
     material := mat;
     uv_projected := uv |}%string.

(** Lines 116-137 of [create_realistic_cue], for a list of sections. *)
Definition section_objects (sections : list SectionSpec) : list CueSection :=
  map section_object sections.

End Host.

(** Lines 98-108. *)
Definition sections : list SectionSpec :=
  [ {| name := "Bumper"; start_ratio := 0.0; end_ratio := 0.008; is_custom := false |};
    {| name := "CustomArea"; start_ratio := 0.008; end_ratio := 0.50; is_custom := true |};
    {| name := "Shaft"; start_ratio := 0.50; end_ratio := 0.992; is_custom := false |};
    {| name := "Tip"; start_ratio := 0.992; end_ratio := 1.0; is_custom := false |} ]%string.

Definition bottom (o : CueSection) : R := location_z o - depth o / 2.
Definition top (o : CueSection) : R := location_z o + depth o / 2.

(** A stand-in for the host's primitive: one vertex on each ring of the
    cylinder of radius 1 and the given depth. *)
Definition two_ring_primitive (vertices : Z) (radius depth : R) : list vec3 :=
  [(1, 0, - depth / 2); (0, 1, depth / 2)].

End RealisticCue.

(** ** From the butt's unwrap to the inspection utility *)

Section FaceUvs.

(** What the inspection utility reads from a mesh (lines 41-46): the UV
    of every loop, face by face. *)
Definition face_uvs (bm : CueButt.BMesh) : list (list vec2) :=
  map (fun face => map CueButt.uv (CueButt.loops face)) (CueButt.faces bm).

(** The mean height of a face's corners. *)
Definition mean_height (face : CueButt.BMFace) : R :=
  (CheckUv.sum (map (fun loop => pz (CueButt.vert loop)) (CueButt.loops face))
   / INR (length (CueButt.loops face)))%R.

End FaceUvs.

(** ** pool_cue_constants.py: the segment table and its helpers *)

Module Constants.
Local Open Scope string_scope.
Local Open Scope R_scope.

Inductive SegmentShape : Set :=
| CYLINDER
| TAPERED_CYLINDER
| CYLINDER_ROUNDED_TOP
| CYLINDER_ROUNDED_BOTTOM.

(** The [Material] dataclass, with its defaults [specular = 0.5] and
    [subsurface = 0.0] written out where the table omits them. *)
Record Material : Type := {
  material_name : string;
  base_color_hex : string;
  roughness : R;
  metallic : R;
  specular : R;
  subsurface : R
}.

(** The [Segment] dataclass, with its defaults [is_customizable = False]
    and [notes = ''] written out where the table omits them. *)
Record Segment : Type := {
  name : string;
  order : Z;
  description : string;
  length_mm : R;
  diameter_start_mm : R;
  diameter_end_mm : R;
  shape : SegmentShape;
  material : Material;
  subdivisions : Z;
  is_customizable : bool;
  notes : string
}.

(** Lines 75-136: the entries of [MATERIALS] the segments use. *)
Definition tip_leather : Material :=
  {| material_name := "tip_leather"; base_color_hex := "#3D2314";
     roughness := 0.85; metallic := 0.0; specular := 0.5; subsurface := 0.1 |}.
Definition ferrule_plastic : Material :=
  {| material_name := "ferrule_plastic"; base_color_hex := "#FFFEF0";
     roughness := 0.25; metallic := 0.0; specular := 0.5; subsurface := 0.0 |}.
Definition shaft_maple : Material :=
  {| material_name := "shaft_maple"; base_color_hex := "#E8D4B8";
     roughness := 0.45; metallic := 0.0; specular := 0.5; subsurface := 0.05 |}.
Definition joint_brass : Material :=
  {| material_name := "joint_brass"; base_color_hex := "#B5A642";
     roughness := 0.2; metallic := 0.95; specular := 0.8; subsurface := 0.0 |}.
Definition forearm_wood : Material :=
  {| material_name := "forearm_wood"; base_color_hex := "#8B4513";
     roughness := 0.4; metallic := 0.0; specular := 0.5; subsurface := 0.05 |}.
Definition outside : Material :=
  {| material_name := "outside"; base_color_hex := "#1A1A1A";
     roughness := 0.6; metallic := 0.0; specular := 0.5; subsurface := 0.0 |}.
Definition butt_wood : Material :=
  {| material_name := "butt_wood"; base_color_hex := "#2F1810";
     roughness := 0.35; metallic := 0.0; specular := 0.5; subsurface := 0.05 |}.
Definition bumper_rubber : Material :=
  {| material_name := "bumper_rubber"; base_color_hex := "#0A0A0A";
     roughness := 0.9; metallic := 0.0; specular := 0.5; subsurface := 0.0 |}.

(** Lines 142-240. *)
Definition SEGMENTS : list Segment :=
  [ {| name := "tip"; order := 1;
       description := "Leather tip - striking surface";
       length_mm := 5.0; diameter_start_mm := 12.0; diameter_end_mm := 12.0;
       shape := CYLINDER_ROUNDED_TOP; material := tip_leather; subdivisions := 16;
       is_customizable := false;
       notes := "Dome/hemisphere on top for realistic tip shape" |};
    {| name := "ferrule"; order := 2;
       description := "Protective plastic collar below tip";
       length_mm := 25.0; diameter_start_mm := 12.0; diameter_end_mm := 12.5;
       shape := CYLINDER; material := ferrule_plastic; subdivisions := 24;
       is_customizable := false;
       notes := "Ivory/off-white color, smooth plastic appearance" |};
    {| name := "shaft"; order := 3;
       description := "Main playing shaft - maple wood with taper";
       length_mm := 730.0; diameter_start_mm := 12.5; diameter_end_mm := 14.0;
       shape := TAPERED_CYLINDER; material := shaft_maple; subdivisions := 32;
       is_customizable := false;
       notes := "Gradual taper from tip toward joint, natural maple grain" |};
    {| name := "joint_collar"; order := 4;
       description := "Metal joint ring connecting shaft to butt";
       length_mm := 15.0; diameter_start_mm := 14.0; diameter_end_mm := 14.0;
       shape := CYLINDER; material := joint_brass; subdivisions := 32;
       is_customizable := false;
       notes := "Polished brass/gold appearance with metallic sheen" |};
    {| name := "forearm"; order := 5;
       description := "Decorative wood section with taper";
       length_mm := 200.0; diameter_start_mm := 14.0; diameter_end_mm := 20.0;
       shape := TAPERED_CYLINDER; material := forearm_wood; subdivisions := 32;
       is_customizable := false;
       notes := "Darker decorative wood, gradual taper to grip" |};
    {| name := "wrap"; order := 6;
       description := "CUSTOM LAYER AREA - Grip wrap for texture customization";
       length_mm := 300.0; diameter_start_mm := 20.0; diameter_end_mm := 24.0;
       shape := TAPERED_CYLINDER; material := outside; subdivisions := 48;
       is_customizable := true;
       notes := "PRIMARY CUSTOMIZATION ZONE - Material named 'outside' for Three.js" |};
    {| name := "butt_sleeve"; order := 7;
       description := "Decorative butt sleeve with taper";
       length_mm := 150.0; diameter_start_mm := 24.0; diameter_end_mm := 28.0;
       shape := TAPERED_CYLINDER; material := butt_wood; subdivisions := 32;
       is_customizable := false;
       notes := "Dark hardwood, ebony-like appearance" |};
    {| name := "bumper"; order := 8;
       description := "Rubber end cap for protection";
       length_mm := 10.0; diameter_start_mm := 28.0; diameter_end_mm := 29.0;
       shape := CYLINDER_ROUNDED_BOTTOM; material := bumper_rubber; subdivisions := 24;
       is_customizable := false;
       notes := "Black rubber with matte finish, slight dome on bottom" |} ].

(** Line 282. *)
Definition TOTAL_LENGTH_MM : R := 1435.0.

(** A Python dict with string keys, in insertion order: [d[k] = v] and
    [d.get(k)]. *)
Fixpoint dict_set (d : list (string * R)) (k : string) (v : R) : list (string * R) :=
  match d with
  | [] => [(k, v)]
  | (k', v') :: d' =>
      if String.eqb k' k then (k, v) :: d' else (k', v') :: dict_set d' k v
  end.

Fixpoint dict_get (d : list (string * R)) (k : string) : option R :=
  match d with
  | [] => None
  | (k', v') :: d' => if String.eqb k' k then Some v' else dict_get d' k
  end.

Section Helpers.

(** The helpers read the module's [SEGMENTS] and [TOTAL_LENGTH_MM]. *)
Variable segments : list Segment.
Variable total_length_mm : R.

(** Lines 299-304. *)
Definition get_segment_by_name (n : string) : option Segment :=
  find (fun seg => String.eqb (name seg) n) segments.

(** Lines 307-312. *)
Definition get_customizable_segment : option Segment :=
  find is_customizable segments.

(** Lines 315-317. *)
Definition calculate_total_length : R :=
  fold_left Rplus (map length_mm segments) 0.

(** Lines 320-330: one segment of the reversed list; the state is
    [positions] and [current_y]. *)
Definition position_step (st : list (string * R) * R) (seg : Segment)
  : list (string * R) * R :=
  let '(positions, current_y) := st in
  (dict_set positions (name seg) current_y, current_y + length_mm seg).

Definition get_segment_positions : list (string * R) :=
  fst (fold_left position_step (rev segments) ([], - total_length_mm / 2)).

End Helpers.

End Constants.

(** * Properties *)

(** ** The cylinder shell *)

Section CylinderFacts.
Import Cylinder.
Local Open Scope R_scope.

Lemma vertex_loop_closed (segments : Z) (radius h0 h1 : R) (l : list Z) :
  segments <> 0%Z ->
  forall p n u,
    for_each l (vertex_step segments radius h0 h1) (p, n, u)
    = Ok (p ++ flat_map (ring_positions segments radius h0 h1) l,
          n ++ flat_map (ring_normals segments) l,
          u ++ flat_map (ring_uvs segments) l).
Proof.
  intros Hs. induction l as [|i l IH]; intros p n u.
  - cbn. now rewrite !app_nil_r.
  - cbn [for_each]. unfold vertex_step at 1, true_div.
    destruct (Z.eqb_spec segments 0) as [E|_]; [contradiction|].
    cbn [bind]. rewrite IH. cbn [flat_map ring_positions ring_normals ring_uvs].
    unfold ring_angle. now rewrite <- !app_assoc.
Qed.

Lemma index_loop_closed (l : list Z) (acc : list Z) :
  fold_left index_step l acc = acc ++ flat_map quad_triangles l.
Proof.
  revert acc. induction l as [|i l IH]; intros acc; cbn [fold_left flat_map].
  - now rewrite app_nil_r.
  - rewrite IH. unfold index_step, quad_triangles.
    rewrite <- !app_assoc. reflexivity.
Qed.

Lemma triangle_indices_closed (segments : Z) :
  triangle_indices segments = flat_map quad_triangles (range segments).
Proof. unfold triangle_indices. now rewrite index_loop_closed. Qed.

Lemma create_cylinder_mesh_data_closed (segments : Z) (radius h0 h1 : R) :
  segments <> 0%Z ->
  create_cylinder_mesh_data segments radius h0 h1
  = Ok {| positions := flat_map (ring_positions segments radius h0 h1) (range (segments + 1));
          normals := flat_map (ring_normals segments) (range (segments + 1));
          uvs := flat_map (ring_uvs segments) (range (segments + 1));
          indices := map to_uint16 (flat_map quad_triangles (range segments)) |}.
Proof.
  intros Hs. unfold create_cylinder_mesh_data.
  rewrite vertex_loop_closed by assumption. cbn [bind app].
  now rewrite triangle_indices_closed.
Qed.

Lemma range_length (n : Z) : length (range n) = Z.to_nat n.
Proof. unfold range. now rewrite length_map, length_seq. Qed.

Lemma range_In (n k : Z) : In k (range n) <-> (0 <= k < n)%Z.
Proof.
  unfold range. rewrite in_map_iff. split.
  - intros (i & <- & Hi). apply in_seq in Hi. lia.
  - intros Hk. exists (Z.to_nat k). split; [lia|]. apply in_seq. lia.
Qed.

Lemma range_nth_error (n : Z) (i : nat) :
  (i < Z.to_nat n)%nat -> nth_error (range n) i = Some (Z.of_nat i).
Proof.
  intros Hi. unfold range. rewrite nth_error_map.
  rewrite (nth_error_nth' _ 0%nat) by now rewrite length_seq.
  now rewrite seq_nth.
Qed.

Lemma flat_map_length_const {A B : Type} (h : A -> list B) (c : nat) (l : list A) :
  (forall a, length (h a) = c) -> length (flat_map h l) = (c * length l)%nat.
Proof.
  intros Hc. induction l as [|a l IH]; cbn [flat_map length]; [lia|].
  rewrite length_app, Hc, IH. lia.
Qed.

Lemma flat_map_pair_nth_error {A B : Type} (h : A -> list B) (f g : A -> B) (l : list A) :
  (forall a, h a = [f a; g a]) ->
  forall i : nat,
    nth_error (flat_map h l) (2 * i) = option_map f (nth_error l i) /\
    nth_error (flat_map h l) (2 * i + 1) = option_map g (nth_error l i).
Proof.
  intros Hh. induction l as [|a l IH]; intros i.
  - cbn [flat_map]. rewrite !nth_error_nil. now destruct i.
  - cbn [flat_map]. rewrite Hh. destruct i as [|i].
    + now cbn.
    + replace (2 * S i)%nat with (S (S (2 * i))) by lia.
      replace (S (S (2 * i)) + 1)%nat with (S (S (2 * i + 1))) by lia.
      cbn [app nth_error]. apply IH.
Qed.

(** Ring [i] of the shell: entries [2i] and [2i+1] of a two-per-ring list. *)
Lemma ring_lookup {B : Type} (h : Z -> list B) (f g : Z -> B) (n i : Z) :
  (forall a, h a = [f a; g a]) ->
  (0 <= i <= n)%Z ->
  nth_error (flat_map h (range (n + 1))) (Z.to_nat (2 * i)) = Some (f i) /\
  nth_error (flat_map h (range (n + 1))) (Z.to_nat (2 * i + 1)) = Some (g i).
Proof.
  intros Hh Hi.
  destruct (flat_map_pair_nth_error h f g (range (n + 1)) Hh (Z.to_nat i)) as [E0 E1].
  replace (Z.to_nat (2 * i)) with (2 * Z.to_nat i)%nat by lia.
  replace (Z.to_nat (2 * i + 1)) with (2 * Z.to_nat i + 1)%nat by lia.
  rewrite E0, E1, range_nth_error by lia.
  cbn [option_map]. now rewrite Z2Nat.id by lia.
Qed.

(** The code on small inputs. *)

Example triangle_indices_two :
  triangle_indices 2 = [0; 1; 2; 1; 3; 2; 2; 3; 4; 3; 5; 4]%Z.
Proof. reflexivity. Qed.

Example to_uint16_wraps : to_uint16 65537 = 1%Z /\ to_uint16 65535 = 65535%Z.
Proof. split; reflexivity. Qed.

Example no_segments_raises (radius h0 h1 : R) :
  create_cylinder_mesh_data 0 radius h0 h1 = Raise ZeroDivisionError.
Proof. reflexivity. Qed.

Example negative_segments_empty (radius h0 h1 : R) :
  create_cylinder_mesh_data (-1) radius h0 h1
  = Ok {| positions := []; normals := []; uvs := []; indices := [] |}.
Proof. reflexivity. Qed.

Example one_segment_positions :
  option_map positions
    (match create_cylinder_mesh_data 1 2 0 1 with Ok m => Some m | Raise _ => None end)
  = Some [(cos (0 / 1 * 2 * PI) * 2, 0, sin (0 / 1 * 2 * PI) * 2);
          (cos (0 / 1 * 2 * PI) * 2, 1, sin (0 / 1 * 2 * PI) * 2);
          (cos (1 / 1 * 2 * PI) * 2, 0, sin (1 / 1 * 2 * PI) * 2);
          (cos (1 / 1 * 2 * PI) * 2, 1, sin (1 / 1 * 2 * PI) * 2)].
Proof. reflexivity. Qed.

Lemma quad_triangles_bounds (n i k : Z) :
  (0 <= i < n)%Z -> In k (quad_triangles i) -> (0 <= k < 2 * (n + 1))%Z.
Proof.
  intros Hi Hk. unfold quad_triangles in Hk. cbn [In] in Hk.
  repeat (destruct Hk as [<-|Hk]; [lia|]). contradiction.
Qed.

Lemma triangle_indices_bounds (n : Z) :
  Forall (fun k => (0 <= k < 2 * (n + 1))%Z) (triangle_indices n).
Proof.
  rewrite triangle_indices_closed. apply Forall_forall. intros k Hk.
  apply in_flat_map in Hk. destruct Hk as (i & Hi & Hk).
  apply range_In in Hi. eapply quad_triangles_bounds; eassumption.
Qed.

Lemma to_uint16_id (k : Z) : (0 <= k < 65536)%Z -> to_uint16 k = k.
Proof. intros Hk. unfold to_uint16. now apply Z.mod_small. Qed.

Lemma to_uint16_le (k : Z) : (0 <= k)%Z -> (0 <= to_uint16 k <= k)%Z.
Proof.
  intros Hk. unfold to_uint16. split.
  - apply Z.mod_pos_bound. lia.
  - apply Z.mod_le; lia.
Qed.



(** C10. For every segment count n >= 1 every emitted index lies below
    the vertex count 2(n+1), the largest being 2n+1; the stored 16-bit
    entries lie below it too, and when 2(n+1) <= 65536 the stored array
    is the emitted list, entry for entry. *)
Theorem C10_indices_valid (n : Z) (radius height_start height_end : R) :
  (1 <= n)%Z ->
  exists m,
    create_cylinder_mesh_data n radius height_start height_end = Ok m /\
    Z.of_nat (length (positions m)) = (2 * (n + 1))%Z /\
    Forall (fun k => (0 <= k < 2 * (n + 1))%Z) (triangle_indices n) /\
    In (2 * n + 1)%Z (triangle_indices n) /\
    Forall (fun k => (0 <= k < 2 * (n + 1))%Z) (indices m) /\
    ((2 * (n + 1) <= 65536)%Z -> indices m = triangle_indices n).
Proof.
  intros Hn. eexists. split; [apply create_cylinder_mesh_data_closed; lia|].
  cbn [positions indices].
  pose proof (triangle_indices_bounds n) as Hb.
  rewrite <- triangle_indices_closed.
  repeat split.
  - rewrite (flat_map_length_const (ring_positions _ _ _ _) 2) by reflexivity.
    rewrite range_length. lia.
  - exact Hb.
  - rewrite triangle_indices_closed. apply in_flat_map.
    exists (n - 1)%Z. split; [apply range_In; lia|].
    unfold quad_triangles. cbn [In]. right; right; right; right; left. lia.
  - apply Forall_map. eapply Forall_impl; [|exact Hb].
    cbn beta. intros k Hk. pose proof (to_uint16_le k). lia.
  - intros H16. rewrite <- (map_id (triangle_indices n)) at 2.
    apply map_ext_Forall. eapply Forall_impl; [|exact Hb].
    cbn beta. intros k Hk. apply to_uint16_id. lia.
Qed.

Lemma C10_indices_valid_witness :
  (1 <= 1)%Z /\
  exists m,
    create_cylinder_mesh_data 1 1 0 1 = Ok m /\
    Z.of_nat (length (positions m)) = (2 * (1 + 1))%Z /\
    Forall (fun k => (0 <= k < 2 * (1 + 1))%Z) (triangle_indices 1) /\
    In (2 * 1 + 1)%Z (triangle_indices 1) /\
    Forall (fun k => (0 <= k < 2 * (1 + 1))%Z) (indices m) /\
    ((2 * (1 + 1) <= 65536)%Z -> indices m = triangle_indices 1).
Proof. split; [lia | apply (C10_indices_valid 1 1 0 1); lia]. Defined.

Lemma ring_angle_first (n : Z) : ring_angle n 0 = 0.
Proof. unfold ring_angle, Rdiv. now rewrite !Rmult_0_l. Qed.

Lemma ring_angle_last (n : Z) : n <> 0%Z -> ring_angle n n = 2 * PI.
Proof.
  intros Hn. unfold ring_angle, Rdiv.
  rewrite Rinv_r by (apply not_0_IZR; exact Hn). now rewrite Rmult_1_l.
Qed.

Lemma ring_u_increasing (n i j : Z) :
  (0 < n)%Z -> (i < j)%Z -> IZR i / IZR n < IZR j / IZR n.
Proof.
  intros Hn Hij. unfold Rdiv. apply Rmult_lt_compat_r.
  - apply Rinv_0_lt_compat. now apply (IZR_lt 0 n).
  - now apply IZR_lt.
Qed.

(** C4. For n >= 3 both vertices of ring i carry u = i/n, for every i in
    [0, n]; u increases strictly from ring to ring, from 0 on the first
    ring to 1 on the last; and the last ring's two positions are the
    first ring's. *)
Theorem C4_ring_u_and_seam (n : Z) (radius height_start height_end : R) :
  (3 <= n)%Z ->
  exists m,
    create_cylinder_mesh_data n radius height_start height_end = Ok m /\
    (forall i, (0 <= i <= n)%Z ->
       nth_error (uvs m) (Z.to_nat (2 * i)) = Some (IZR i / IZR n, 0) /\
       nth_error (uvs m) (Z.to_nat (2 * i + 1)) = Some (IZR i / IZR n, 1)) /\
    (forall i j ui vi uj vj, (0 <= i)%Z -> (i < j)%Z -> (j <= n)%Z ->
       nth_error (uvs m) (Z.to_nat (2 * i)) = Some (ui, vi) ->
       nth_error (uvs m) (Z.to_nat (2 * j)) = Some (uj, vj) ->
       ui < uj) /\
    nth_error (uvs m) 0 = Some (0, 0) /\
    nth_error (uvs m) (Z.to_nat (2 * n)) = Some (1, 0) /\
    nth_error (positions m) 0 = Some (radius, height_start, 0) /\
    nth_error (positions m) 1 = Some (radius, height_end, 0) /\
    nth_error (positions m) (Z.to_nat (2 * n)) = nth_error (positions m) 0 /\
    nth_error (positions m) (Z.to_nat (2 * n + 1)) = nth_error (positions m) 1.
Proof.
  intros Hn. eexists. split; [apply create_cylinder_mesh_data_closed; lia|].
  cbn [positions uvs].
  assert (Hu : forall i, (0 <= i <= n)%Z ->
            nth_error (flat_map (ring_uvs n) (range (n + 1))) (Z.to_nat (2 * i))
              = Some (IZR i / IZR n, 0) /\
            nth_error (flat_map (ring_uvs n) (range (n + 1))) (Z.to_nat (2 * i + 1))
              = Some (IZR i / IZR n, 1)).
  { intros i Hi.
    apply (ring_lookup (ring_uvs n) (fun i => (IZR i / IZR n, 0))
                       (fun i => (IZR i / IZR n, 1)) n i); [reflexivity|exact Hi]. }
  assert (Hp : forall i, (0 <= i <= n)%Z ->
            nth_error (flat_map (ring_positions n radius height_start height_end)
                                (range (n + 1))) (Z.to_nat (2 * i))
              = Some (cos (ring_angle n i) * radius, height_start,
                      sin (ring_angle n i) * radius) /\
            nth_error (flat_map (ring_positions n radius height_start height_end)
                                (range (n + 1))) (Z.to_nat (2 * i + 1))
              = Some (cos (ring_angle n i) * radius, height_end,
                      sin (ring_angle n i) * radius)).
  { intros i Hi.
    apply (ring_lookup (ring_positions n radius height_start height_end)
             (fun i => (cos (ring_angle n i) * radius, height_start,
                        sin (ring_angle n i) * radius))
             (fun i => (cos (ring_angle n i) * radius, height_end,
                        sin (ring_angle n i) * radius)) n i); [reflexivity|exact Hi]. }
  assert (H0 : (0 <= 0 <= n)%Z) by lia.
  assert (Hl : (0 <= n <= n)%Z) by lia.
  destruct (Hp 0%Z H0) as [Pb0 Pt0]. destruct (Hp n Hl) as [Pbn Ptn].
  destruct (Hu 0%Z H0) as [Ub0 _]. destruct (Hu n Hl) as [Ubn _].
  change (Z.to_nat (2 * 0)) with 0%nat in *.
  change (Z.to_nat (2 * 0 + 1)) with 1%nat in *.
  rewrite ring_angle_first, cos_0, sin_0, Rmult_1_l, Rmult_0_l in Pb0, Pt0.
  rewrite ring_angle_last, cos_2PI, sin_2PI, Rmult_1_l, Rmult_0_l in Pbn, Ptn by lia.
  repeat split.
  - apply Hu; assumption.
  - apply Hu; assumption.
  - intros i j ui vi uj vj Hi Hij Hj Ei Ej.
    destruct (Hu i ltac:(lia)) as [Ei' _]. destruct (Hu j ltac:(lia)) as [Ej' _].
    rewrite Ei' in Ei. rewrite Ej' in Ej.
    injection Ei as <- _. injection Ej as <- _.
    apply ring_u_increasing; lia.
  - rewrite Ub0. unfold Rdiv. now rewrite Rmult_0_l.
  - rewrite Ubn. unfold Rdiv. rewrite Rinv_r; [reflexivity|].
    apply not_0_IZR. lia.
  - exact Pb0.
  - exact Pt0.
  - now rewrite Pbn, Pb0.
  - now rewrite Ptn, Pt0.
Qed.

Lemma C4_ring_u_and_seam_witness :
  (3 <= 4)%Z /\
  exists m,
    create_cylinder_mesh_data 4 2 0 1 = Ok m /\
    (forall i, (0 <= i <= 4)%Z ->
       nth_error (uvs m) (Z.to_nat (2 * i)) = Some (IZR i / IZR 4, 0) /\
       nth_error (uvs m) (Z.to_nat (2 * i + 1)) = Some (IZR i / IZR 4, 1)) /\
    (forall i j ui vi uj vj, (0 <= i)%Z -> (i < j)%Z -> (j <= 4)%Z ->
       nth_error (uvs m) (Z.to_nat (2 * i)) = Some (ui, vi) ->
       nth_error (uvs m) (Z.to_nat (2 * j)) = Some (uj, vj) ->
       ui < uj) /\
    nth_error (uvs m) 0 = Some (0, 0) /\
    nth_error (uvs m) (Z.to_nat (2 * 4)) = Some (1, 0) /\
    nth_error (positions m) 0 = Some (2, 0, 0) /\
    nth_error (positions m) 1 = Some (2, 1, 0) /\
    nth_error (positions m) (Z.to_nat (2 * 4)) = nth_error (positions m) 0 /\
    nth_error (positions m) (Z.to_nat (2 * 4 + 1)) = nth_error (positions m) 1.
Proof. split; [lia | apply (C4_ring_u_and_seam 4 2 0 1); lia]. Defined.

Lemma create_cylinder_mesh_data_zero (radius h0 h1 : R) :
  create_cylinder_mesh_data 0 radius h0 h1 = Raise ZeroDivisionError.
Proof. reflexivity. Qed.

Lemma create_cylinder_mesh_data_inv (n : Z) (radius h0 h1 : R) (m : MeshData) :
  create_cylinder_mesh_data n radius h0 h1 = Ok m ->
  n <> 0%Z /\
  m = {| positions := flat_map (ring_positions n radius h0 h1) (range (n + 1));
         normals := flat_map (ring_normals n) (range (n + 1));
         uvs := flat_map (ring_uvs n) (range (n + 1));
         indices := map to_uint16 (flat_map quad_triangles (range n)) |}.
Proof.
  intros H. destruct (Z.eq_dec n 0) as [->|Hn].
  - rewrite create_cylinder_mesh_data_zero in H. discriminate.
  - split; [exact Hn|].
    rewrite create_cylinder_mesh_data_closed in H by exact Hn. now injection H.
Qed.

Lemma unit_normal (a : R) : norm3 (cos a, 0, sin a) = 1.
Proof.
  unfold norm3.
  replace (cos a * cos a + 0 * 0 + sin a * sin a) with 1.
  - apply sqrt_1.
  - pose proof (sin2_cos2 a) as H. unfold Rsqr in H. lra.
Qed.

(** C8 (as amended). Whenever the generator returns, for every radius,
    both vertices of ring i carry the normal (cos a, 0, sin a) for the
    ring's angle a: its height component is 0 and its length is 1, and
    these are all the normals there are; and when the radius is positive
    the normal is a positive multiple of the vertex's offset (x, z) from
    the axis. *)
Theorem C8_normals_radial (n : Z) (radius height_start height_end : R) (m : MeshData) :
  create_cylinder_mesh_data n radius height_start height_end = Ok m ->
  length (normals m) = Z.to_nat (2 * (n + 1)) /\
  forall i, (0 <= i <= n)%Z ->
    exists x z,
      nth_error (positions m) (Z.to_nat (2 * i)) = Some (x, height_start, z) /\
      nth_error (positions m) (Z.to_nat (2 * i + 1)) = Some (x, height_end, z) /\
      nth_error (normals m) (Z.to_nat (2 * i))
        = Some (cos (ring_angle n i), 0, sin (ring_angle n i)) /\
      nth_error (normals m) (Z.to_nat (2 * i + 1))
        = Some (cos (ring_angle n i), 0, sin (ring_angle n i)) /\
      norm3 (cos (ring_angle n i), 0, sin (ring_angle n i)) = 1 /\
      (0 < radius ->
       exists k, 0 < k /\
         cos (ring_angle n i) = k * x /\ sin (ring_angle n i) = k * z).
Proof.
  intros Hm. apply create_cylinder_mesh_data_inv in Hm.
  destruct Hm as [Hn ->]. cbn [positions normals]. split.
  - rewrite (flat_map_length_const (ring_normals _) 2) by reflexivity.
    rewrite range_length. lia.
  - intros i Hi.
    exists (cos (ring_angle n i) * radius), (sin (ring_angle n i) * radius).
    destruct (ring_lookup (ring_positions n radius height_start height_end)
                (fun i => (cos (ring_angle n i) * radius, height_start,
                           sin (ring_angle n i) * radius))
                (fun i => (cos (ring_angle n i) * radius, height_end,
                           sin (ring_angle n i) * radius)) n i
                ltac:(reflexivity) Hi) as [Pb Pt].
    destruct (ring_lookup (ring_normals n)
                (fun i => (cos (ring_angle n i), 0, sin (ring_angle n i)))
                (fun i => (cos (ring_angle n i), 0, sin (ring_angle n i))) n i
                ltac:(reflexivity) Hi) as [Nb Nt].
    split; [exact Pb|]. split; [exact Pt|]. split; [exact Nb|]. split; [exact Nt|].
    split; [apply unit_normal|].
    intros Hr. exists (/ radius). split; [now apply Rinv_0_lt_compat|].
    split; field; lra.
Qed.

(** The generator run with radius 2, where the normal is also a positive
    multiple of the offset, and with radius -1, where the other facts
    about the normal still hold. *)
Lemma C8_normals_radial_witness :
  (exists m,
     create_cylinder_mesh_data 3 2 0 1 = Ok m /\
     length (normals m) = Z.to_nat (2 * (3 + 1)) /\
     forall i, (0 <= i <= 3)%Z ->
       exists x z,
         nth_error (positions m) (Z.to_nat (2 * i)) = Some (x, 0, z) /\
         nth_error (positions m) (Z.to_nat (2 * i + 1)) = Some (x, 1, z) /\
         nth_error (normals m) (Z.to_nat (2 * i))
           = Some (cos (ring_angle 3 i), 0, sin (ring_angle 3 i)) /\
         nth_error (normals m) (Z.to_nat (2 * i + 1))
           = Some (cos (ring_angle 3 i), 0, sin (ring_angle 3 i)) /\
         norm3 (cos (ring_angle 3 i), 0, sin (ring_angle 3 i)) = 1 /\
         exists k, 0 < k /\
           cos (ring_angle 3 i) = k * x /\ sin (ring_angle 3 i) = k * z) /\
  (exists m,
     create_cylinder_mesh_data 3 (-1) 0 1 = Ok m /\
     length (normals m) = Z.to_nat (2 * (3 + 1)) /\
     forall i, (0 <= i <= 3)%Z ->
       exists x z,
         nth_error (positions m) (Z.to_nat (2 * i)) = Some (x, 0, z) /\
         nth_error (positions m) (Z.to_nat (2 * i + 1)) = Some (x, 1, z) /\
         nth_error (normals m) (Z.to_nat (2 * i))
           = Some (cos (ring_angle 3 i), 0, sin (ring_angle 3 i)) /\
         nth_error (normals m) (Z.to_nat (2 * i + 1))
           = Some (cos (ring_angle 3 i), 0, sin (ring_angle 3 i)) /\
         norm3 (cos (ring_angle 3 i), 0, sin (ring_angle 3 i)) = 1).
Proof.
  split.
  - eexists. split; [reflexivity|].
    destruct (C8_normals_radial 3 2 0 1 _ eq_refl) as [Hlen Hall].
    split; [exact Hlen|]. intros i Hi.
    destruct (Hall i Hi) as (x & z & Pb & Pt & Nb & Nt & Hunit & Hout).
    exists x, z. repeat (split; [assumption|]). apply Hout. lra.
  - eexists. split; [reflexivity|].
    destruct (C8_normals_radial 3 (-1) 0 1 _ eq_refl) as [Hlen Hall].
    split; [exact Hlen|]. intros i Hi.
    destruct (Hall i Hi) as (x & z & Pb & Pt & Nb & Nt & Hunit & _).
    exists x, z. repeat (split; [assumption|]). exact Hunit.
Defined.

(** C8 needs the positive radius: with radius
    -1 the first vertex sits at x = -1 and its normal is (1, 0, 0), which
    is no positive multiple of the offset from the axis. *)
Lemma C8_counterexample_negative_radius :
  exists m,
    create_cylinder_mesh_data 3 (-1) 0 1 = Ok m /\
    exists nx ny nz x y z,
      nth_error (normals m) 0 = Some (nx, ny, nz) /\
      nth_error (positions m) 0 = Some (x, y, z) /\
      ~ (exists k, 0 < k /\ nx = k * x /\ nz = k * z).
Proof.
  eexists. split; [apply create_cylinder_mesh_data_closed; lia|].
  cbn [positions normals].
  exists (cos (ring_angle 3 0)), 0, (sin (ring_angle 3 0)).
  exists (cos (ring_angle 3 0) * -1), 0, (sin (ring_angle 3 0) * -1).
  split; [reflexivity|]. split; [reflexivity|].
  rewrite ring_angle_first, cos_0, sin_0.
  intros (k & Hk & Hx & _). lra.
Qed.

End CylinderFacts.

(** ** Appending the shell to a GLB *)

Section GltfFacts.
Import Cylinder Gltf.
Local Open Scope Z_scope.

Variable pack_f32 : R -> byte * byte * byte * byte.
Variable get_data_from_buffer_uri : string -> res (list byte).

Lemma len_app {A : Type} (l1 l2 : list A) : len (l1 ++ l2) = len l1 + len l2.
Proof. unfold len. rewrite length_app. lia. Qed.

Lemma len_nonneg {A : Type} (l : list A) : 0 <= len l.
Proof. unfold len. lia. Qed.

Lemma float32_bytes_length (x : R) : length (float32_bytes pack_f32 x) = 4%nat.
Proof. unfold float32_bytes. now destruct (pack_f32 x) as [[[b0 b1] b2] b3]. Qed.

Lemma vec3_tobytes_len (a : list vec3) : len (vec3_tobytes pack_f32 a) = 12 * len a.
Proof.
  unfold len, vec3_tobytes.
  rewrite (flat_map_length_const _ 12).
  - lia.
  - intros [[x y] z]. now rewrite !length_app, !float32_bytes_length.
Qed.

Lemma vec2_tobytes_len (a : list vec2) : len (vec2_tobytes pack_f32 a) = 8 * len a.
Proof.
  unfold len, vec2_tobytes.
  rewrite (flat_map_length_const _ 8).
  - lia.
  - intros [x y]. now rewrite !length_app, !float32_bytes_length.
Qed.

Lemma uint16_tobytes_len (a : list Z) : len (uint16_tobytes a) = 2 * len a.
Proof.
  unfold len, uint16_tobytes.
  rewrite (flat_map_length_const _ 2) by reflexivity. lia.
Qed.

Lemma pad_to_4_range (l : Z) : 0 <= pad_to_4 l < 4.
Proof. unfold pad_to_4. apply Z.mod_pos_bound. lia. Qed.

Lemma pad_to_4_aligns (l : Z) : (l + pad_to_4 l) mod 4 = 0.
Proof.
  unfold pad_to_4.
  pose proof (Z.mod_pos_bound l 4 ltac:(lia)) as Hb.
  rewrite (Z.div_mod l 4) at 1 by lia.
  destruct (Z.eq_dec (l mod 4) 0) as [E|E].
  - rewrite E. change ((4 - 0) mod 4) with 0.
    rewrite Z.add_0_r, Z.add_0_r, Z.mul_comm. apply Z.mod_mul. lia.
  - rewrite (Z.mod_small (4 - l mod 4)) by lia.
    replace (4 * (l / 4) + l mod 4 + (4 - l mod 4)) with ((l / 4 + 1) * 4) by lia.
    apply Z.mod_mul. lia.
Qed.

Example pad_to_4_values :
  map pad_to_4 [0; 1; 2; 3; 4; 6; 384; 792] = [0; 3; 2; 1; 0; 2; 0; 0].
Proof. reflexivity. Qed.

Example offsets_after_six_bytes :
  offsets 6 792 792 528 = (6, 798, 1590, 2118).
Proof. reflexivity. Qed.

Lemma zeros_len (k : Z) : 0 <= k -> len (zeros k) = k.
Proof. intros Hk. unfold len, zeros. rewrite repeat_length. lia. Qed.

Lemma len_snoc {A : Type} (l : list A) (a : A) : len (l ++ [a]) = len l + 1.
Proof. now rewrite len_app. Qed.

(** What [append_layer] returns, whenever it returns. *)
Lemma append_layer_shape (mesh : MeshData) (data : list byte) (g g' : GLTF2) :
  append_layer pack_f32 mesh data g = Ok g' ->
  exists b bs root ns s0 ss position_max position_min,
    buffers g = b :: bs /\ nodes g = root :: ns /\ scenes g = s0 :: ss /\
    max_axis0 (positions mesh) = Ok position_max /\
    min_axis0 (positions mesh) = Ok position_min /\
    buffers g' = {| uri := uri b;
                    buffer_byteLength := len (layer_bytes pack_f32 mesh data) |} :: bs /\
    bufferViews g' = bufferViews g ++ new_bufferViews pack_f32 mesh data /\
    accessors g' = accessors g
                     ++ new_accessors mesh (len (bufferViews g)) position_max position_min /\
    materials g' = materials g ++ [outside_material] /\
    meshes g' = meshes g ++ [layer_mesh (len (accessors g)) (len (materials g))] /\
    nodes g' = nodes g ++ [layer_node (len (meshes g)) root] /\
    scenes g' = {| scene_nodes := scene_nodes s0 ++ [len (nodes g)] |} :: ss /\
    glb_data g' = Some (layer_bytes pack_f32 mesh data).
Proof.
  intros H. unfold append_layer, offsets in H.
  destruct (buffers g) as [|b bs] eqn:Eb; [discriminate|].
  destruct (max_axis0 (positions mesh)) as [pmax|] eqn:Emax; [|discriminate].
  destruct (min_axis0 (positions mesh)) as [pmin|] eqn:Emin; [|discriminate].
  destruct (nodes g) as [|root ns] eqn:En; [discriminate|].
  destruct (scenes g) as [|s0 ss] eqn:Es; [discriminate|].
  cbn [bind item0 tl] in H. injection H as <-.
  exists b, bs, root, ns, s0, ss, pmax, pmin.
  cbn [buffers bufferViews accessors materials meshes nodes scenes glb_data].
  repeat split.
  - unfold new_bufferViews, offsets. now rewrite <- !app_assoc.
  - unfold new_accessors. rewrite !len_snoc, <- !app_assoc. cbn [app].
    now rewrite <- !Z.add_assoc.
  - now destruct (materials g).
  - unfold layer_mesh. rewrite !len_snoc, <- !Z.add_assoc.
    now destruct (materials g).
Qed.

Lemma create_configured :
  create_cylinder_mesh_data SEGMENTS RADIUS HEIGHT_START HEIGHT_END
  = Ok (shell SEGMENTS RADIUS HEIGHT_START HEIGHT_END).
Proof. apply create_cylinder_mesh_data_closed. discriminate. Qed.

Lemma main_inv (g g' : GLTF2) :
  main pack_f32 get_data_from_buffer_uri g = Ok g' ->
  exists existing_buffer existing_data,
    item0 (buffers g) = Ok existing_buffer /\
    existing_data_of get_data_from_buffer_uri g existing_buffer = Ok existing_data /\
    append_layer pack_f32 (shell SEGMENTS RADIUS HEIGHT_START HEIGHT_END) existing_data g
    = Ok g'.
Proof.
  unfold main. intros H.
  destruct (item0 (buffers g)) as [b|] eqn:Eb; [|discriminate].
  cbn [bind] in H.
  destruct (existing_data_of get_data_from_buffer_uri g b) as [data|] eqn:Ed;
    [|discriminate].
  cbn [bind] in H. rewrite create_configured in H. cbn [bind] in H.
  now exists b, data.
Qed.

Lemma shell_positions_nonempty (n : Z) (radius h0 h1 : R) :
  (0 <= n)%Z -> exists p ps, positions (shell n radius h0 h1) = p :: ps.
Proof.
  intros Hn. cbn [shell positions]. unfold range.
  replace (Z.to_nat (n + 1)) with (S (Z.to_nat n)) by lia.
  cbn [seq map flat_map ring_positions app]. eauto.
Qed.

(** [main] returns on every model with a first buffer whose bytes can
    be read, a first node and a first scene. *)
Lemma main_total (g : GLTF2) (b : Buffer) (data : list byte) :
  item0 (buffers g) = Ok b ->
  existing_data_of get_data_from_buffer_uri g b = Ok data ->
  nodes g <> [] -> scenes g <> [] ->
  exists g', main pack_f32 get_data_from_buffer_uri g = Ok g'.
Proof.
  intros Hb Hd Hn Hs. unfold main. rewrite Hb. cbn [bind]. rewrite Hd. cbn [bind].
  rewrite create_configured. cbn [bind]. unfold append_layer, offsets.
  rewrite Hb. cbn [bind].
  destruct (shell_positions_nonempty SEGMENTS RADIUS HEIGHT_START HEIGHT_END)
    as (p & ps & ->); [discriminate|].
  cbn [max_axis0 min_axis0 bind].
  destruct (nodes g) as [|root ns]; [contradiction|].
  destruct (scenes g) as [|s0 ss]; [contradiction|].
  cbn [item0 bind]. eauto.
Qed.

Lemma build_buffer_prefix (existing pb nb ub ib : list byte) :
  exists appended, build_buffer existing pb nb ub ib = existing ++ appended.
Proof. unfold build_buffer. rewrite <- !app_assoc. eauto. Qed.

Lemma firstn_prefix {A : Type} (l1 l2 : list A) : firstn (length l1) (l1 ++ l2) = l1.
Proof. rewrite firstn_app, firstn_all, Nat.sub_diag, firstn_O. apply app_nil_r. Qed.

(** C3. Whenever [main] returns, each collection of the saved model is
    the loaded collection followed by the new entries, so every new entry
    sits at the index that was the collection's length when it was added
    and every old entry keeps its index; the new entries refer to one
    another by those indices; the buffer starts with the existing bytes;
    and the first scene's node list gains the one new node, which
    references the new mesh and carries the scale of the node at index 0,
    or [1, 1, 1] when that node has none. *)
Theorem C3_append_only (g g' : GLTF2) :
  main pack_f32 get_data_from_buffer_uri g = Ok g' ->
  exists mesh existing_buffer existing_data root s0 position_max position_min appended,
    create_cylinder_mesh_data SEGMENTS RADIUS HEIGHT_START HEIGHT_END = Ok mesh /\
    item0 (buffers g) = Ok existing_buffer /\
    existing_data_of get_data_from_buffer_uri g existing_buffer = Ok existing_data /\
    item0 (nodes g) = Ok root /\
    item0 (scenes g) = Ok s0 /\
    bufferViews g' = bufferViews g ++ new_bufferViews pack_f32 mesh existing_data /\
    accessors g' =
      accessors g ++ new_accessors mesh (len (bufferViews g)) position_max position_min /\
    materials g' = materials g ++ [outside_material] /\
    meshes g' = meshes g ++ [layer_mesh (len (accessors g)) (len (materials g))] /\
    nodes g' = nodes g ++ [layer_node (len (meshes g)) root] /\
    scenes g' = {| scene_nodes := scene_nodes s0 ++ [len (nodes g)] |} :: tl (scenes g) /\
    glb_data g' = Some (existing_data ++ appended) /\
    firstn (length existing_data) (existing_data ++ appended) = existing_data /\
    nth_error (nodes g') (length (nodes g)) = Some (layer_node (len (meshes g)) root) /\
    node_mesh (layer_node (len (meshes g)) root) = Some (len (meshes g)) /\
    nth_error (meshes g') (length (meshes g))
      = Some (layer_mesh (len (accessors g)) (len (materials g))) /\
    (scale root = None ->
       scale (layer_node (len (meshes g)) root) = Some [1; 1; 1]%R) /\
    (forall c s, scale root = Some (c :: s) ->
       scale (layer_node (len (meshes g)) root) = Some (c :: s)).
Proof.
  intros H. apply main_inv in H. destruct H as (b & data & Hb & Hd & H).
  apply append_layer_shape in H.
  destruct H as (b' & bs & root & ns & s0 & ss & pmax & pmin & Eb & En & Es
                 & Emax & Emin & Hbuf & Hbv & Hacc & Hmat & Hmesh & Hnode & Hscene & Hdata).
  destruct (build_buffer_prefix data
              (vec3_tobytes pack_f32 (positions (shell SEGMENTS RADIUS HEIGHT_START HEIGHT_END)))
              (vec3_tobytes pack_f32 (normals (shell SEGMENTS RADIUS HEIGHT_START HEIGHT_END)))
              (vec2_tobytes pack_f32 (uvs (shell SEGMENTS RADIUS HEIGHT_START HEIGHT_END)))
              (uint16_tobytes (indices (shell SEGMENTS RADIUS HEIGHT_START HEIGHT_END))))
    as [appended Happ].
  exists (shell SEGMENTS RADIUS HEIGHT_START HEIGHT_END), b, data, root, s0, pmax, pmin, appended.
  split; [apply create_configured|].
  split; [exact Hb|]. split; [exact Hd|].
  split; [now rewrite En|]. split; [now rewrite Es|].
  split; [exact Hbv|]. split; [exact Hacc|]. split; [exact Hmat|].
  split; [exact Hmesh|]. split; [exact Hnode|].
  split; [now rewrite Hscene, Es|].
  split; [rewrite Hdata; unfold layer_bytes; now rewrite Happ|].
  split; [apply firstn_prefix|].
  split; [rewrite Hnode, nth_error_app2, Nat.sub_diag by lia; reflexivity|].
  split; [reflexivity|].
  split; [rewrite Hmesh, nth_error_app2, Nat.sub_diag by lia; reflexivity|].
  split.
  - intros E. cbn [layer_node scale]. unfold inherited_scale. now rewrite E.
  - intros c s E. cbn [layer_node scale]. unfold inherited_scale. now rewrite E.
Qed.

(** *** Layout of the appended bytes *)

Lemma offsets_follow_start (start pl nl ul : Z) :
  forall po no uo io, offsets start pl nl ul = (po, no, uo, io) ->
    po = start /\
    (no - start) mod 4 = 0 /\ (uo - start) mod 4 = 0 /\ (io - start) mod 4 = 0.
Proof.
  intros po no uo io E. unfold offsets in E. injection E as <- <- <- <-.
  pose proof (pad_to_4_aligns pl) as Hp.
  pose proof (pad_to_4_aligns nl) as Hn.
  pose proof (pad_to_4_aligns ul) as Hu.
  apply Z.mod_divide in Hp, Hn, Hu; try lia.
  destruct Hp as [a Ha], Hn as [b Hb], Hu as [c Hc].
  split; [reflexivity|]. repeat split; apply Z.mod_divide; try lia.
  - exists a. lia.
  - exists (a + b). lia.
  - exists (a + b + c). lia.
Qed.

Lemma build_buffer_len (existing pb nb ub ib : list byte) :
  len (build_buffer existing pb nb ub ib)
  = len existing + (len pb + pad_to_4 (len pb)) + (len nb + pad_to_4 (len nb))
    + (len ub + pad_to_4 (len ub)) + (len ib + pad_to_4 (len ib)).
Proof.
  unfold build_buffer. rewrite !len_app.
  rewrite !zeros_len by apply pad_to_4_range. lia.
Qed.

(** *** Column maxima and minima *)



Lemma fold_Rmax_is_maximum (l : list R) (x : R) :
  is_maximum (fold_left Rmax l x) (x :: l).
Proof.
  revert x. induction l as [|a l IH]; intros x; cbn [fold_left].
  - split; [now left|]. constructor; [apply Rle_refl|constructor].
  - destruct (IH (Rmax x a)) as [Hin Hall]. split.
    + destruct Hin as [E|Hin].
      * rewrite <- E. apply Rmax_case; [now left | right; now left].
      * right; now right.
    + inversion Hall as [|? ? Hm Hl]; subst.
      constructor; [|constructor; [|exact Hl]].
      * eapply Rle_trans; [|exact Hm]. apply Rmax_Rle. left. apply Rle_refl.
      * eapply Rle_trans; [|exact Hm]. apply Rmax_Rle. right. apply Rle_refl.
Qed.

Lemma fold_Rmin_is_minimum (l : list R) (x : R) :
  is_minimum (fold_left Rmin l x) (x :: l).
Proof.
  revert x. induction l as [|a l IH]; intros x; cbn [fold_left].
  - split; [now left|]. constructor; [apply Rle_refl|constructor].
  - destruct (IH (Rmin x a)) as [Hin Hall]. split.
    + destruct Hin as [E|Hin].
      * rewrite <- E. apply Rmin_case; [now left | right; now left].
      * right; now right.
    + inversion Hall as [|? ? Hm Hl]; subst.
      constructor; [|constructor; [|exact Hl]].
      * eapply Rle_trans; [exact Hm|]. apply Rmin_l.
      * eapply Rle_trans; [exact Hm|]. apply Rmin_r.
Qed.





(** *** The configured shell's bounding box *)

Lemma shell_position_In (n : Z) (radius h0 h1 : R) (v : vec3) :
  In v (positions (shell n radius h0 h1)) <->
  exists i, 0 <= i <= n /\
    (v = (cos (ring_angle n i) * radius, h0, sin (ring_angle n i) * radius)%R \/
     v = (cos (ring_angle n i) * radius, h1, sin (ring_angle n i) * radius)%R).
Proof.
  cbn [shell positions]. rewrite in_flat_map. split.
  - intros (i & Hi & Hv). apply range_In in Hi. exists i. split; [lia|].
    cbn [ring_positions In] in Hv. destruct Hv as [<-|[<-|[]]]; auto.
  - intros (i & Hi & Hv). exists i. split; [apply range_In; lia|].
    cbn [ring_positions In]. destruct Hv as [->| ->]; auto.
Qed.






Lemma shell_lens (n : Z) (radius h0 h1 : R) :
  0 <= n ->
  len (positions (shell n radius h0 h1)) = 2 * (n + 1) /\
  len (normals (shell n radius h0 h1)) = 2 * (n + 1) /\
  len (uvs (shell n radius h0 h1)) = 2 * (n + 1) /\
  len (indices (shell n radius h0 h1)) = 6 * n.
Proof.
  intros Hn. unfold len. cbn [shell positions normals uvs indices].
  rewrite length_map.
  rewrite (flat_map_length_const (ring_positions _ _ _ _) 2) by reflexivity.
  rewrite (flat_map_length_const (ring_normals _) 2) by reflexivity.
  rewrite (flat_map_length_const (ring_uvs _) 2) by reflexivity.
  rewrite (flat_map_length_const quad_triangles 6) by reflexivity.
  rewrite !range_length. repeat split; lia.
Qed.

(** The layout of the appended bytes, for any geometry: the new buffer
    is as long as the existing data and each array with its padding; every
    new view starts a multiple of 4 bytes after the existing data, hence
    at a multiple of 4 when the existing data's length is one. *)
Theorem append_layer_layout (mesh : MeshData) (existing_data : list byte) (g g' : GLTF2) :
  append_layer pack_f32 mesh existing_data g = Ok g' ->
  exists d,
    glb_data g' = Some d /\
    bufferViews g' = bufferViews g ++ new_bufferViews pack_f32 mesh existing_data /\
    len d = len existing_data
            + (12 * len (positions mesh) + pad_to_4 (12 * len (positions mesh)))
            + (12 * len (normals mesh) + pad_to_4 (12 * len (normals mesh)))
            + (8 * len (uvs mesh) + pad_to_4 (8 * len (uvs mesh)))
            + (2 * len (indices mesh) + pad_to_4 (2 * len (indices mesh))) /\
    Forall (fun view => (byteOffset view - len existing_data) mod 4 = 0)
           (new_bufferViews pack_f32 mesh existing_data) /\
    (len existing_data mod 4 = 0 ->
       Forall (fun view => byteOffset view mod 4 = 0)
              (new_bufferViews pack_f32 mesh existing_data) /\
       len d mod 4 = 0).
Proof.
  intros H. apply append_layer_shape in H.
  destruct H as (_ & _ & _ & _ & _ & _ & _ & _ & _ & _ & _ & _ & _ & _ & Hbv & _
                 & _ & _ & _ & _ & Hdata).
  eexists. split; [exact Hdata|]. split; [exact Hbv|].
  assert (Hlen : len (layer_bytes pack_f32 mesh existing_data)
                 = len existing_data
            + (12 * len (positions mesh) + pad_to_4 (12 * len (positions mesh)))
            + (12 * len (normals mesh) + pad_to_4 (12 * len (normals mesh)))
            + (8 * len (uvs mesh) + pad_to_4 (8 * len (uvs mesh)))
            + (2 * len (indices mesh) + pad_to_4 (2 * len (indices mesh)))).
  { unfold layer_bytes. rewrite build_buffer_len.
    now rewrite !vec3_tobytes_len, vec2_tobytes_len, uint16_tobytes_len. }
  assert (Hrel : Forall (fun view => (byteOffset view - len existing_data) mod 4 = 0)
                        (new_bufferViews pack_f32 mesh existing_data)).
  { unfold new_bufferViews.
    destruct (offsets (len existing_data) (len (vec3_tobytes pack_f32 (positions mesh)))
                (len (vec3_tobytes pack_f32 (normals mesh)))
                (len (vec2_tobytes pack_f32 (uvs mesh)))) as [[[po no] uo] io] eqn:E.
    destruct (offsets_follow_start _ _ _ _ _ _ _ _ E) as (-> & Hn & Hu & Hi).
    repeat constructor; cbn [byteOffset]; try assumption.
    now rewrite Z.sub_diag. }
  split; [exact Hlen|]. split; [exact Hrel|].
  intros Ha. split.
  - eapply Forall_impl; [|exact Hrel]. cbn beta. intros view Hv.
    apply Z.mod_divide in Hv, Ha; try lia. apply Z.mod_divide; [lia|].
    destruct Hv as [a Hv], Ha as [b Ha]. exists (a + b). lia.
  - rewrite Hlen.
    pose proof (pad_to_4_aligns (12 * len (positions mesh))) as H1.
    pose proof (pad_to_4_aligns (12 * len (normals mesh))) as H2.
    pose proof (pad_to_4_aligns (8 * len (uvs mesh))) as H3.
    pose proof (pad_to_4_aligns (2 * len (indices mesh))) as H4.
    apply Z.mod_divide in Ha, H1, H2, H3, H4; try lia.
    apply Z.mod_divide; [lia|].
    destruct Ha as [a Ha], H1 as [b H1], H2 as [c H2], H3 as [d H3], H4 as [e H4].
    exists (a + b + c + d + e). lia.
Qed.

End GltfFacts.

Section GltfExamples.
Import Cylinder Gltf.
Local Open Scope Z_scope.

Lemma small_glb_returns : exists g', main zero_pack no_uri small_glb = Ok g'.
Proof.
  apply (main_total zero_pack no_uri small_glb
           {| uri := None; buffer_byteLength := 4 |} [x00; x00; x01; x00]);
    [reflexivity | reflexivity | discriminate | discriminate].
Qed.

Lemma C3_append_only_witness :
  exists g',
  main zero_pack no_uri small_glb = Ok g' /\
  exists mesh existing_buffer existing_data root s0 position_max position_min appended,
    create_cylinder_mesh_data SEGMENTS RADIUS HEIGHT_START HEIGHT_END = Ok mesh /\
    item0 (buffers small_glb) = Ok existing_buffer /\
    existing_data_of no_uri small_glb existing_buffer = Ok existing_data /\
    item0 (nodes small_glb) = Ok root /\
    item0 (scenes small_glb) = Ok s0 /\
    bufferViews g' = bufferViews small_glb ++ new_bufferViews zero_pack mesh existing_data /\
    accessors g' =
      accessors small_glb ++ new_accessors mesh (len (bufferViews small_glb)) position_max position_min /\
    materials g' = materials small_glb ++ [outside_material] /\
    meshes g' = meshes small_glb ++ [layer_mesh (len (accessors small_glb)) (len (materials small_glb))] /\
    nodes g' = nodes small_glb ++ [layer_node (len (meshes small_glb)) root] /\
    scenes g' = {| scene_nodes := scene_nodes s0 ++ [len (nodes small_glb)] |} :: tl (scenes small_glb) /\
    glb_data g' = Some (existing_data ++ appended) /\
    firstn (length existing_data) (existing_data ++ appended) = existing_data /\
    nth_error (nodes g') (length (nodes small_glb)) = Some (layer_node (len (meshes small_glb)) root) /\
    node_mesh (layer_node (len (meshes small_glb)) root) = Some (len (meshes small_glb)) /\
    nth_error (meshes g') (length (meshes small_glb))
      = Some (layer_mesh (len (accessors small_glb)) (len (materials small_glb))) /\
    (scale root = None ->
       scale (layer_node (len (meshes small_glb)) root) = Some [1; 1; 1]%R) /\
    (forall c s, scale root = Some (c :: s) ->
       scale (layer_node (len (meshes small_glb)) root) = Some (c :: s)).
Proof.
  destruct small_glb_returns as [g' H].
  exists g'. split; [exact H|].
  exact (C3_append_only zero_pack no_uri small_glb g' H).
Defined.


(** C2 where the existing data's length is no multiple of 4: the model's
    first buffer holds six bytes, and the four new buffer views start at
    6, 798, 1590 and 2118, each two bytes past a multiple of 4; the new
    buffer is 2502 bytes long. *)
Theorem C2_offsets_after_unaligned_data :
  exists g',
    main zero_pack six_bytes uri_model = Ok g' /\
    map byteOffset (bufferViews g') = [0; 6; 798; 1590; 2118] /\
    Forall (fun o => o mod 4 = 2) [6; 798; 1590; 2118] /\
    exists d, glb_data g' = Some d /\ len d = 2502.
Proof.
  destruct (main_total zero_pack six_bytes uri_model
              {| uri := Some "indices.bin"%string; buffer_byteLength := 6 |}
              [x00; x00; x01; x00; x02; x00]) as [g' H];
    [reflexivity | reflexivity | discriminate | discriminate |].
  exists g'. split; [exact H|].
  apply main_inv in H. destruct H as (b & data & Hb & Hd & H).
  cbn in Hb. injection Hb as <-. cbn in Hd. injection Hd as <-.
  apply append_layer_shape in H.
  destruct H as (_ & _ & _ & _ & _ & _ & _ & _ & _ & _ & _ & _ & _ & _ & Hbv & _
                 & _ & _ & _ & _ & Hdata).
  destruct (shell_lens SEGMENTS RADIUS HEIGHT_START HEIGHT_END) as (Lp & Ln & Lu & Li);
    [discriminate|].
  split; [|split].
  - rewrite Hbv. unfold new_bufferViews.
    rewrite !vec3_tobytes_len, vec2_tobytes_len, Lp, Ln, Lu. reflexivity.
  - repeat constructor.
  - eexists. split; [exact Hdata|].
    unfold layer_bytes. rewrite build_buffer_len.
    rewrite !vec3_tobytes_len, vec2_tobytes_len, uint16_tobytes_len, Lp, Ln, Lu, Li.
    reflexivity.
Qed.

Lemma append_layer_layout_witness :
  exists g',
  append_layer zero_pack (shell 3 1 0 1) [x00; x00; x01; x00] small_glb = Ok g' /\
  exists d,
    glb_data g' = Some d /\
    bufferViews g' = bufferViews small_glb ++ new_bufferViews zero_pack (shell 3 1 0 1) [x00; x00; x01; x00] /\
    len d = len [x00; x00; x01; x00]
            + (12 * len (positions (shell 3 1 0 1)) + pad_to_4 (12 * len (positions (shell 3 1 0 1))))
            + (12 * len (normals (shell 3 1 0 1)) + pad_to_4 (12 * len (normals (shell 3 1 0 1))))
            + (8 * len (uvs (shell 3 1 0 1)) + pad_to_4 (8 * len (uvs (shell 3 1 0 1))))
            + (2 * len (indices (shell 3 1 0 1)) + pad_to_4 (2 * len (indices (shell 3 1 0 1)))) /\
    Forall (fun view => (byteOffset view - len [x00; x00; x01; x00]) mod 4 = 0)
           (new_bufferViews zero_pack (shell 3 1 0 1) [x00; x00; x01; x00]) /\
    (len [x00; x00; x01; x00] mod 4 = 0 ->
       Forall (fun view => byteOffset view mod 4 = 0)
              (new_bufferViews zero_pack (shell 3 1 0 1) [x00; x00; x01; x00]) /\
       len d mod 4 = 0).
Proof.
  eexists. split; [reflexivity|].
  apply (append_layer_layout zero_pack (shell 3 1 0 1) [x00; x00; x01; x00] small_glb).
  reflexivity.
Defined.

End GltfExamples.

(** ** The UV inspection utility *)

Section CheckUvFacts.
Import CheckUv.

Variable fmt4 : R -> string.
Variable fmt2 : R -> string.
Variable str : Z -> string.
Variable int : R -> Z.
Variable round : R -> Z.

Lemma first_mesh_is_mesh (l : list Object) (k i : nat) (o : Object) :
  first_mesh k l = Some (i, o) -> is_mesh o = true.
Proof.
  revert k. induction l as [|a l IH]; intros k; cbn [first_mesh]; [discriminate|].
  destruct (is_mesh a) eqn:E.
  - intros H. injection H as _ <-. exact E.
  - apply IH.
Qed.

Lemma no_mesh_result (ctx : Context) :
  no_mesh_found ctx ->
  exists ctx',
    get_uv_pixel_dimensions fmt4 fmt2 str int round ctx
    = Ok (["ERROR: No mesh object found!"; "Please import cue.glb first."]%string, ctx').
Proof.
  unfold no_mesh_found, inspected, get_uv_pixel_dimensions.
  destruct (active_object ctx) as [[i o]|].
  - intros ->. cbn [negb]. eauto.
  - destruct (first_mesh 0 (objects ctx)) as [[i o]|] eqn:E; cbn [option_map snd].
    + intros H. rewrite (first_mesh_is_mesh _ _ _ _ E) in H. discriminate.
    + eauto.
Qed.

Lemma no_uv_layer_result (ctx : Context) :
  no_uv_layer ctx ->
  exists ctx',
    get_uv_pixel_dimensions fmt4 fmt2 str int round ctx
    = Ok (["ERROR: Mesh has no UV layers!"]%string, ctx').
Proof.
  unfold no_uv_layer, inspected, get_uv_pixel_dimensions.
  destruct (active_object ctx) as [[i o]|].
  - intros [-> ->]. cbn [negb]. eauto.
  - destruct (first_mesh 0 (objects ctx)) as [[i o]|]; cbn [option_map snd].
    + intros [-> ->]. cbn [negb]. eauto.
    + contradiction.
Qed.

(** C9 (as amended). When no mesh object is found, or the mesh has no UV
    layer, the utility returns (it does not raise) one of its two error
    lists, and the first entry of the list begins with "ERROR:". *)
Theorem C9_error_lists (ctx : Context) :
  no_mesh_found ctx \/ no_uv_layer ctx ->
  exists lines ctx',
    get_uv_pixel_dimensions fmt4 fmt2 str int round ctx = Ok (lines, ctx') /\
    (no_mesh_found ctx ->
       lines = ["ERROR: No mesh object found!"; "Please import cue.glb first."]%string) /\
    (no_uv_layer ctx -> lines = ["ERROR: Mesh has no UV layers!"]%string) /\
    exists first rest, lines = first :: rest /\ is_error_line first = true.
Proof.
  assert (Hex : no_mesh_found ctx -> no_uv_layer ctx -> False).
  { unfold no_mesh_found, no_uv_layer. destruct (inspected ctx); [|tauto].
    intros -> [H _]. discriminate. }
  intros [H|H].
  - destruct (no_mesh_result ctx H) as [ctx' E].
    eexists _, ctx'. split; [exact E|].
    split; [reflexivity|]. split; [intros H'; destruct (Hex H H')|].
    eexists _, _. split; reflexivity.
  - destruct (no_uv_layer_result ctx H) as [ctx' E].
    eexists _, ctx'. split; [exact E|].
    split; [intros H'; destruct (Hex H' H)|]. split; [reflexivity|].
    eexists _, _. split; reflexivity.
Qed.

End CheckUvFacts.

Section CheckUvExamples.
Import CheckUv.

Lemma C9_error_lists_witness :
  (no_mesh_found bare_mesh_scene \/ no_uv_layer bare_mesh_scene) /\
  exists lines ctx',
    get_uv_pixel_dimensions no_fmt no_fmt no_str no_int no_int bare_mesh_scene
    = Ok (lines, ctx') /\
    (no_mesh_found bare_mesh_scene ->
       lines = ["ERROR: No mesh object found!"; "Please import cue.glb first."]%string) /\
    (no_uv_layer bare_mesh_scene -> lines = ["ERROR: Mesh has no UV layers!"]%string) /\
    exists first rest, lines = first :: rest /\ is_error_line first = true.
Proof.
  assert (H : no_mesh_found bare_mesh_scene \/ no_uv_layer bare_mesh_scene).
  { right. split; reflexivity. }
  split; [exact H|].
  exact (C9_error_lists no_fmt no_fmt no_str no_int no_int bare_mesh_scene H).
Defined.

(** C9 cannot speak of every entry: on a scene without objects the list
    returned has a second entry, the hint to import the model, which does
    not begin with "ERROR:". *)
Lemma C9_counterexample_hint_line :
  no_mesh_found empty_scene /\
  exists lines ctx',
    get_uv_pixel_dimensions no_fmt no_fmt no_str no_int no_int empty_scene
    = Ok (lines, ctx') /\
    ~ Forall (fun line => is_error_line line = true) lines.
Proof.
  split; [exact I|].
  eexists _, _. split; [reflexivity|].
  intros H. inversion H as [|? ? _ H']; subst.
  inversion H' as [|? ? E _]; subst. discriminate E.
Qed.

End CheckUvExamples.

(** ** Tapered sections *)

Section TaperFacts.
Local Open Scope R_scope.

Lemma Forall2_map_self {A B : Type} (P : A -> B -> Prop) (f : A -> B) (l : list A) :
  Forall (fun a => P a (f a)) l -> Forall2 P l (map f l).
Proof. induction 1; cbn [map]; constructor; assumption. Qed.

Lemma clamp01_range (t : R) : 0 <= clamp01 t <= 1.
Proof.
  unfold clamp01. split.
  - apply Rmax_Rle. left. apply Rle_refl.
  - apply Rmax_lub; [lra | apply Rmin_l].
Qed.

Lemma clamp01_decimal (t : R) : Rmax 0.0 (Rmin 1.0 t) = clamp01 t.
Proof.
  unfold clamp01. replace 0.0 with 0 by lra. replace 1.0 with 1 by lra. reflexivity.
Qed.

(** A point at distance [d > 0] from the axis, scaled by [r / d], lies on
    the circle of radius [r]. *)
Lemma scaled_on_circle (x y z r d : R) :
  d = sqrt (x ^ 2 + y ^ 2) -> 0 < d ->
  on_circle r (x * (r / d), y * (r / d), z).
Proof.
  intros Hd Hpos.
  assert (Hsq : d * d = x * x + y * y).
  { rewrite Hd. rewrite sqrt_sqrt; [ring|]. nra. }
  unfold on_circle. cbn [px py fst snd].
  replace (x * (r / d) * (x * (r / d)) + y * (r / d) * (y * (r / d)))
    with ((x * x + y * y) * (r * r) / (d * d)) by (field; lra).
  rewrite <- Hsq. field. lra.
Qed.

Lemma unit_circle_dist (x y z : R) : on_circle 1 (x, y, z) -> sqrt (x ^ 2 + y ^ 2) = 1.
Proof.
  unfold on_circle. cbn [px py fst snd]. intros H.
  replace (x ^ 2 + y ^ 2) with 1 by (rewrite <- (Rmult_1_l 1) at 1; rewrite <- H; ring).
  apply sqrt_1.
Qed.

(** generate_cue.py, one vertex beyond the threshold. *)
Lemma taper_vertex_on_circle (length radius_top radius_bottom : R) (v : vec3) :
  0.0001 < sqrt (px v ^ 2 + py v ^ 2) ->
  let t := clamp01 (if Rlt_dec 0 length then (pz v - - length / 2) / length else 0.5) in
  on_circle (lerp radius_bottom radius_top t)
            (GenerateCue.taper_vertex length radius_top radius_bottom v) /\
  pz (GenerateCue.taper_vertex length radius_top radius_bottom v) = pz v.
Proof.
  destruct v as [[x y] z]. cbn [px py pz fst snd]. intros Hd. cbv zeta.
  unfold GenerateCue.taper_vertex. rewrite clamp01_decimal.
  destruct (Rlt_dec 0.0001 (sqrt (x ^ 2 + y ^ 2))) as [_|N]; [|contradiction].
  split; [|reflexivity].
  apply scaled_on_circle; [reflexivity | lra].
Qed.

(** create_cue_export.py, one vertex beyond the threshold. *)
Lemma section_vertex_on_circle (length r_start r_end z_start : R) (v : vec3) :
  0.001 < sqrt (px v ^ 2 + py v ^ 2) ->
  let t := clamp01 (if Rlt_dec 0 length then (pz v - z_start) / length else 0) in
  on_circle (lerp r_start r_end t)
            (CreateCueExport.section_vertex length r_start r_end z_start v) /\
  pz (CreateCueExport.section_vertex length r_start r_end z_start v) = pz v.
Proof.
  destruct v as [[x y] z]. cbn [px py pz fst snd]. intros Hd. cbv zeta.
  unfold CreateCueExport.section_vertex. fold (clamp01 (if Rlt_dec 0 length
    then (z - z_start) / length else 0)).
  destruct (Rlt_dec 0.001 (sqrt (x ^ 2 + y ^ 2))) as [_|N]; [|contradiction].
  split; [|reflexivity].
  apply scaled_on_circle; [reflexivity | lra].
Qed.

(** create_cue.py, one vertex of the radius-[r_start] primitive. *)
Lemma scale_top_on_circle (length r_start r_end : R) (v v' : vec3) :
  primitive_vertex r_start length v ->
  CreateCue.scale_top r_start r_end v = Ok v' ->
  exists t, (t = 0 \/ t = 1) /\
    (0 < length -> t = (pz v - - length / 2) / length) /\
    on_circle (lerp r_start r_end t) v' /\ pz v' = pz v.
Proof.
  destruct v as [[x y] z]. unfold primitive_vertex, on_circle.
  cbn [px py pz fst snd]. intros [Hc Hz] H.
  unfold CreateCue.scale_top, float_div in H.
  destruct (Rlt_dec 0 z) as [Hpos|Hneg].
  - destruct (Req_dec_T r_start 0) as [E|Hr]; [discriminate|].
    cbn [bind] in H. injection H as <-. exists 1. split; [now right|].
    cbn [px py pz fst snd]. split; [|split; [|reflexivity]].
    + intros Hl. destruct Hz as [-> | ->]; [lra | field; lra].
    + unfold lerp.
      replace (x * (r_end / r_start) * (x * (r_end / r_start))
               + y * (r_end / r_start) * (y * (r_end / r_start)))
        with ((x * x + y * y) * (r_end * r_end) / (r_start * r_start)) by (field; lra).
      rewrite Hc. field. lra.
  - injection H as <-. exists 0. split; [now left|].
    cbn [px py pz fst snd]. split; [|split; [|reflexivity]].
    + intros Hl. destruct Hz as [-> | ->]; [field; lra | lra].
    + unfold lerp. rewrite Hc. ring.
Qed.

Lemma for_verts_Forall2 (f : vec3 -> res vec3) (P : vec3 -> vec3 -> Prop)
    (verts out : list vec3) :
  Forall (fun v => forall v', f v = Ok v' -> P v v') verts ->
  CreateCue.for_verts f verts = Ok out -> Forall2 P verts out.
Proof.
  intros HP. revert out. induction HP as [|v verts Hv _ IH]; intros out H.
  - cbn in H. injection H as <-. constructor.
  - cbn [CreateCue.for_verts] in H.
    destruct (f v) as [v'|] eqn:Ev; [|discriminate]. cbn [bind] in H.
    destruct (CreateCue.for_verts f verts) as [out'|]; [|discriminate].
    cbn [bind] in H. injection H as <-. constructor; auto.
Qed.

Lemma for_verts_total (f : vec3 -> res vec3) (verts : list vec3) :
  Forall (fun v => exists v', f v = Ok v') verts ->
  exists out, CreateCue.for_verts f verts = Ok out.
Proof.
  induction 1 as [|v verts [v' Ev] _ [out IH]]; cbn [CreateCue.for_verts].
  - eauto.
  - rewrite Ev, IH. cbn [bind]. eauto.
Qed.

Lemma lerp_same (r t : R) : lerp r r t = r.
Proof. unfold lerp. ring. Qed.

Lemma Forall2_Forall_r {A B : Type} (P : A -> B -> Prop) (Q : B -> Prop)
    (l : list A) (l' : list B) :
  (forall a b, P a b -> Q b) -> Forall2 P l l' -> Forall Q l'.
Proof. intros HPQ. induction 1; constructor; eauto. Qed.

(** The three vertex loops, each in the parameter it computes.  On the
    vertices of the primitive cylinder each generator starts from, the
    vertex is moved onto the circle whose radius is the linear
    interpolation of the start and the end radius in a parameter t in
    [0, 1] (clamped); its height is kept.  In generate_cue.py and
    create_cue.py that parameter is the vertex's normalized height
    (z + length/2) / length; in create_cue_export.py it is
    (z - z_start) / length.  With equal radii every vertex lies on the
    circle of that radius; with length 0 every vertex is at the one
    height 0. *)
Theorem taper_loops_interpolate (length r_start r_end z_start : R)
    (unit_verts cue_verts : list vec3) :
  Forall (primitive_vertex 1 length) unit_verts ->
  Forall (primitive_vertex r_start length) cue_verts ->
  (* generate_cue.py: radius_bottom at t = 0, radius_top at t = 1 *)
  Forall2 (fun v v' =>
             let t := clamp01 (if Rlt_dec 0 length
                               then (pz v - - length / 2) / length else 0.5) in
             0 <= t <= 1 /\ on_circle (lerp r_start r_end t) v' /\ pz v' = pz v)
          unit_verts
          (GenerateCue.create_tapered_cylinder length r_end r_start unit_verts) /\
  (* create_cue_export.py *)
  Forall2 (fun v v' =>
             let t := clamp01 (if Rlt_dec 0 length
                               then (pz v - z_start) / length else 0) in
             0 <= t <= 1 /\ on_circle (lerp r_start r_end t) v' /\ pz v' = pz v)
          unit_verts
          (CreateCueExport.create_cue_section length r_start r_end z_start unit_verts) /\
  (* create_cue.py: the two rings of the primitive, t = 0 and t = 1 *)
  (forall out, CreateCue.taper_segment r_start r_end cue_verts = Ok out ->
     Forall2 (fun v v' =>
                exists t, (t = 0 \/ t = 1) /\
                  (0 < length -> t = (pz v - - length / 2) / length) /\
                  on_circle (lerp r_start r_end t) v' /\ pz v' = pz v)
             cue_verts out) /\
  (r_start <> 0 -> exists out, CreateCue.taper_segment r_start r_end cue_verts = Ok out) /\
  (* equal radii: a cylinder of that radius *)
  (r_start = r_end ->
     Forall (on_circle r_start)
            (GenerateCue.create_tapered_cylinder length r_end r_start unit_verts) /\
     Forall (on_circle r_start)
            (CreateCueExport.create_cue_section length r_start r_end z_start unit_verts) /\
     CreateCue.taper_segment r_start r_end cue_verts = Ok cue_verts) /\
  (* zero length: every vertex at the one height *)
  (length = 0 ->
     Forall (fun v' => pz v' = 0)
            (GenerateCue.create_tapered_cylinder length r_end r_start unit_verts) /\
     Forall (fun v' => pz v' = 0)
            (CreateCueExport.create_cue_section length r_start r_end z_start unit_verts) /\
     CreateCue.taper_segment r_start r_end cue_verts = Ok cue_verts /\
     Forall (fun v' => pz v' = 0) cue_verts).
Proof.
  intros Hunit Hcue.
  assert (Hdist : Forall (fun v => sqrt (px v ^ 2 + py v ^ 2) = 1) unit_verts).
  { eapply Forall_impl; [|exact Hunit]. intros [[x y] z] [Hc _].
    now apply unit_circle_dist with (z := z). }
  assert (G : Forall2 (fun v v' =>
             let t := clamp01 (if Rlt_dec 0 length
                               then (pz v - - length / 2) / length else 0.5) in
             0 <= t <= 1 /\ on_circle (lerp r_start r_end t) v' /\ pz v' = pz v)
          unit_verts
          (GenerateCue.create_tapered_cylinder length r_end r_start unit_verts)).
  { apply Forall2_map_self. eapply Forall_impl; [|exact Hdist].
    intros v Hv. cbv zeta. split; [apply clamp01_range|].
    apply taper_vertex_on_circle. rewrite Hv. lra. }
  assert (E : Forall2 (fun v v' =>
             let t := clamp01 (if Rlt_dec 0 length
                               then (pz v - z_start) / length else 0) in
             0 <= t <= 1 /\ on_circle (lerp r_start r_end t) v' /\ pz v' = pz v)
          unit_verts
          (CreateCueExport.create_cue_section length r_start r_end z_start unit_verts)).
  { apply Forall2_map_self. eapply Forall_impl; [|exact Hdist].
    intros v Hv. cbv zeta. split; [apply clamp01_range|].
    apply section_vertex_on_circle. rewrite Hv. lra. }
  assert (C : forall out, CreateCue.taper_segment r_start r_end cue_verts = Ok out ->
     Forall2 (fun v v' =>
                exists t, (t = 0 \/ t = 1) /\
                  (0 < length -> t = (pz v - - length / 2) / length) /\
                  on_circle (lerp r_start r_end t) v' /\ pz v' = pz v)
             cue_verts out).
  { intros out H. unfold CreateCue.taper_segment in H.
    destruct (Req_dec_T r_start r_end) as [<-|Hne].
    - injection H as <-. clear G E.
      induction Hcue as [|[[x y] z] l [Hc Hz] _ IH]; constructor; [|exact IH].
      cbn [pz snd] in Hz |- *.
      destruct (Rlt_dec 0 z) as [Hp|Hn].
      + exists 1. split; [now right|]. rewrite lerp_same.
        split; [|split; [exact Hc|reflexivity]].
        intros Hl. destruct Hz as [-> | ->]; [lra | field; lra].
      + exists 0. split; [now left|]. rewrite lerp_same.
        split; [|split; [exact Hc|reflexivity]].
        intros Hl. destruct Hz as [-> | ->]; [field; lra | lra].
    - eapply for_verts_Forall2; [|exact H].
      eapply Forall_impl; [|exact Hcue].
      intros v Hv v' Hv'. eapply scale_top_on_circle; eassumption. }
  split; [exact G|]. split; [exact E|]. split; [exact C|].
  split; [|split].
  - intros Hr. unfold CreateCue.taper_segment.
    destruct (Req_dec_T r_start r_end); [eauto|].
    apply for_verts_total. eapply Forall_impl; [|exact Hcue].
    intros [[x y] z] _. unfold CreateCue.scale_top, float_div.
    destruct (Rlt_dec 0 z); [|eauto].
    destruct (Req_dec_T r_start 0); [contradiction|]. cbn [bind]. eauto.
  - intros <-. split; [|split].
    + eapply Forall2_Forall_r; [|exact G].
      cbv zeta. intros v v' (_ & Hc & _). now rewrite lerp_same in Hc.
    + eapply Forall2_Forall_r; [|exact E].
      cbv zeta. intros v v' (_ & Hc & _). now rewrite lerp_same in Hc.
    + unfold CreateCue.taper_segment.
      destruct (Req_dec_T r_start r_start); [reflexivity|contradiction].
  - intros ->.
    assert (Hz : forall r l, Forall (primitive_vertex r 0) l -> Forall (fun v => pz v = 0) l).
    { intros r l Hl. eapply Forall_impl; [|exact Hl].
      intros v [_ [Hv|Hv]]; rewrite Hv; lra. }
    assert (Hmap : forall f : vec3 -> vec3, (forall v, pz (f v) = pz v) ->
                     Forall (fun v' => pz v' = 0) (map f unit_verts)).
    { intros f Hf. apply Forall_map. eapply Forall_impl; [|exact (Hz _ _ Hunit)].
      intros v Hv. cbn beta. now rewrite Hf. }
    split; [|split; [|split]].
    + apply Hmap. intros [[x y] z]. unfold GenerateCue.taper_vertex.
      now destruct (Rlt_dec 0.0001 _).
    + apply Hmap. intros [[x y] z]. unfold CreateCueExport.section_vertex.
      now destruct (Rlt_dec 0.001 _).
    + unfold CreateCue.taper_segment.
      destruct (Req_dec_T r_start r_end); [reflexivity|].
      pose proof (Hz _ _ Hcue) as H0. clear - H0.
      induction H0 as [|[[x y] z] l Hv _ IH]; [reflexivity|].
      cbn [CreateCue.for_verts]. unfold CreateCue.scale_top at 1.
      cbn [pz snd] in Hv. subst z.
      destruct (Rlt_dec 0 0) as [F|_]; [lra|]. cbn [bind]. rewrite IH. reflexivity.
    + exact (Hz _ _ Hcue).
Qed.

End TaperFacts.

Section TaperExamples.
Local Open Scope R_scope.

Lemma taper_loops_interpolate_example :
  Forall (primitive_vertex 1 2) sample_unit_verts /\
  Forall (primitive_vertex 3 2) sample_cue_verts /\
  (* generate_cue.py: radius_bottom at t = 0, radius_top at t = 1 *)
  Forall2 (fun v v' =>
             let t := clamp01 (if Rlt_dec 0 2
                               then (pz v - - 2 / 2) / 2 else 0.5) in
             0 <= t <= 1 /\ on_circle (lerp 3 1 t) v' /\ pz v' = pz v)
          sample_unit_verts
          (GenerateCue.create_tapered_cylinder 2 1 3 sample_unit_verts) /\
  (* create_cue_export.py *)
  Forall2 (fun v v' =>
             let t := clamp01 (if Rlt_dec 0 2
                               then (pz v - 0) / 2 else 0) in
             0 <= t <= 1 /\ on_circle (lerp 3 1 t) v' /\ pz v' = pz v)
          sample_unit_verts
          (CreateCueExport.create_cue_section 2 3 1 0 sample_unit_verts) /\
  (* create_cue.py: the two rings of the primitive, t = 0 and t = 1 *)
  (forall out, CreateCue.taper_segment 3 1 sample_cue_verts = Ok out ->
     Forall2 (fun v v' =>
                exists t, (t = 0 \/ t = 1) /\
                  (0 < 2 -> t = (pz v - - 2 / 2) / 2) /\
                  on_circle (lerp 3 1 t) v' /\ pz v' = pz v)
             sample_cue_verts out) /\
  (3 <> 0 -> exists out, CreateCue.taper_segment 3 1 sample_cue_verts = Ok out) /\
  (* equal radii: a cylinder of that radius *)
  (3 = 1 ->
     Forall (on_circle 3)
            (GenerateCue.create_tapered_cylinder 2 1 3 sample_unit_verts) /\
     Forall (on_circle 3)
            (CreateCueExport.create_cue_section 2 3 1 0 sample_unit_verts) /\
     CreateCue.taper_segment 3 1 sample_cue_verts = Ok sample_cue_verts) /\
  (* zero 2: every vertex at the one height *)
  (2 = 0 ->
     Forall (fun v' => pz v' = 0)
            (GenerateCue.create_tapered_cylinder 2 1 3 sample_unit_verts) /\
     Forall (fun v' => pz v' = 0)
            (CreateCueExport.create_cue_section 2 3 1 0 sample_unit_verts) /\
     CreateCue.taper_segment 3 1 sample_cue_verts = Ok sample_cue_verts /\
     Forall (fun v' => pz v' = 0) sample_cue_verts).
Proof.
  assert (H1 : Forall (primitive_vertex 1 2) sample_unit_verts).
  { repeat constructor; unfold on_circle; cbn [px py pz fst snd]; lra. }
  assert (H2 : Forall (primitive_vertex 3 2) sample_cue_verts).
  { repeat constructor; unfold on_circle; cbn [px py pz fst snd]; lra. }
  split; [exact H1|]. split; [exact H2|].
  exact (taper_loops_interpolate 2 3 1 0 sample_unit_verts sample_cue_verts H1 H2).
Defined.

End TaperExamples.

(** ** Cylindrical UV projection *)

Section UvFacts.
Local Open Scope R_scope.

Lemma py_min_spec (l : list R) (m : R) : py_min l = Ok m -> is_minimum m l.
Proof.
  destruct l as [|x l]; [discriminate|]. cbn [py_min]. intros H.
  injection H as <-. apply fold_Rmin_is_minimum.
Qed.

Lemma py_max_spec (l : list R) (m : R) : py_max l = Ok m -> is_maximum m l.
Proof.
  destruct l as [|x l]; [discriminate|]. cbn [py_max]. intros H.
  injection H as <-. apply fold_Rmax_is_maximum.
Qed.

Lemma lookup_Ok {A : Type} (l : list A) (i : nat) (a : A) :
  lookup l i = Ok a <-> nth_error l i = Some a.
Proof.
  unfold lookup. destruct (nth_error l i); split; intros H;
    try discriminate; now injection H as ->.
Qed.

Lemma set_item_spec {A : Type} (l l' : list A) (i : nat) (x : A) :
  set_item l i x = Ok l' ->
  nth_error l' i = Some x /\
  forall j, j <> i -> nth_error l' j = nth_error l j.
Proof.
  revert l' i. induction l as [|a l IH]; intros l' i H; [discriminate|].
  destruct i as [|i]; cbn [set_item] in H.
  - injection H as <-. split; [reflexivity|]. intros [|j] Hj; [contradiction|reflexivity].
  - destruct (set_item l i x) as [l''|] eqn:E; [|discriminate].
    cbn [bind] in H. injection H as <-. destruct (IH _ _ E) as [H1 H2].
    split; [exact H1|]. intros [|j] Hj; [reflexivity|]. cbn [nth_error]. apply H2. lia.
Qed.

(** A loop nest over the parts of a collection is a loop over their
    concatenation. *)
Lemma for_each_app {A S : Type} (l1 l2 : list A) (body : A -> S -> res S) (s : S) :
  for_each (l1 ++ l2) body s = s' <- for_each l1 body s ;; for_each l2 body s'.
Proof.
  revert s. induction l1 as [|a l1 IH]; intros s; cbn [for_each app bind]; [reflexivity|].
  destruct (body a s) as [s1|]; cbn [bind]; [apply IH|reflexivity].
Qed.

Lemma for_each_nested {A B S : Type} (parts : B -> list A) (l : list B)
    (body : A -> S -> res S) (s : S) :
  for_each l (fun b s => for_each (parts b) body s) s
  = for_each (flat_map parts l) body s.
Proof.
  revert s. induction l as [|b l IH]; intros s; cbn [for_each flat_map]; [reflexivity|].
  rewrite for_each_app. destruct (for_each (parts b) body s); cbn [bind]; [apply IH|reflexivity].
Qed.

(** A loop that stores at index [i] a value computed from [i] alone
    leaves that value at every index it has visited. *)
Lemma store_loop_spec {A : Type} (f : nat -> res A) (l : list nat) (s s' : list A) :
  for_each l (fun i s => x <- f i ;; set_item s i x) s = Ok s' ->
  forall i x, f i = Ok x -> In i l \/ nth_error s i = Some x -> nth_error s' i = Some x.
Proof.
  revert s. induction l as [|a l IH]; intros s H i x Hf Hi.
  - cbn in H. injection H as <-. destruct Hi as [[]|Hi]. exact Hi.
  - cbn [for_each] in H.
    destruct (f a) as [xa|] eqn:Ea; [|discriminate]. cbn [bind] in H.
    destruct (set_item s a xa) as [s1|] eqn:E1; [|discriminate]. cbn [bind] in H.
    destruct (set_item_spec _ _ _ _ E1) as [Hset Hother].
    apply (IH s1 H i x Hf).
    destruct (Nat.eq_dec i a) as [->|Hne].
    + right. rewrite Hset. rewrite Ea in Hf. now injection Hf as ->.
    + destruct Hi as [[E|Hi]|Hi]; [congruence | now left | right].
      now rewrite Hother.
Qed.

Lemma store_loop_defined {A : Type} (f : nat -> res A) (l : list nat) (s s' : list A) :
  for_each l (fun i s => x <- f i ;; set_item s i x) s = Ok s' ->
  forall i, In i l -> exists x, f i = Ok x.
Proof.
  revert s. induction l as [|a l IH]; intros s H i Hi; [destruct Hi|].
  cbn [for_each] in H.
  destruct (f a) as [xa|] eqn:Ea; [|discriminate]. cbn [bind] in H.
  destruct (set_item s a xa) as [s1|] eqn:E1; [|discriminate]. cbn [bind] in H.
  destruct Hi as [<-|Hi]; [eauto|]. eapply IH; eassumption.
Qed.

Lemma track_min_fold (l : list R) (m : R) :
  fold_left GenerateCue.track_min l (Some m) = Some (fold_left Rmin l m).
Proof. revert m. induction l as [|z l IH]; intros m; cbn; [reflexivity|apply IH]. Qed.

Lemma track_max_fold (l : list R) (m : R) :
  fold_left GenerateCue.track_max l (Some m) = Some (fold_left Rmax l m).
Proof. revert m. induction l as [|z l IH]; intros m; cbn; [reflexivity|apply IH]. Qed.

(** With at least one vertex the tracked bounds are the smallest and the
    largest height. *)
Lemma tracked_bounds (l : list R) :
  l <> [] ->
  exists lo hi,
    fold_left GenerateCue.track_min l None = Some lo /\
    fold_left GenerateCue.track_max l None = Some hi /\
    is_minimum lo l /\ is_maximum hi l.
Proof.
  destruct l as [|z l]; [contradiction|]. intros _.
  cbn [fold_left GenerateCue.track_min GenerateCue.track_max].
  rewrite track_min_fold, track_max_fold.
  eexists _, _. split; [reflexivity|]. split; [reflexivity|].
  split; [apply fold_Rmin_is_minimum | apply fold_Rmax_is_maximum].
Qed.

(** create_cue_butt.py: what every loop of every face receives. *)
Lemma unwrap_cylinder_side_only_spec (uv_aspect : R) (bm bm' : CueButt.BMesh) :
  CueButt.unwrap_cylinder_side_only bm uv_aspect = Ok bm' ->
  exists min_z max_z,
    is_minimum min_z (map pz (CueButt.verts bm)) /\
    is_maximum max_z (map pz (CueButt.verts bm)) /\
    Forall2
      (fun face face' =>
         CueButt.normal face' = CueButt.normal face /\
         (is_cap_normal (CueButt.normal face) ->
            Forall2 (fun loop loop' =>
                       CueButt.vert loop' = CueButt.vert loop /\
                       CueButt.uv loop' = (0.5, 0.005))
                    (CueButt.loops face) (CueButt.loops face')) /\
         (~ is_cap_normal (CueButt.normal face) ->
            Forall2 (fun loop loop' =>
                       CueButt.vert loop' = CueButt.vert loop /\
                       fst (CueButt.uv loop')
                         = cylinder_u (px (CueButt.vert loop)) (py (CueButt.vert loop)) /\
                       (min_z < max_z ->
                          snd (CueButt.uv loop')
                            = (pz (CueButt.vert loop) - min_z) / (max_z - min_z)) /\
                       (~ min_z < max_z -> snd (CueButt.uv loop') = 0.5))
                    (CueButt.loops face) (CueButt.loops face')))
      (CueButt.faces bm) (CueButt.faces bm').
Proof.
  unfold CueButt.unwrap_cylinder_side_only. intros H.
  destruct (py_min (map pz (CueButt.verts bm))) as [min_z|] eqn:Emin; [|discriminate].
  destruct (py_max (map pz (CueButt.verts bm))) as [max_z|] eqn:Emax; [|discriminate].
  cbn [bind] in H. injection H as <-. cbn [CueButt.faces].
  exists min_z, max_z.
  split; [now apply py_min_spec|]. split; [now apply py_max_spec|].
  apply Forall2_map_self. apply Forall_forall. intros face _.
  unfold CueButt.unwrap_face, is_cap_normal.
  destruct (Rlt_dec 0.9 (Rabs (pz (CueButt.normal face)))) as [Hcap|Hside];
    cbn [CueButt.normal CueButt.loops]; (split; [reflexivity|]); split; intros Hc;
    try contradiction.
  - apply Forall2_map_self. apply Forall_forall. intros loop _. now split.
  - apply Forall2_map_self. apply Forall_forall. intros loop _.
    unfold CueButt.project_loop. destruct (CueButt.vert loop) as [[x y] z].
    cbn [CueButt.vert CueButt.uv fst snd px py pz].
    split; [reflexivity|]. split; [reflexivity|].
    destruct (Rlt_dec 0 (max_z - min_z)) as [Hr|Hr]; split; intros Hlt;
      first [reflexivity | lra].
Qed.

(** generate_cue.py: what every loop of every polygon receives. *)
Lemma apply_cylindrical_uv_proper_spec (obj obj' : GenerateCue.Object) :
  GenerateCue.apply_cylindrical_uv_proper obj = Ok obj' ->
  exists uvs',
    GenerateCue.uv_layer (GenerateCue.data obj') = Some uvs' /\
    forall poly loop_idx,
      In poly (GenerateCue.polygons (GenerateCue.data obj)) ->
      In loop_idx (GenerateCue.loop_indices poly) ->
      exists vertex_index co min_z max_z,
        nth_error (GenerateCue.loops (GenerateCue.data obj)) loop_idx = Some vertex_index /\
        nth_error (GenerateCue.vertices (GenerateCue.data obj)) vertex_index = Some co /\
        is_minimum min_z (map (fun co => pz (GenerateCue.matrix_world obj co))
                              (GenerateCue.vertices (GenerateCue.data obj))) /\
        is_maximum max_z (map (fun co => pz (GenerateCue.matrix_world obj co))
                              (GenerateCue.vertices (GenerateCue.data obj))) /\
        nth_error uvs' loop_idx
          = Some (cylinder_u (px (GenerateCue.matrix_world obj co))
                             (py (GenerateCue.matrix_world obj co)),
                  (pz (GenerateCue.matrix_world obj co) - min_z)
                  / (if Rlt_dec min_z max_z then max_z - min_z else 1)).
Proof.
  unfold GenerateCue.apply_cylindrical_uv_proper. intros H.
  rewrite for_each_nested in H.
  match type of H with
  | (bind (for_each ?l ?body ?s0) _ = _) =>
      destruct (for_each l body s0) as [uvs'|] eqn:Eloop; [|discriminate]
  end.
  cbn [bind] in H. injection H as <-. cbn [GenerateCue.data GenerateCue.uv_layer].
  exists uvs'. split; [reflexivity|]. intros poly loop_idx Hpoly Hloop.
  assert (Hin : In loop_idx (flat_map GenerateCue.loop_indices
                               (GenerateCue.polygons (GenerateCue.data obj)))).
  { apply in_flat_map. eauto. }
  unfold GenerateCue.loop_step in Eloop.
  destruct (store_loop_defined _ _ _ _ Eloop loop_idx Hin) as [[u v] Huv].
  pose proof (store_loop_spec _ _ _ _ Eloop loop_idx (u, v) Huv (or_introl Hin)) as Hnth.
  unfold GenerateCue.uv_of_loop in Huv.
  destruct (lookup (GenerateCue.loops (GenerateCue.data obj)) loop_idx)
    as [vertex_index|] eqn:El; [|discriminate].
  cbn [bind] in Huv.
  destruct (lookup (GenerateCue.vertices (GenerateCue.data obj)) vertex_index)
    as [co|] eqn:Ev; [|discriminate].
  cbn [bind] in Huv. apply lookup_Ok in El, Ev.
  destruct (tracked_bounds
              (map (fun co => pz (GenerateCue.matrix_world obj co))
                   (GenerateCue.vertices (GenerateCue.data obj))))
    as (lo & hi & Elo & Ehi & Hlo & Hhi).
  { destruct (GenerateCue.vertices (GenerateCue.data obj)); [|discriminate].
    now destruct vertex_index. }
  rewrite Elo, Ehi in Huv. cbn [GenerateCue.finite GenerateCue.z_range_of] in Huv.
  exists vertex_index, co, lo, hi.
  split; [exact El|]. split; [exact Ev|]. split; [exact Hlo|]. split; [exact Hhi|].
  rewrite Hnth. destruct (GenerateCue.matrix_world obj co) as [[x y] z].
  injection Huv as <- <-. cbn [px py pz fst snd]. unfold cylinder_u.
  destruct (Rlt_dec lo hi); repeat f_equal; lra.
Qed.

(** C6 (as amended). In create_cue_butt.py every loop of a side face
    gets u = (atan2(y, x) + pi) / (2 pi) and v = (z - z_min) / (z_max -
    z_min), with z_min and z_max the mesh's height bounds (v = 0.5 when
    they coincide), and every loop of a cap face gets the one point
    (0.5, 0.005).  In generate_cue.py every loop of every polygon, cap or
    side, gets the same projection of its world-space vertex (the height
    range replaced by 1 when the bounds coincide). *)
Theorem C6_cylindrical_projection (uv_aspect : R) (bm bm' : CueButt.BMesh)
    (obj obj' : GenerateCue.Object) :
  CueButt.unwrap_cylinder_side_only bm uv_aspect = Ok bm' ->
  GenerateCue.apply_cylindrical_uv_proper obj = Ok obj' ->
  (exists min_z max_z,
    is_minimum min_z (map pz (CueButt.verts bm)) /\
    is_maximum max_z (map pz (CueButt.verts bm)) /\
    Forall2
      (fun face face' =>
         CueButt.normal face' = CueButt.normal face /\
         (is_cap_normal (CueButt.normal face) ->
            Forall2 (fun loop loop' =>
                       CueButt.vert loop' = CueButt.vert loop /\
                       CueButt.uv loop' = (0.5, 0.005))
                    (CueButt.loops face) (CueButt.loops face')) /\
         (~ is_cap_normal (CueButt.normal face) ->
            Forall2 (fun loop loop' =>
                       CueButt.vert loop' = CueButt.vert loop /\
                       fst (CueButt.uv loop')
                         = cylinder_u (px (CueButt.vert loop)) (py (CueButt.vert loop)) /\
                       (min_z < max_z ->
                          snd (CueButt.uv loop')
                            = (pz (CueButt.vert loop) - min_z) / (max_z - min_z)) /\
                       (~ min_z < max_z -> snd (CueButt.uv loop') = 0.5))
                    (CueButt.loops face) (CueButt.loops face')))
      (CueButt.faces bm) (CueButt.faces bm')) /\
  (exists uvs',
    GenerateCue.uv_layer (GenerateCue.data obj') = Some uvs' /\
    forall poly loop_idx,
      In poly (GenerateCue.polygons (GenerateCue.data obj)) ->
      In loop_idx (GenerateCue.loop_indices poly) ->
      exists vertex_index co min_z max_z,
        nth_error (GenerateCue.loops (GenerateCue.data obj)) loop_idx = Some vertex_index /\
        nth_error (GenerateCue.vertices (GenerateCue.data obj)) vertex_index = Some co /\
        is_minimum min_z (map (fun co => pz (GenerateCue.matrix_world obj co))
                              (GenerateCue.vertices (GenerateCue.data obj))) /\
        is_maximum max_z (map (fun co => pz (GenerateCue.matrix_world obj co))
                              (GenerateCue.vertices (GenerateCue.data obj))) /\
        nth_error uvs' loop_idx
          = Some (cylinder_u (px (GenerateCue.matrix_world obj co))
                             (py (GenerateCue.matrix_world obj co)),
                  (pz (GenerateCue.matrix_world obj co) - min_z)
                  / (if Rlt_dec min_z max_z then max_z - min_z else 1))).
Proof.
  intros Hb Hg. split.
  - exact (unwrap_cylinder_side_only_spec uv_aspect bm bm' Hb).
  - exact (apply_cylindrical_uv_proper_spec obj obj' Hg).
Qed.

End UvFacts.

Section UvExamples.
Local Open Scope R_scope.

Lemma cap_triangle_returns :
  exists obj', GenerateCue.apply_cylindrical_uv_proper GenerateCue.cap_triangle = Ok obj'.
Proof. eexists. reflexivity. Qed.

Lemma sample_bmesh_returns :
  exists bm', CueButt.unwrap_cylinder_side_only CueButt.sample_bmesh 0.1365 = Ok bm'.
Proof. eexists. reflexivity. Qed.

Lemma C6_cylindrical_projection_witness :
  exists bm' obj',
  CueButt.unwrap_cylinder_side_only CueButt.sample_bmesh 0.1365 = Ok bm' /\
  GenerateCue.apply_cylindrical_uv_proper GenerateCue.cap_triangle = Ok obj' /\
  (exists min_z max_z,
    is_minimum min_z (map pz (CueButt.verts CueButt.sample_bmesh)) /\
    is_maximum max_z (map pz (CueButt.verts CueButt.sample_bmesh)) /\
    Forall2
      (fun face face' =>
         CueButt.normal face' = CueButt.normal face /\
         (is_cap_normal (CueButt.normal face) ->
            Forall2 (fun loop loop' =>
                       CueButt.vert loop' = CueButt.vert loop /\
                       CueButt.uv loop' = (0.5, 0.005))
                    (CueButt.loops face) (CueButt.loops face')) /\
         (~ is_cap_normal (CueButt.normal face) ->
            Forall2 (fun loop loop' =>
                       CueButt.vert loop' = CueButt.vert loop /\
                       fst (CueButt.uv loop')
                         = cylinder_u (px (CueButt.vert loop)) (py (CueButt.vert loop)) /\
                       (min_z < max_z ->
                          snd (CueButt.uv loop')
                            = (pz (CueButt.vert loop) - min_z) / (max_z - min_z)) /\
                       (~ min_z < max_z -> snd (CueButt.uv loop') = 0.5))
                    (CueButt.loops face) (CueButt.loops face')))
      (CueButt.faces CueButt.sample_bmesh) (CueButt.faces bm')) /\
  (exists uvs',
    GenerateCue.uv_layer (GenerateCue.data obj') = Some uvs' /\
    forall poly loop_idx,
      In poly (GenerateCue.polygons (GenerateCue.data GenerateCue.cap_triangle)) ->
      In loop_idx (GenerateCue.loop_indices poly) ->
      exists vertex_index co min_z max_z,
        nth_error (GenerateCue.loops (GenerateCue.data GenerateCue.cap_triangle)) loop_idx = Some vertex_index /\
        nth_error (GenerateCue.vertices (GenerateCue.data GenerateCue.cap_triangle)) vertex_index = Some co /\
        is_minimum min_z (map (fun co => pz (GenerateCue.matrix_world GenerateCue.cap_triangle co))
                              (GenerateCue.vertices (GenerateCue.data GenerateCue.cap_triangle))) /\
        is_maximum max_z (map (fun co => pz (GenerateCue.matrix_world GenerateCue.cap_triangle co))
                              (GenerateCue.vertices (GenerateCue.data GenerateCue.cap_triangle))) /\
        nth_error uvs' loop_idx
          = Some (cylinder_u (px (GenerateCue.matrix_world GenerateCue.cap_triangle co))
                             (py (GenerateCue.matrix_world GenerateCue.cap_triangle co)),
                  (pz (GenerateCue.matrix_world GenerateCue.cap_triangle co) - min_z)
                  / (if Rlt_dec min_z max_z then max_z - min_z else 1))).
Proof.
  destruct sample_bmesh_returns as [bm' Hb].
  destruct cap_triangle_returns as [obj' Hg].
  exists bm', obj'. split; [exact Hb|]. split; [exact Hg|].
  exact (C6_cylindrical_projection 0.1365 CueButt.sample_bmesh bm'
           GenerateCue.cap_triangle obj' Hb Hg).
Defined.

Lemma cylinder_u_east : cylinder_u 1 0 = 1 / 2.
Proof.
  unfold cylinder_u, atan2.
  destruct (Rlt_dec 0 1) as [_|N]; [|lra].
  replace (0 / 1) with 0 by field. rewrite atan_0. field. apply PI_neq0.
Qed.

Lemma cylinder_u_west : cylinder_u (-1) 0 = 1.
Proof.
  unfold cylinder_u, atan2.
  destruct (Rlt_dec 0 (-1)) as [N|_]; [lra|].
  destruct (Rlt_dec (-1) 0) as [_|N]; [|lra].
  destruct (Rle_dec 0 0) as [_|N]; [|lra].
  replace (0 / -1) with 0 by field. rewrite atan_0. field. apply PI_neq0.
Qed.

(** C6 cannot speak of end caps in generate_cue.py: the mapping has no
    cap case, and two corners of an upward-facing triangle receive
    different UV points (u = 1/2 and u = 1). *)
Lemma C6_counterexample_cap_not_collapsed :
  exists obj' uvs',
    GenerateCue.apply_cylindrical_uv_proper GenerateCue.cap_triangle = Ok obj' /\
    GenerateCue.uv_layer (GenerateCue.data obj') = Some uvs' /\
    Forall (fun poly => is_cap_normal (GenerateCue.polygon_normal poly))
           (GenerateCue.polygons (GenerateCue.data GenerateCue.cap_triangle)) /\
    ~ (exists point,
         forall poly loop_idx,
           In poly (GenerateCue.polygons (GenerateCue.data GenerateCue.cap_triangle)) ->
           is_cap_normal (GenerateCue.polygon_normal poly) ->
           In loop_idx (GenerateCue.loop_indices poly) ->
           nth_error uvs' loop_idx = Some point).
Proof.
  destruct cap_triangle_returns as [obj' Hg].
  destruct (apply_cylindrical_uv_proper_spec _ _ Hg) as (uvs' & Huv & Hspec).
  assert (Hcap : is_cap_normal (0, 0, 1)).
  { unfold is_cap_normal. cbn [pz snd]. rewrite Rabs_R1. lra. }
  exists obj', uvs'. split; [exact Hg|]. split; [exact Huv|].
  split; [repeat constructor; exact Hcap|].
  intros (point & Hpoint).
  pose (poly := {| GenerateCue.polygon_normal := (0, 0, 1);
                   GenerateCue.loop_indices := [0; 1; 2]%nat |}).
  assert (Hin : In poly (GenerateCue.polygons (GenerateCue.data GenerateCue.cap_triangle)))
    by now left.
  destruct (Hspec poly 0%nat Hin ltac:(now left))
    as (v0 & co0 & lo0 & hi0 & El0 & Ev0 & _ & _ & E0).
  destruct (Hspec poly 1%nat Hin ltac:(right; now left))
    as (v1 & co1 & lo1 & hi1 & El1 & Ev1 & _ & _ & E1).
  cbn in El0, El1. injection El0 as <-. injection El1 as <-.
  cbn in Ev0, Ev1. injection Ev0 as <-. injection Ev1 as <-.
  rewrite (Hpoint poly 0%nat Hin Hcap ltac:(now left)) in E0.
  rewrite (Hpoint poly 1%nat Hin Hcap ltac:(right; now left)) in E1.
  cbn [GenerateCue.matrix_world GenerateCue.cap_triangle px py fst snd] in E0, E1.
  rewrite cylinder_u_east in E0. rewrite cylinder_u_west in E1.
  rewrite E0 in E1. injection E1 as Hu _. lra.
Qed.

End UvExamples.

(** * Further properties of the scripts *)

(** ** The cylinder shell: edges, surface and winding *)

Section ShellFacts.
Import Cylinder.
Local Open Scope R_scope.


Lemma shell_uv_In (n : Z) (radius h0 h1 : R) (uv : vec2) :
  In uv (uvs (shell n radius h0 h1)) ->
  exists i, (0 <= i <= n)%Z /\ fst uv = IZR i / IZR n /\ (snd uv = 0 \/ snd uv = 1).
Proof.
  cbn [shell uvs]. rewrite in_flat_map. intros (i & Hi & Huv).
  apply range_In in Hi. exists i. split; [lia|].
  cbn [ring_uvs In] in Huv. destruct Huv as [<-|[<-|[]]]; cbn [fst snd]; auto.
Qed.

(** Whenever the generator returns, every vertex lies on the cylinder of
    the given radius about the y axis, at height_start or height_end, and
    every texture coordinate lies in the unit square, with v = 0 or 1. *)
Theorem shell_on_cylinder_uv_in_square (n : Z) (radius h0 h1 : R) (m : MeshData) :
  create_cylinder_mesh_data n radius h0 h1 = Ok m ->
  Forall (fun p => on_cylinder radius p /\ (py p = h0 \/ py p = h1)) (positions m) /\
  Forall (fun uv => 0 <= fst uv <= 1 /\ (snd uv = 0 \/ snd uv = 1)) (uvs m).
Proof.
  intros H. apply create_cylinder_mesh_data_inv in H. destruct H as [Hn ->]. split.
  - apply Forall_forall. intros p Hp. apply shell_position_In in Hp.
    destruct Hp as (i & _ & [-> | ->]); unfold on_cylinder; cbn [px py pz fst snd];
      (split; [|auto]);
      pose proof (sin2_cos2 (ring_angle n i)) as Hsc; unfold Rsqr in Hsc; nra.
  - apply Forall_forall. intros uv Huv. apply shell_uv_In in Huv.
    destruct Huv as (i & Hi & -> & Hv). split; [|exact Hv].
    assert (Hpos : (0 < n)%Z) by lia.
    assert (0 < IZR n) by now apply (IZR_lt 0 n).
    assert (0 <= IZR i) by (apply (IZR_le 0 i); lia).
    assert (IZR i <= IZR n) by (apply IZR_le; lia).
    split.
    + apply Rmult_le_pos; [assumption|]. left. now apply Rinv_0_lt_compat.
    + apply (Rmult_le_reg_r (IZR n)); [assumption|]. field_simplify; lra.
Qed.


Lemma triangles_of_quads (l : list Z) :
  triangles_of (flat_map quad_triangles l)
  = flat_map (fun i => [(i * 2, i * 2 + 1, i * 2 + 2); (i * 2 + 1, i * 2 + 3, i * 2 + 2)]%Z) l.
Proof.
  induction l as [|i l IH]; [reflexivity|].
  cbn [flat_map quad_triangles app triangles_of]. now rewrite IH.
Qed.

Lemma ring_angle_step (n i : Z) :
  (0 < n)%Z -> ring_angle n (i + 1) - ring_angle n i = 2 * PI / IZR n.
Proof.
  intros Hn. unfold ring_angle. rewrite plus_IZR. field.
  apply not_0_IZR. lia.
Qed.

Lemma sin_ring_step_pos (n i : Z) :
  (3 <= n)%Z ->
  0 < sin (ring_angle n (i + 1)) * cos (ring_angle n i)
      - cos (ring_angle n (i + 1)) * sin (ring_angle n i).
Proof.
  intros Hn. rewrite <- sin_minus, ring_angle_step by lia.
  assert (H3 : 3 <= IZR n) by (apply (IZR_le 3 n); exact Hn).
  pose proof PI_RGT_0 as Hpi.
  apply sin_gt_0.
  - apply Rdiv_lt_0_compat; lra.
  - apply (Rmult_lt_reg_r (IZR n)); [lra|]. field_simplify; [nra|lra].
Qed.

(** For n >= 3, a positive radius and height_start < height_end, the two
    triangles of every quad have one and the same face normal, and it
    points to the outside: its product with the ring's outward normal is
    positive.  The index list holds these 2n triangles. *)
Theorem shell_winding_outward (n : Z) (radius h0 h1 : R) (m : MeshData) :
  (3 <= n)%Z -> 0 < radius -> h0 < h1 ->
  create_cylinder_mesh_data n radius h0 h1 = Ok m ->
  length (triangles_of (triangle_indices n)) = Z.to_nat (2 * n) /\
  forall i, (0 <= i < n)%Z ->
    exists bottom top next_bottom next_top normal,
      nth_error (positions m) (Z.to_nat (2 * i)) = Some bottom /\
      nth_error (positions m) (Z.to_nat (2 * i + 1)) = Some top /\
      nth_error (positions m) (Z.to_nat (2 * i + 2)) = Some next_bottom /\
      nth_error (positions m) (Z.to_nat (2 * i + 3)) = Some next_top /\
      nth_error (normals m) (Z.to_nat (2 * i)) = Some normal /\
      In (2 * i, 2 * i + 1, 2 * i + 2)%Z (triangles_of (triangle_indices n)) /\
      In (2 * i + 1, 2 * i + 3, 2 * i + 2)%Z (triangles_of (triangle_indices n)) /\
      face_normal top next_top next_bottom = face_normal bottom top next_bottom /\
      0 < dot (face_normal bottom top next_bottom) normal.
Proof.
  intros Hn Hr Hh Hm. apply create_cylinder_mesh_data_inv in Hm.
  destruct Hm as [_ ->]. cbn [positions normals].
  rewrite triangle_indices_closed, triangles_of_quads. split.
  - rewrite (flat_map_length_const _ 2) by reflexivity. rewrite range_length. lia.
  - intros i Hi.
    pose (pos_b := fun i => (cos (ring_angle n i) * radius, h0, sin (ring_angle n i) * radius)).
    pose (pos_t := fun i => (cos (ring_angle n i) * radius, h1, sin (ring_angle n i) * radius)).
    destruct (ring_lookup (ring_positions n radius h0 h1) pos_b pos_t n i
                ltac:(reflexivity) ltac:(lia)) as [Pb Pt].
    destruct (ring_lookup (ring_positions n radius h0 h1) pos_b pos_t n (i + 1)
                ltac:(reflexivity) ltac:(lia)) as [Pb' Pt'].
    destruct (ring_lookup (ring_normals n)
                (fun i => (cos (ring_angle n i), 0, sin (ring_angle n i)))
                (fun i => (cos (ring_angle n i), 0, sin (ring_angle n i))) n i
                ltac:(reflexivity) ltac:(lia)) as [Nb _].
    replace (2 * (i + 1))%Z with (2 * i + 2)%Z in Pb' by lia.
    replace (2 * (i + 1) + 1)%Z with (2 * i + 3)%Z in Pt' by lia.
    exists (pos_b i), (pos_t i), (pos_b (i + 1)%Z), (pos_t (i + 1)%Z).
    eexists. split; [exact Pb|]. split; [exact Pt|]. split; [exact Pb'|].
    split; [exact Pt'|]. split; [exact Nb|].
    split; [|split].
    + apply in_flat_map. exists i. split; [apply range_In; lia|].
      left. f_equal; [f_equal|]; lia.
    + apply in_flat_map. exists i. split; [apply range_In; lia|].
      right; left. f_equal; [f_equal|]; lia.
    + pose proof (sin_ring_step_pos n i Hn) as Hs.
      unfold face_normal, cross, vsub, dot, pos_b, pos_t. cbn [px py pz fst snd].
      split; [f_equal; [f_equal|]; ring|].
      match goal with |- 0 < ?e =>
        replace e with ((h1 - h0) * radius
                        * (sin (ring_angle n (i + 1)) * cos (ring_angle n i)
                           - cos (ring_angle n (i + 1)) * sin (ring_angle n i))) by ring
      end.
      apply Rmult_lt_0_compat; [apply Rmult_lt_0_compat; lra|exact Hs].
Qed.

End ShellFacts.

Section ShellExamples.
Import Cylinder.
Local Open Scope R_scope.

Lemma shell_on_cylinder_uv_in_square_witness :
  exists m,
  create_cylinder_mesh_data 4 2 0 1 = Ok m /\
  Forall (fun p => on_cylinder 2 p /\ (py p = 0 \/ py p = 1)) (positions m) /\
  Forall (fun uv => 0 <= fst uv <= 1 /\ (snd uv = 0 \/ snd uv = 1)) (uvs m).
Proof.
  eexists. split; [reflexivity|].
  apply (shell_on_cylinder_uv_in_square 4 2 0 1). reflexivity.
Defined.

Lemma shell_winding_outward_witness :
  exists m,
  (3 <= 4)%Z /\ 0 < 2 /\ 0 < 1 /\
  create_cylinder_mesh_data 4 2 0 1 = Ok m /\
  length (triangles_of (triangle_indices 4)) = Z.to_nat (2 * 4) /\
  forall i, (0 <= i < 4)%Z ->
    exists bottom top next_bottom next_top normal,
      nth_error (positions m) (Z.to_nat (2 * i)) = Some bottom /\
      nth_error (positions m) (Z.to_nat (2 * i + 1)) = Some top /\
      nth_error (positions m) (Z.to_nat (2 * i + 2)) = Some next_bottom /\
      nth_error (positions m) (Z.to_nat (2 * i + 3)) = Some next_top /\
      nth_error (normals m) (Z.to_nat (2 * i)) = Some normal /\
      In (2 * i, 2 * i + 1, 2 * i + 2)%Z (triangles_of (triangle_indices 4)) /\
      In (2 * i + 1, 2 * i + 3, 2 * i + 2)%Z (triangles_of (triangle_indices 4)) /\
      face_normal top next_top next_bottom = face_normal bottom top next_bottom /\
      0 < dot (face_normal bottom top next_bottom) normal.
Proof.
  eexists. split; [lia|]. split; [lra|]. split; [lra|]. split; [reflexivity|].
  apply (shell_winding_outward 4 2 0 1); [lia | lra | lra | reflexivity].
Defined.

End ShellExamples.

(** ** Appending the shell: errors, references and the bytes read back *)

Section LayerFacts.
Import Cylinder Gltf.
Local Open Scope Z_scope.

Variable pack_f32 : R -> byte * byte * byte * byte.
Variable get_data_from_buffer_uri : string -> res (list byte).

(** [main] returns exactly on a model with a first buffer whose bytes can
    be read, a first node and a first scene.  Without a buffer, a node or
    a scene it raises IndexError; when the bytes cannot be read it raises
    what the reader raises. *)
Theorem main_raises (g : GLTF2) :
  (buffers g = [] -> main pack_f32 get_data_from_buffer_uri g = Raise IndexError) /\
  (forall b e,
     item0 (buffers g) = Ok b ->
     existing_data_of get_data_from_buffer_uri g b = Raise e ->
     main pack_f32 get_data_from_buffer_uri g = Raise e) /\
  (forall b data,
     item0 (buffers g) = Ok b ->
     existing_data_of get_data_from_buffer_uri g b = Ok data ->
     nodes g = [] \/ scenes g = [] ->
     main pack_f32 get_data_from_buffer_uri g = Raise IndexError) /\
  (forall b data,
     item0 (buffers g) = Ok b ->
     existing_data_of get_data_from_buffer_uri g b = Ok data ->
     nodes g <> [] -> scenes g <> [] ->
     exists g', main pack_f32 get_data_from_buffer_uri g = Ok g').
Proof.
  split; [|split; [|split]].
  - intros E. unfold main. now rewrite E.
  - intros b e Hb Hd. unfold main. rewrite Hb. cbn [bind]. now rewrite Hd.
  - intros b data Hb Hd Hmissing. unfold main. rewrite Hb. cbn [bind].
    rewrite Hd. cbn [bind]. rewrite create_configured. cbn [bind].
    unfold append_layer, offsets. rewrite Hb. cbn [bind].
    destruct (shell_positions_nonempty SEGMENTS RADIUS HEIGHT_START HEIGHT_END)
      as (p & ps & ->); [discriminate|].
    cbn [max_axis0 min_axis0 bind].
    destruct (nodes g) as [|root ns]; [reflexivity|].
    destruct (scenes g) as [|s0 ss]; [reflexivity|].
    destruct Hmissing; discriminate.
  - intros b data Hb Hd Hn Hs.
    exact (main_total pack_f32 get_data_from_buffer_uri g b data Hb Hd Hn Hs).
Qed.


Lemma slice_middle {A : Type} (pre x post : list A) :
  firstn (length x) (skipn (length pre) (pre ++ x ++ post)) = x.
Proof.
  rewrite skipn_app, skipn_all, Nat.sub_diag. cbn [skipn app].
  rewrite firstn_app, firstn_all, Nat.sub_diag, firstn_O. apply app_nil_r.
Qed.

Lemma slice_at {A : Type} (pre x post : list A) (offset size : Z) :
  offset = len pre -> size = len x ->
  firstn (Z.to_nat size) (skipn (Z.to_nat offset) (pre ++ x ++ post)) = x.
Proof.
  intros -> ->. unfold len. rewrite !Nat2Z.id. apply slice_middle.
Qed.

Lemma skipn_old {A : Type} (old new : list A) : skipn (length old) (old ++ new) = new.
Proof. now rewrite skipn_app, skipn_all, Nat.sub_diag. Qed.

Lemma nth_error_new {A : Type} (old new : list A) (k : Z) :
  0 <= k -> nth_error (old ++ new) (Z.to_nat (len old + k)) = nth_error new (Z.to_nat k).
Proof.
  intros Hk. unfold len. rewrite nth_error_app2 by lia. f_equal. lia.
Qed.

Lemma nth_error_new0 {A : Type} (old new : list A) :
  nth_error (old ++ new) (Z.to_nat (len old)) = nth_error new 0.
Proof.
  rewrite <- (Z.add_0_r (len old)). now rewrite nth_error_new.
Qed.

(** Following the references of the saved model from the new scene node
    (scene, node, mesh, primitive, accessor, buffer view, bytes) leads to
    the bytes of the generated arrays: positions, normals, texture
    coordinates and indices are read back as they were written. *)
Theorem appended_layer_reads_back (mesh : MeshData) (existing_data : list byte)
    (g g' : GLTF2) :
  append_layer pack_f32 mesh existing_data g = Ok g' ->
  exists old_scene_nodes rest node_idx node mesh_idx msh prim
         position_acc normal_acc uv_acc index_acc material_idx,
    scenes g' = {| scene_nodes := old_scene_nodes ++ [node_idx] |} :: rest /\
    nth_error (nodes g') (Z.to_nat node_idx) = Some node /\
    node_mesh node = Some mesh_idx /\
    nth_error (meshes g') (Z.to_nat mesh_idx) = Some msh /\
    primitives msh = [prim] /\
    attribute (attributes prim) "POSITION" = Some position_acc /\
    attribute (attributes prim) "NORMAL" = Some normal_acc /\
    attribute (attributes prim) "TEXCOORD_0" = Some uv_acc /\
    primitive_indices prim = Some index_acc /\
    primitive_material prim = Some material_idx /\
    nth_error (materials g') (Z.to_nat material_idx) = Some outside_material /\
    accessor_bytes g' position_acc = Some (vec3_tobytes pack_f32 (positions mesh)) /\
    accessor_bytes g' normal_acc = Some (vec3_tobytes pack_f32 (normals mesh)) /\
    accessor_bytes g' uv_acc = Some (vec2_tobytes pack_f32 (uvs mesh)) /\
    accessor_bytes g' index_acc = Some (uint16_tobytes (indices mesh)).
Proof.
  intros H. apply append_layer_shape in H.
  destruct H as (b & bs & root & ns & s0 & ss & pmax & pmin & Eb & En & Es
                 & Emax & Emin & Hbuf & Hbv & Hacc & Hmat & Hmesh & Hnode & Hscene & Hdata).
  exists (scene_nodes s0), ss, (len (nodes g)), (layer_node (len (meshes g)) root),
    (len (meshes g)), (layer_mesh (len (accessors g)) (len (materials g))).
  eexists. exists (len (accessors g)), (len (accessors g) + 1), (len (accessors g) + 2),
    (len (accessors g) + 3), (len (materials g)).
  split; [exact Hscene|].
  split; [rewrite Hnode; now rewrite nth_error_new0|].
  split; [reflexivity|].
  split; [rewrite Hmesh; now rewrite nth_error_new0|].
  split; [reflexivity|].
  do 5 (split; [reflexivity|]).
  split; [rewrite Hmat; now rewrite nth_error_new0|].
  assert (Hpad : forall l, 0 <= pad_to_4 l) by (intros l; apply pad_to_4_range).
  unfold accessor_bytes. rewrite Hacc.
  rewrite nth_error_new0, !nth_error_new by lia.
  change (Z.to_nat 1) with 1%nat. change (Z.to_nat 2) with 2%nat.
  change (Z.to_nat 3) with 3%nat.
  unfold new_accessors. cbn [nth_error bufferView].
  unfold view_bytes. rewrite Hbv, Hdata.
  rewrite nth_error_new0, !nth_error_new by lia.
  change (Z.to_nat 1) with 1%nat. change (Z.to_nat 2) with 2%nat.
  change (Z.to_nat 3) with 3%nat.
  unfold new_bufferViews, offsets, layer_bytes, build_buffer.
  cbn [nth_error byteOffset byteLength].
  rewrite <- !app_assoc.
  split; [|split; [|split]]; f_equal.
  - apply (slice_at existing_data); reflexivity.
  - rewrite !app_assoc. rewrite <- (app_assoc _ (vec3_tobytes pack_f32 (normals mesh))).
    rewrite <- !app_assoc.
    rewrite (app_assoc existing_data), (app_assoc (existing_data ++ _)).
    apply slice_at; [|reflexivity].
    rewrite !len_app, zeros_len by apply Hpad. lia.
  - rewrite (app_assoc existing_data), (app_assoc (existing_data ++ _)),
      (app_assoc ((existing_data ++ _) ++ _)), (app_assoc (((existing_data ++ _) ++ _) ++ _)).
    apply slice_at; [|reflexivity].
    rewrite !len_app, !zeros_len by apply Hpad. lia.
  - rewrite (app_assoc existing_data), (app_assoc (existing_data ++ _)),
      (app_assoc ((existing_data ++ _) ++ _)), (app_assoc (((existing_data ++ _) ++ _) ++ _)),
      (app_assoc ((((existing_data ++ _) ++ _) ++ _) ++ _)),
      (app_assoc (((((existing_data ++ _) ++ _) ++ _) ++ _) ++ _)).
    apply slice_at; [|reflexivity].
    rewrite !len_app, !zeros_len by apply Hpad. lia.
Qed.


(** The four new buffer views lie one after the other inside the new
    buffer, the first right after the existing data, none overlapping the
    next; the buffer's recorded length is the blob's; and each view is as
    long as its accessor's count times the element size (for normals and
    texture coordinates, whose accessors take the position count, when
    those arrays are as long as the positions). *)
Theorem appended_views_tile (mesh : MeshData) (existing_data : list byte)
    (g g' : GLTF2) :
  append_layer pack_f32 mesh existing_data g = Ok g' ->
  exists v0 v1 v2 v3 a0 a1 a2 a3 blob b0 rest,
    skipn (length (bufferViews g)) (bufferViews g') = [v0; v1; v2; v3] /\
    skipn (length (accessors g)) (accessors g') = [a0; a1; a2; a3] /\
    glb_data g' = Some blob /\
    buffers g' = b0 :: rest /\
    buffer_byteLength b0 = len blob /\
    byteOffset v0 = len existing_data /\
    byteOffset v0 + byteLength v0 <= byteOffset v1 /\
    byteOffset v1 + byteLength v1 <= byteOffset v2 /\
    byteOffset v2 + byteLength v2 <= byteOffset v3 /\
    byteOffset v3 + byteLength v3 <= len blob /\
    byteLength v0 = 12 * count a0 /\
    byteLength v3 = 2 * count a3 /\
    (len (normals mesh) = len (positions mesh) -> byteLength v1 = 12 * count a1) /\
    (len (uvs mesh) = len (positions mesh) -> byteLength v2 = 8 * count a2).
Proof.
  intros H. apply append_layer_shape in H.
  destruct H as (b & bs & root & ns & s0 & ss & pmax & pmin & Eb & En & Es
                 & Emax & Emin & Hbuf & Hbv & Hacc & Hmat & Hmesh & Hnode & Hscene & Hdata).
  unfold new_bufferViews, offsets in Hbv. unfold new_accessors in Hacc.
  do 8 eexists. exists (layer_bytes pack_f32 mesh existing_data). do 2 eexists.
  split; [rewrite Hbv; apply skipn_old|].
  split; [rewrite Hacc; apply skipn_old|].
  split; [exact Hdata|]. split; [exact Hbuf|].
  cbn [buffer_byteLength byteOffset byteLength count].
  assert (Hpad : forall l, 0 <= pad_to_4 l) by (intros l; apply pad_to_4_range).
  pose proof (Hpad (len (vec3_tobytes pack_f32 (positions mesh)))).
  pose proof (Hpad (len (vec3_tobytes pack_f32 (normals mesh)))).
  pose proof (Hpad (len (vec2_tobytes pack_f32 (uvs mesh)))).
  pose proof (Hpad (len (uint16_tobytes (indices mesh)))).
  unfold layer_bytes. rewrite build_buffer_len.
  rewrite !vec3_tobytes_len, vec2_tobytes_len, uint16_tobytes_len in *.
  repeat split; lia.
Qed.

End LayerFacts.

Section LayerExamples.
Import Cylinder Gltf.
Local Open Scope Z_scope.

Lemma small_layer_returns :
  exists g', append_layer zero_pack (shell 3 1 0 1) [x00; x00; x01; x00] small_glb = Ok g'.
Proof. eexists. reflexivity. Qed.

Lemma main_raises_witness :
  main zero_pack no_uri
    {| buffers := []; bufferViews := []; accessors := []; materials := [];
       meshes := []; nodes := []; scenes := []; glb_data := None |}
  = Raise IndexError.
Proof.
  exact (proj1 (main_raises zero_pack no_uri
                  {| buffers := []; bufferViews := []; accessors := []; materials := [];
                     meshes := []; nodes := []; scenes := []; glb_data := None |})
               eq_refl).
Defined.

Lemma appended_layer_reads_back_witness :
  exists g',
  append_layer zero_pack (shell 3 1 0 1) [x00; x00; x01; x00] small_glb = Ok g' /\
  exists old_scene_nodes rest node_idx node mesh_idx msh prim
         position_acc normal_acc uv_acc index_acc material_idx,
    scenes g' = {| scene_nodes := old_scene_nodes ++ [node_idx] |} :: rest /\
    nth_error (nodes g') (Z.to_nat node_idx) = Some node /\
    node_mesh node = Some mesh_idx /\
    nth_error (meshes g') (Z.to_nat mesh_idx) = Some msh /\
    primitives msh = [prim] /\
    attribute (attributes prim) "POSITION" = Some position_acc /\
    attribute (attributes prim) "NORMAL" = Some normal_acc /\
    attribute (attributes prim) "TEXCOORD_0" = Some uv_acc /\
    primitive_indices prim = Some index_acc /\
    primitive_material prim = Some material_idx /\
    nth_error (materials g') (Z.to_nat material_idx) = Some outside_material /\
    accessor_bytes g' position_acc = Some (vec3_tobytes zero_pack (positions (shell 3 1 0 1))) /\
    accessor_bytes g' normal_acc = Some (vec3_tobytes zero_pack (normals (shell 3 1 0 1))) /\
    accessor_bytes g' uv_acc = Some (vec2_tobytes zero_pack (uvs (shell 3 1 0 1))) /\
    accessor_bytes g' index_acc = Some (uint16_tobytes (indices (shell 3 1 0 1))).
Proof.
  destruct small_layer_returns as [g' H]. exists g'. split; [exact H|].
  exact (appended_layer_reads_back zero_pack (shell 3 1 0 1) [x00; x00; x01; x00]
           small_glb g' H).
Defined.

Lemma appended_views_tile_witness :
  exists g',
  append_layer zero_pack (shell 3 1 0 1) [x00; x00; x01; x00] small_glb = Ok g' /\
  exists v0 v1 v2 v3 a0 a1 a2 a3 blob b0 rest,
    skipn (length (bufferViews small_glb)) (bufferViews g') = [v0; v1; v2; v3] /\
    skipn (length (accessors small_glb)) (accessors g') = [a0; a1; a2; a3] /\
    glb_data g' = Some blob /\
    buffers g' = b0 :: rest /\
    buffer_byteLength b0 = len blob /\
    byteOffset v0 = len [x00; x00; x01; x00] /\
    byteOffset v0 + byteLength v0 <= byteOffset v1 /\
    byteOffset v1 + byteLength v1 <= byteOffset v2 /\
    byteOffset v2 + byteLength v2 <= byteOffset v3 /\
    byteOffset v3 + byteLength v3 <= len blob /\
    byteLength v0 = 12 * count a0 /\
    byteLength v3 = 2 * count a3 /\
    (len (normals (shell 3 1 0 1)) = len (positions (shell 3 1 0 1)) -> byteLength v1 = 12 * count a1) /\
    (len (uvs (shell 3 1 0 1)) = len (positions (shell 3 1 0 1)) -> byteLength v2 = 8 * count a2).
Proof.
  destruct small_layer_returns as [g' H]. exists g'. split; [exact H|].
  exact (appended_views_tile zero_pack (shell 3 1 0 1) [x00; x00; x01; x00]
           small_glb g' H).
Defined.

End LayerExamples.

(** ** The UV inspection utility: split, errors and what it leaves behind *)

Section InspectFacts.
Import CheckUv.

Variable fmt4 : R -> string.
Variable fmt2 : R -> string.
Variable str : Z -> string.
Variable int : R -> Z.
Variable round : R -> Z.

Lemma face_loop_closed (faces : list (list vec2)) :
  Forall (fun f => f <> []) faces ->
  forall all_uvs rect_uvs circle_uvs,
    for_each faces face_step (all_uvs, rect_uvs, circle_uvs)
    = Ok (all_uvs ++ concat faces,
          rect_uvs ++ concat (filter is_rect_face faces),
          circle_uvs ++ concat (filter is_circle_face faces)).
Proof.
  induction 1 as [|f faces Hf _ IH]; intros a r c.
  - cbn. now rewrite !app_nil_r.
  - cbn [for_each]. unfold face_step at 1.
    destruct f as [|uv f]; [contradiction|].
    cbn [filter concat]. unfold is_circle_face, is_rect_face, mean_v.
    destruct (Rlt_dec 0.45 _); cbn [bind negb concat]; rewrite IH;
      now rewrite <- !app_assoc.
Qed.

Lemma face_loop_raises (faces : list (list vec2)) :
  Exists (fun f => f = []) faces ->
  forall st, for_each faces face_step st = Raise ZeroDivisionError.
Proof.
  induction 1 as [f faces Hf|f faces _ IH]; intros [[a r] c]; cbn [for_each].
  - subst f. reflexivity.
  - unfold face_step at 1. destruct f as [|uv f]; [reflexivity|].
    destruct (Rlt_dec 0.45 _); cbn [bind]; apply IH.
Qed.

(** The face loop sends all UVs of a face to the rectangle when their
    mean v exceeds 0.45 and to the circles otherwise, keeping the order;
    nothing is lost or counted twice.  A face without loops makes the
    mean's division raise. *)
Theorem uv_faces_split (faces : list (list vec2)) :
  (Forall (fun f => f <> []) faces ->
     for_each faces face_step ([], [], [])
     = Ok (concat faces, concat (filter is_rect_face faces),
           concat (filter is_circle_face faces)) /\
     (length (concat (filter is_rect_face faces))
      + length (concat (filter is_circle_face faces))
      = length (concat faces))%nat) /\
  (Exists (fun f => f = []) faces ->
     for_each faces face_step ([], [], []) = Raise ZeroDivisionError).
Proof.
  split.
  - intros H. split; [now rewrite face_loop_closed|].
    clear H. induction faces as [|f faces IH]; [reflexivity|].
    cbn [filter concat]. unfold is_circle_face at 1.
    destruct (is_rect_face f); cbn [negb concat]; rewrite !length_app; lia.
  - intros H. now apply face_loop_raises.
Qed.


Lemma concat_nonempty_faces (faces : list (list vec2)) :
  Forall (fun f => f <> []) faces -> (concat faces = [] <-> faces = []).
Proof.
  intros H. split; [|now intros ->].
  destruct H as [|f faces Hf _]; [reflexivity|].
  cbn [concat]. destruct f; [contradiction|discriminate].
Qed.

Lemma Forall_filter {A : Type} (P : A -> Prop) (f : A -> bool) (l : list A) :
  Forall P l -> Forall P (filter f l).
Proof.
  induction 1 as [|a l Ha _ IH]; cbn [filter]; [constructor|].
  destruct (f a); [constructor|]; assumption.
Qed.

Lemma inspected_selects (ctx : Context) (o : Object) :
  inspected ctx = Some o -> is_mesh o = true ->
  exists i ctx0,
    (match active_object ctx with
     | Some x => (Some x, ctx)
     | None =>
         match first_mesh 0 (objects ctx) with
         | Some (i, o) => (Some (i, o), {| objects := objects ctx; active := Some i |})
         | None => (None, ctx)
         end
     end) = (Some (i, o), ctx0).
Proof.
  unfold inspected. intros H Hm.
  destruct (active_object ctx) as [[i o']|].
  - injection H as ->. eauto.
  - destruct (first_mesh 0 (objects ctx)) as [[i o']|]; [|discriminate].
    cbn [option_map snd] in H. injection H as ->. eauto.
Qed.

(** On a mesh with a UV layer whose faces all have loops the utility
    returns.  When no face has a mean v above 0.45 it returns its third
    error list; otherwise the report: 28 lines (30 when some face counts
    as a circle), the first naming the object, none beginning with
    "ERROR:". *)
Theorem inspection_returns (ctx : Context) (o : Object) (faces : list (list vec2)) :
  inspected ctx = Some o -> is_mesh o = true ->
  face_uvs_of o = Some faces ->
  Forall (fun f => f <> []) faces ->
  exists lines ctx',
    get_uv_pixel_dimensions fmt4 fmt2 str int round ctx = Ok (lines, ctx') /\
    (filter is_rect_face faces = [] ->
       lines = ["ERROR: No rectangle UVs found!"; "Try adjusting threshold."]%string) /\
    (filter is_rect_face faces <> [] ->
       nth_error lines 0 = Some (String.append "Object: " (name o)) /\
       length lines
       = (28 + match filter is_circle_face faces with [] => 0 | _ :: _ => 2 end)%nat /\
       Forall (fun line => is_error_line line = false) lines).
Proof.
  intros Hi Hm Hf Hne.
  destruct (inspected_selects ctx o Hi Hm) as (i & ctx0 & Esel).
  unfold get_uv_pixel_dimensions. rewrite Esel. rewrite Hm. cbn [negb]. rewrite Hf.
  rewrite (face_loop_closed faces Hne). cbn [bind app].
  pose proof (concat_nonempty_faces (filter is_rect_face faces)
                (Forall_filter _ _ _ Hne)) as Hrect.
  pose proof (concat_nonempty_faces (filter is_circle_face faces)
                (Forall_filter _ _ _ Hne)) as Hcirc.
  destruct (concat (filter is_rect_face faces)) as [|uv rect] eqn:Er.
  - eexists _, _. split; [reflexivity|]. split; [reflexivity|].
    intros Hr. destruct Hr. now apply Hrect.
  - unfold report. cbn [map py_min py_max bind].
    destruct (concat (filter is_circle_face faces)) as [|cuv circ] eqn:Ec.
    + cbn [bind]. eexists _, _. split; [reflexivity|].
      split; [intros E; apply Hrect in E; discriminate|]. intros _.
      assert (Efc : filter is_circle_face faces = []) by now apply Hcirc.
      rewrite Efc. split; [reflexivity|]. split; [reflexivity|].
      repeat constructor.
    + cbn [map py_min py_max bind]. eexists _, _. split; [reflexivity|].
      split; [intros E; apply Hrect in E; discriminate|]. intros _.
      destruct (filter is_circle_face faces) as [|fc fcs];
        [destruct Hcirc as [_ Hc]; specialize (Hc eq_refl); discriminate|].
      split; [reflexivity|]. split; [reflexivity|].
      repeat constructor.
Qed.

End InspectFacts.

Section InspectFrame.
Import CheckUv.

Variable fmt4 : R -> string.
Variable fmt2 : R -> string.
Variable str : Z -> string.
Variable int : R -> Z.
Variable round : R -> Z.

Lemma first_mesh_nth (l : list Object) (k i : nat) (o : Object) :
  first_mesh k l = Some (i, o) ->
  (k <= i)%nat /\ nth_error l (i - k) = Some o.
Proof.
  revert k. induction l as [|a l IH]; intros k; cbn [first_mesh]; [discriminate|].
  destruct (is_mesh a).
  - intros H. injection H as <- <-. split; [lia|]. now rewrite Nat.sub_diag.
  - intros H. destruct (IH _ H) as [Hle Hn]. split; [lia|].
    replace (i - k)%nat with (S (i - S k)) by lia. exact Hn.
Qed.

Lemma select_set_nth (l : list Object) (i : nat) (o : Object) :
  nth_error l i = Some o ->
  nth_error (select_set l i) i
  = Some {| name := name o; type := type o; selected := true;
            face_uvs_of := face_uvs_of o |} /\
  forall j, j <> i -> nth_error (select_set l i) j = nth_error l j.
Proof.
  revert i. induction l as [|a l IH]; intros i H; [now destruct i|].
  destruct i as [|i]; cbn [select_set nth_error] in *.
  - injection H as ->. split; [reflexivity|].
    intros [|j] Hj; [contradiction|reflexivity].
  - destruct (IH _ H) as [H1 H2]. split; [exact H1|].
    intros [|j] Hj; [reflexivity|]. cbn [nth_error]. apply H2. lia.
Qed.

Lemma active_object_nth (ctx : Context) (i : nat) (o : Object) :
  active_object ctx = Some (i, o) ->
  active ctx = Some i /\ nth_error (objects ctx) i = Some o.
Proof.
  unfold active_object. destruct (active ctx) as [k|]; [|discriminate].
  destruct (nth_error (objects ctx) k) as [o'|] eqn:E; [|discriminate].
  cbn [option_map]. intros H. injection H as <- <-. now split.
Qed.

(** Whatever list of lines the utility returns, it has changed nothing
    but the selection and the active object.  When no mesh was found the
    scene is as before.  Otherwise the inspected mesh is now the active
    object and is selected, with its name, type and UV data as before,
    and every other object is untouched. *)
Theorem inspection_frame (ctx ctx' : Context) (lines : list string) :
  get_uv_pixel_dimensions fmt4 fmt2 str int round ctx = Ok (lines, ctx') ->
  (no_mesh_found ctx -> ctx' = ctx) /\
  (forall o, inspected ctx = Some o -> is_mesh o = true ->
     exists i,
       nth_error (objects ctx) i = Some o /\
       active_object ctx'
       = Some (i, {| name := name o; type := type o; selected := true;
                     face_uvs_of := face_uvs_of o |}) /\
       forall j, j <> i -> nth_error (objects ctx') j = nth_error (objects ctx) j).
Proof.
  unfold get_uv_pixel_dimensions, no_mesh_found, inspected.
  destruct (active_object ctx) as [[i o]|] eqn:Ea.
  - destruct (active_object_nth ctx i o Ea) as [Eact Enth].
    destruct (is_mesh o) eqn:Em; cbn [negb].
    + intros H.
      assert (Hctx : ctx' = {| objects := select_set (objects ctx) i; active := active ctx |}).
      { destruct (face_uvs_of o) as [faces|]; [|now injection H as _ <-].
        destruct (for_each faces face_step ([], [], [])) as [[[a r] c]|]; [|discriminate].
        cbn [bind] in H. destruct r as [|uv r]; [now injection H as _ <-|].
        destruct (report fmt4 fmt2 str int round o (uv :: r) c); [|discriminate].
        cbn [bind] in H. now injection H as _ <-. }
      subst ctx'. split; [discriminate|].
      intros o' Ho' _. injection Ho' as <-. exists i.
      destruct (select_set_nth _ _ _ Enth) as [H1 H2].
      split; [exact Enth|]. split; [|exact H2].
      unfold active_object. cbn [active objects]. rewrite Eact, H1. reflexivity.
    + intros H. injection H as _ <-. split; [reflexivity|].
      intros o' Ho'. injection Ho' as <-. congruence.
  - destruct (first_mesh 0 (objects ctx)) as [[i o]|] eqn:Ef; cbn [option_map snd].
    + rewrite (first_mesh_is_mesh _ _ _ _ Ef). cbn [negb]. intros H.
      destruct (first_mesh_nth _ _ _ _ Ef) as [_ Enth]. rewrite Nat.sub_0_r in Enth.
      assert (Hctx : ctx' = {| objects := select_set (objects ctx) i; active := Some i |}).
      { cbn [objects active] in H.
        destruct (face_uvs_of o) as [faces|]; [|now injection H as _ <-].
        destruct (for_each faces face_step ([], [], [])) as [[[a r] c]|]; [|discriminate].
        cbn [bind] in H. destruct r as [|uv r]; [now injection H as _ <-|].
        destruct (report fmt4 fmt2 str int round o (uv :: r) c); [|discriminate].
        cbn [bind] in H. now injection H as _ <-. }
      subst ctx'. split; [discriminate|].
      intros o' Ho' _. injection Ho' as <-. exists i.
      destruct (select_set_nth _ _ _ Enth) as [H1 H2].
      split; [exact Enth|]. split; [|exact H2].
      unfold active_object. cbn [active objects]. rewrite H1. reflexivity.
    + intros H. injection H as _ <-. split; [reflexivity|]. discriminate.
Qed.

End InspectFrame.

Section InspectExamples.
Import CheckUv.
Local Open Scope R_scope.

Lemma inspection_returns_witness :
  let cue_faces := [[(0, 0.5); (1, 0.5); (1, 1); (0, 1)]; [(0.5, 0.005)]] in
  let cue := {| name := "CueButt"; type := "MESH"; selected := false;
                face_uvs_of := Some cue_faces |} in
  inspected unwrapped_scene = Some cue /\ is_mesh cue = true /\
  face_uvs_of cue = Some cue_faces /\
  Forall (fun f => f <> []) cue_faces /\
  exists lines ctx',
    get_uv_pixel_dimensions no_fmt no_fmt no_str no_int no_int unwrapped_scene = Ok (lines, ctx') /\
    (filter is_rect_face cue_faces = [] ->
       lines = ["ERROR: No rectangle UVs found!"; "Try adjusting threshold."]%string) /\
    (filter is_rect_face cue_faces <> [] ->
       nth_error lines 0 = Some (String.append "Object: " (name cue)) /\
       length lines
       = (28 + match filter is_circle_face cue_faces with [] => 0 | _ :: _ => 2 end)%nat /\
       Forall (fun line => is_error_line line = false) lines).
Proof.
  intros cue_faces cue.
  assert (Hi : inspected unwrapped_scene = Some cue) by reflexivity.
  assert (Hm : is_mesh cue = true) by reflexivity.
  assert (Hf : face_uvs_of cue = Some cue_faces) by reflexivity.
  assert (Hne : Forall (fun f : list vec2 => f <> []) cue_faces).
  { repeat constructor; discriminate. }
  repeat (split; [assumption|]).
  exact (inspection_returns no_fmt no_fmt no_str no_int no_int
           unwrapped_scene cue cue_faces Hi Hm Hf Hne).
Defined.

Lemma inspection_frame_witness :
  let cue := {| name := "Cue"; type := "MESH"; selected := false;
                face_uvs_of := None |} in
  let ctx' := {| objects := [{| name := "Cue"; type := "MESH"; selected := true;
                                face_uvs_of := None |}];
                 active := Some 0%nat |} in
  get_uv_pixel_dimensions no_fmt no_fmt no_str no_int no_int bare_mesh_scene
  = Ok (["ERROR: Mesh has no UV layers!"]%string, ctx') /\
  (no_mesh_found bare_mesh_scene -> ctx' = bare_mesh_scene) /\
  (forall o, inspected bare_mesh_scene = Some o -> is_mesh o = true ->
     exists i,
       nth_error (objects bare_mesh_scene) i = Some o /\
       active_object ctx'
       = Some (i, {| name := name o; type := type o; selected := true;
                     face_uvs_of := face_uvs_of o |}) /\
       forall j, j <> i -> nth_error (objects ctx') j = nth_error (objects bare_mesh_scene) j).
Proof.
  intros cue ctx'.
  assert (H : get_uv_pixel_dimensions no_fmt no_fmt no_str no_int no_int bare_mesh_scene
              = Ok (["ERROR: Mesh has no UV layers!"]%string, ctx')) by reflexivity.
  split; [exact H|].
  exact (inspection_frame no_fmt no_fmt no_str no_int no_int bare_mesh_scene ctx' _ H).
Defined.

End InspectExamples.

(** ** The cylindrical unwraps *)

Section UnwrapFacts.
Local Open Scope R_scope.

Lemma atan2_range (y x : R) : - PI < atan2 y x <= PI.
Proof.
  pose proof PI_RGT_0 as Hpi. unfold atan2.
  destruct (Rlt_dec 0 x) as [Hx|Hx].
  - pose proof (atan_bound (y / x)). lra.
  - destruct (Rlt_dec x 0) as [Hx'|Hx'].
    + pose proof (atan_bound (y / x)) as Hb.
      assert (Hinv : / x < 0) by now apply Rinv_lt_0_compat.
      destruct (Rle_dec 0 y) as [Hy|Hy].
      * assert (Hq : y / x <= 0) by (unfold Rdiv; nra).
        assert (atan (y / x) <= 0).
        { destruct Hq as [Hq|Hq].
          - left. rewrite <- atan_0. now apply atan_increasing.
          - rewrite Hq, atan_0. lra. }
        lra.
      * assert (Hq : 0 < y / x) by (unfold Rdiv; nra).
        assert (0 < atan (y / x)).
        { rewrite <- atan_0. now apply atan_increasing. }
        lra.
    + destruct (Rlt_dec 0 y); [lra|]. destruct (Rlt_dec y 0); lra.
Qed.

Lemma div_le_1 (a b : R) : 0 < b -> a <= b -> a / b <= 1.
Proof.
  intros Hb Hab. replace 1 with (b / b) by (field; lra).
  unfold Rdiv. apply Rmult_le_compat_r; [|exact Hab].
  left. now apply Rinv_0_lt_compat.
Qed.

Lemma div_ge_0 (a b : R) : 0 < b -> 0 <= a -> 0 <= a / b.
Proof.
  intros Hb Ha. unfold Rdiv. apply Rmult_le_pos; [exact Ha|].
  left. now apply Rinv_0_lt_compat.
Qed.

Lemma cylinder_u_range (x y : R) : 0 < cylinder_u x y <= 1.
Proof.
  pose proof PI_RGT_0 as Hpi. pose proof (atan2_range y x) as H.
  unfold cylinder_u. split.
  - apply Rdiv_lt_0_compat; lra.
  - apply div_le_1; lra.
Qed.

Lemma unit_fraction (z lo hi : R) : lo <= z <= hi -> lo < hi -> 0 <= (z - lo) / (hi - lo) <= 1.
Proof.
  intros Hz Hlt. split.
  - apply div_ge_0; lra.
  - apply div_le_1; lra.
Qed.

Lemma minimum_le (m : R) (l : list R) (z : R) : is_minimum m l -> In z l -> m <= z.
Proof. intros [_ H] Hin. rewrite Forall_forall in H. now apply H. Qed.

Lemma maximum_ge (m : R) (l : list R) (z : R) : is_maximum m l -> In z l -> z <= m.
Proof. intros [_ H] Hin. rewrite Forall_forall in H. now apply H. Qed.



Lemma unwrap_face_idem (min_z z_range : R) (face : CueButt.BMFace) :
  CueButt.unwrap_face min_z z_range (CueButt.unwrap_face min_z z_range face)
  = CueButt.unwrap_face min_z z_range face.
Proof.
  unfold CueButt.unwrap_face.
  destruct (Rlt_dec 0.9 (Rabs (pz (CueButt.normal face)))) as [Hc|Hc];
    cbn [CueButt.normal CueButt.loops];
    destruct (Rlt_dec 0.9 (Rabs (pz (CueButt.normal face)))); try contradiction;
    f_equal; rewrite map_map; apply map_ext; intros loop.
  - reflexivity.
  - unfold CueButt.project_loop. destruct (CueButt.vert loop) as [[x y] z] eqn:Ev.
    cbn [CueButt.vert]. reflexivity.
Qed.

(** create_cue_butt.py: the unwrap raises ValueError exactly on a mesh
    without vertices ([min] of an empty list).  When it returns, the
    geometry is as before, and unwrapping the result again, with whatever
    aspect argument, changes nothing: the UVs depend on the vertices and
    the normals alone. *)
Theorem unwrap_again_same (uv_aspect : R) (bm : CueButt.BMesh) :
  (CueButt.verts bm = [] <->
     CueButt.unwrap_cylinder_side_only bm uv_aspect = Raise ValueError) /\
  (CueButt.verts bm <> [] <->
     exists bm', CueButt.unwrap_cylinder_side_only bm uv_aspect = Ok bm') /\
  (forall bm' uv_aspect',
     CueButt.unwrap_cylinder_side_only bm uv_aspect = Ok bm' ->
     CueButt.verts bm' = CueButt.verts bm /\
     map CueButt.normal (CueButt.faces bm') = map CueButt.normal (CueButt.faces bm) /\
     map (fun face => map CueButt.vert (CueButt.loops face)) (CueButt.faces bm')
     = map (fun face => map CueButt.vert (CueButt.loops face)) (CueButt.faces bm) /\
     CueButt.unwrap_cylinder_side_only bm' uv_aspect' = Ok bm').
Proof.
  unfold CueButt.unwrap_cylinder_side_only.
  destruct (CueButt.verts bm) as [|v vs] eqn:Ev; cbn [map py_min py_max bind].
  - split; [tauto|]. split; [|discriminate].
    split; [contradiction|]. intros [bm' H]. discriminate.
  - split; [split; discriminate|]. split; [split; [eauto|discriminate]|].
    intros bm' a' H. injection H as <-. cbn [CueButt.verts CueButt.faces map py_min py_max bind].
    split; [reflexivity|]. rewrite !map_map.
    split; [|split].
    + apply map_ext. intros face. unfold CueButt.unwrap_face.
      now destruct (Rlt_dec 0.9 (Rabs (pz (CueButt.normal face)))).
    + apply map_ext. intros face. unfold CueButt.unwrap_face.
      destruct (Rlt_dec 0.9 (Rabs (pz (CueButt.normal face)))); cbn [CueButt.loops];
        rewrite map_map; apply map_ext; intros loop; [reflexivity|].
      unfold CueButt.project_loop. now destruct (CueButt.vert loop) as [[x y] z].
    + do 2 f_equal. apply map_ext. intros face. apply unwrap_face_idem.
Qed.

End UnwrapFacts.

Section LayerLoopFacts.
Local Open Scope R_scope.

Lemma set_item_length {A : Type} (l l' : list A) (i : nat) (x : A) :
  set_item l i x = Ok l' -> length l' = length l /\ (i < length l)%nat.
Proof.
  revert l' i. induction l as [|a l IH]; intros l' i H; [discriminate|].
  destruct i as [|i]; cbn [set_item] in H.
  - injection H as <-. cbn [length]. split; lia.
  - destruct (set_item l i x) as [l''|] eqn:E; [|discriminate].
    cbn [bind] in H. injection H as <-. destruct (IH _ _ E). cbn [length]. split; lia.
Qed.

Lemma set_item_returns {A : Type} (l : list A) (i : nat) (x : A) :
  (i < length l)%nat -> exists l', set_item l i x = Ok l'.
Proof.
  revert i. induction l as [|a l IH]; intros i H; [cbn in H; lia|].
  destruct i as [|i]; cbn [set_item]; [eauto|].
  destruct (IH i) as [l' E]; [cbn in H; lia|]. rewrite E. cbn [bind]. eauto.
Qed.

Lemma set_item_raises {A : Type} (l : list A) (i : nat) (x : A) (e : exn) :
  set_item l i x = Raise e -> e = IndexError.
Proof.
  revert i. induction l as [|a l IH]; intros i H; [now injection H as <-|].
  destruct i as [|i]; cbn [set_item] in H; [discriminate|].
  destruct (set_item l i x) eqn:E; [discriminate|].
  cbn [bind] in H. injection H as <-. eapply IH. exact E.
Qed.

(** The storing loop keeps the list's length, asks for every index it
    visits to be inside the list, and leaves the other entries alone. *)
Lemma store_loop_frame {A : Type} (f : nat -> res A) (l : list nat) (s s' : list A) :
  for_each l (fun i s => x <- f i ;; set_item s i x) s = Ok s' ->
  length s' = length s /\
  (forall i, In i l -> (i < length s)%nat) /\
  (forall j, ~ In j l -> nth_error s' j = nth_error s j).
Proof.
  revert s. induction l as [|a l IH]; intros s H.
  - cbn in H. injection H as <-. split; [reflexivity|]. split; [intros i []|reflexivity].
  - cbn [for_each] in H.
    destruct (f a) as [xa|] eqn:Ea; [|discriminate]. cbn [bind] in H.
    destruct (set_item s a xa) as [s1|] eqn:E1; [|discriminate]. cbn [bind] in H.
    destruct (set_item_length _ _ _ _ E1) as [Hlen Hlt].
    destruct (set_item_spec _ _ _ _ E1) as [_ Hother].
    destruct (IH _ H) as (IH1 & IH2 & IH3).
    split; [congruence|]. split.
    + intros i [<-|Hi]; [exact Hlt|]. rewrite <- Hlen. now apply IH2.
    + intros j Hj. rewrite IH3 by (intros Hin; apply Hj; now right).
      apply Hother. intros ->. apply Hj. now left.
Qed.

Lemma store_loop_returns {A : Type} (f : nat -> res A) (l : list nat) (s : list A) :
  (forall i, In i l -> (i < length s)%nat /\ exists x, f i = Ok x) ->
  exists s', for_each l (fun i s => x <- f i ;; set_item s i x) s = Ok s'.
Proof.
  revert s. induction l as [|a l IH]; intros s H; cbn [for_each]; [eauto|].
  destruct (H a (or_introl eq_refl)) as [Hlt [xa Ea]]. rewrite Ea. cbn [bind].
  destruct (set_item_returns s a xa Hlt) as [s1 E1]. rewrite E1. cbn [bind].
  apply IH. intros i Hi. destruct (H i (or_intror Hi)) as [Hi1 Hi2].
  split; [|exact Hi2]. destruct (set_item_length _ _ _ _ E1) as [-> _]. exact Hi1.
Qed.

Lemma store_loop_raises {A : Type} (f : nat -> res A) (l : list nat) (s : list A)
    (e : exn) :
  (forall i e', f i = Raise e' -> e' = IndexError) ->
  for_each l (fun i s => x <- f i ;; set_item s i x) s = Raise e -> e = IndexError.
Proof.
  intros Hf. revert s. induction l as [|a l IH]; intros s H; [discriminate|].
  cbn [for_each] in H.
  destruct (f a) as [xa|e'] eqn:Ea; cbn [bind] in H.
  - destruct (set_item s a xa) as [s1|e'] eqn:E1; cbn [bind] in H.
    + eapply IH. exact H.
    + injection H as <-. eapply set_item_raises. exact E1.
  - injection H as <-. eapply Hf. exact Ea.
Qed.

Lemma uv_of_loop_returns (obj : GenerateCue.Object) (min_z z_range : R) (i : nat) :
  (exists uv, GenerateCue.uv_of_loop obj min_z z_range i = Ok uv) <->
  (exists vertex_index,
     nth_error (GenerateCue.loops (GenerateCue.data obj)) i = Some vertex_index /\
     (vertex_index < length (GenerateCue.vertices (GenerateCue.data obj)))%nat).
Proof.
  unfold GenerateCue.uv_of_loop, lookup. split.
  - intros [uv H].
    destruct (nth_error (GenerateCue.loops (GenerateCue.data obj)) i) as [vi|];
      [|discriminate]. cbn [bind] in H.
    destruct (nth_error (GenerateCue.vertices (GenerateCue.data obj)) vi) eqn:Ev;
      [|discriminate].
    exists vi. split; [reflexivity|]. apply nth_error_Some. congruence.
  - intros (vi & -> & Hlt). cbn [bind].
    destruct (nth_error (GenerateCue.vertices (GenerateCue.data obj)) vi) as [co|] eqn:Ev.
    + cbn [bind]. destruct (GenerateCue.matrix_world obj co) as [[x y] z]. eauto.
    + apply nth_error_None in Ev. lia.
Qed.

Lemma uv_of_loop_raises (obj : GenerateCue.Object) (min_z z_range : R) (i : nat) (e : exn) :
  GenerateCue.uv_of_loop obj min_z z_range i = Raise e -> e = IndexError.
Proof.
  unfold GenerateCue.uv_of_loop, lookup.
  destruct (nth_error (GenerateCue.loops (GenerateCue.data obj)) i) as [vi|];
    cbn [bind]; [|now intros H; injection H as <-].
  destruct (nth_error (GenerateCue.vertices (GenerateCue.data obj)) vi) as [co|];
    cbn [bind]; [|now intros H; injection H as <-].
  destruct (GenerateCue.matrix_world obj co) as [[x y] z]. discriminate.
Qed.

Lemma layer_before_unfold (mesh : GenerateCue.Mesh) :
  match GenerateCue.uv_layer mesh with
  | Some uvs => uvs
  | None => repeat (0, 0) (length (GenerateCue.loops mesh))
  end = layer_before mesh.
Proof. reflexivity. Qed.

(** generate_cue.py: the mapping returns exactly when every loop index
    of every polygon is inside the UV layer and names a loop whose vertex
    index is inside the vertex list; the only exception it can raise is
    IndexError. *)
Theorem cylindrical_uv_returns (obj : GenerateCue.Object) :
  ((exists obj', GenerateCue.apply_cylindrical_uv_proper obj = Ok obj') <->
   (forall loop_idx, In loop_idx (visited_loops (GenerateCue.data obj)) ->
      (loop_idx < length (layer_before (GenerateCue.data obj)))%nat /\
      exists vertex_index,
        nth_error (GenerateCue.loops (GenerateCue.data obj)) loop_idx = Some vertex_index /\
        (vertex_index < length (GenerateCue.vertices (GenerateCue.data obj)))%nat)) /\
  (forall e, GenerateCue.apply_cylindrical_uv_proper obj = Raise e -> e = IndexError).
Proof.
  unfold GenerateCue.apply_cylindrical_uv_proper.
  rewrite for_each_nested. rewrite layer_before_unfold.
  fold (visited_loops (GenerateCue.data obj)). unfold GenerateCue.loop_step.
  match goal with
  | |- context [for_each ?l ?body ?s0] =>
      destruct (for_each l body s0) as [uvs'|e0] eqn:Eloop
  end; cbn [bind].
  - split; [|discriminate]. split; [|eauto].
    intros _ loop_idx Hin.
    destruct (store_loop_frame _ _ _ _ Eloop) as (_ & Hlt & _).
    split; [now apply Hlt|].
    eapply (proj1 (uv_of_loop_returns obj _ _ loop_idx)).
    eapply store_loop_defined; eassumption.
  - split.
    + split; [intros [obj' H]; discriminate|]. intros Hvalid.
      match type of Eloop with
      | for_each ?l (fun i s => x <- ?f i ;; _) ?s0 = _ =>
          destruct (store_loop_returns f l s0) as [s' Es]
      end.
      * intros i Hi. destruct (Hvalid i Hi) as [H1 H2]. split; [exact H1|].
        now apply (proj2 (uv_of_loop_returns obj _ _ i)).
      * rewrite Es in Eloop. discriminate.
    + intros e H. injection H as <-.
      eapply store_loop_raises; [|exact Eloop].
      intros i e'. apply uv_of_loop_raises.
Qed.

(** generate_cue.py: the mapping keeps the geometry and the size of the
    UV layer, and a loop that belongs to no polygon keeps the UV it had. *)
Theorem cylindrical_uv_frame (obj obj' : GenerateCue.Object) :
  GenerateCue.apply_cylindrical_uv_proper obj = Ok obj' ->
  GenerateCue.vertices (GenerateCue.data obj') = GenerateCue.vertices (GenerateCue.data obj) /\
  GenerateCue.loops (GenerateCue.data obj') = GenerateCue.loops (GenerateCue.data obj) /\
  GenerateCue.polygons (GenerateCue.data obj')
  = GenerateCue.polygons (GenerateCue.data obj) /\
  exists uvs',
    GenerateCue.uv_layer (GenerateCue.data obj') = Some uvs' /\
    length uvs' = length (layer_before (GenerateCue.data obj)) /\
    forall j, ~ In j (visited_loops (GenerateCue.data obj)) ->
      nth_error uvs' j = nth_error (layer_before (GenerateCue.data obj)) j.
Proof.
  unfold GenerateCue.apply_cylindrical_uv_proper.
  rewrite for_each_nested. rewrite layer_before_unfold.
  fold (visited_loops (GenerateCue.data obj)). unfold GenerateCue.loop_step.
  match goal with
  | |- context [for_each ?l ?body ?s0] =>
      destruct (for_each l body s0) as [uvs'|e0] eqn:Eloop
  end; cbn [bind]; [|discriminate].
  intros H. injection H as <-.
  cbn [GenerateCue.data GenerateCue.vertices GenerateCue.loops GenerateCue.polygons
       GenerateCue.uv_layer].
  repeat (split; [reflexivity|]). exists uvs'. split; [reflexivity|].
  destruct (store_loop_frame _ _ _ _ Eloop) as (Hlen & _ & Hother).
  split; assumption.
Qed.

(** generate_cue.py: every loop of every polygon receives a UV inside
    the unit square, u = 0 excluded. *)
Theorem cylindrical_uv_in_unit_square (obj obj' : GenerateCue.Object) :
  GenerateCue.apply_cylindrical_uv_proper obj = Ok obj' ->
  exists uvs',
    GenerateCue.uv_layer (GenerateCue.data obj') = Some uvs' /\
    forall loop_idx, In loop_idx (visited_loops (GenerateCue.data obj)) ->
      exists uv, nth_error uvs' loop_idx = Some uv /\ in_unit_square uv.
Proof.
  intros H. destruct (apply_cylindrical_uv_proper_spec obj obj' H) as (uvs' & Hl & Hspec).
  exists uvs'. split; [exact Hl|]. intros loop_idx Hin.
  unfold visited_loops in Hin. apply in_flat_map in Hin. destruct Hin as (poly & Hp & Hi).
  destruct (Hspec poly loop_idx Hp Hi) as (vi & co & lo & hi & _ & Hco & Hlo & Hhi & Hnth).
  eexists. split; [exact Hnth|]. unfold in_unit_square. cbn [fst snd].
  split; [apply cylinder_u_range|].
  assert (Hz : In (pz (GenerateCue.matrix_world obj co))
                  (map (fun co => pz (GenerateCue.matrix_world obj co))
                       (GenerateCue.vertices (GenerateCue.data obj)))).
  { apply in_map_iff. exists co. split; [reflexivity|]. eapply nth_error_In. exact Hco. }
  pose proof (minimum_le _ _ _ Hlo Hz). pose proof (maximum_ge _ _ _ Hhi Hz).
  destruct (Rlt_dec lo hi).
  - apply unit_fraction; lra.
  - replace (pz (GenerateCue.matrix_world obj co) - lo) with 0 by lra.
    unfold Rdiv. rewrite Rmult_0_l. lra.
Qed.

End LayerLoopFacts.

(** ** The rings of the tapered sections *)

Section RingFacts.
Local Open Scope R_scope.

Lemma clamp01_inside (t : R) : 0 <= t <= 1 -> clamp01 t = t.
Proof.
  intros H. unfold clamp01. rewrite Rmin_right by lra. apply Rmax_right. lra.
Qed.

Lemma clamp01_below (t : R) : t <= 0 -> clamp01 t = 0.
Proof.
  intros H. unfold clamp01. rewrite Rmin_right by lra. apply Rmax_left. lra.
Qed.

Lemma clamp01_mono (s t : R) : s <= t -> clamp01 s <= clamp01 t.
Proof.
  intros H. unfold clamp01.
  apply Rmax_lub; [apply Rmax_l|].
  eapply Rle_trans; [|apply Rmax_r].
  apply Rmin_glb; [apply Rmin_l|]. eapply Rle_trans; [apply Rmin_r|exact H].
Qed.

Lemma vec3_eq (x y z x' y' z' : R) :
  x = x' -> y = y' -> z = z' -> (x, y, z) = (x', y', z').
Proof. congruence. Qed.

(** generate_cue.py: on the primitive cylinder (radius 1, depth
    [length] > 0) the bottom ring is scaled to [radius_bottom] and the
    top ring to [radius_top]; each vertex keeps its direction from the
    axis and its height. *)
Theorem tapered_cylinder_rings (length radius_top radius_bottom : R) (verts : list vec3) :
  0 < length ->
  Forall (primitive_vertex 1 length) verts ->
  Forall2 (fun v v' =>
             (pz v = - length / 2 ->
                v' = (px v * radius_bottom, py v * radius_bottom, pz v)) /\
             (pz v = length / 2 ->
                v' = (px v * radius_top, py v * radius_top, pz v)))
          verts
          (GenerateCue.create_tapered_cylinder length radius_top radius_bottom verts).
Proof.
  intros Hlen Hprim. unfold GenerateCue.create_tapered_cylinder.
  apply Forall2_map_self. eapply Forall_impl; [|exact Hprim].
  intros [[x y] z] [Hc _]. pose proof (unit_circle_dist x y z Hc) as Hd.
  unfold GenerateCue.taper_vertex. cbn [px py pz fst snd].
  rewrite clamp01_decimal, Hd.
  destruct (Rlt_dec 0 length) as [_|N]; [|contradiction].
  destruct (Rlt_dec 0.0001 1) as [_|N]; [|lra].
  split; intros ->.
  - replace ((- length / 2 - - length / 2) / length) with 0 by (field; lra).
    rewrite clamp01_inside by lra. apply vec3_eq; [field | field | reflexivity].
  - replace ((length / 2 - - length / 2) / length) with 1 by (field; lra).
    rewrite clamp01_inside by lra. apply vec3_eq; [field | field | reflexivity].
Qed.

(** create_cue_export.py: the section's height parameter subtracts the
    world height [z_start] from the vertex's local height.  On the
    primitive cylinder (radius 1, depth [length] > 0) with [z_start] >= 0
    the bottom ring is therefore scaled to [r_start], and the top ring
    to the radius interpolated at t = clamp(1/2 - z_start / length),
    which is at most 1/2: the top ring reaches [r_end] only when the two
    radii are equal, and for [z_start] >= [length] / 2 the whole section
    is a straight cylinder of radius [r_start]. *)
Theorem cue_section_rings (length r_start r_end z_start : R) (verts : list vec3) :
  0 < length -> 0 <= z_start ->
  Forall (primitive_vertex 1 length) verts ->
  let t_top := clamp01 (1 / 2 - z_start / length) in
  t_top <= 1 / 2 /\
  (r_start <> r_end -> lerp r_start r_end t_top <> r_end) /\
  Forall2 (fun v v' =>
             (pz v = - length / 2 ->
                v' = (px v * r_start, py v * r_start, pz v)) /\
             (pz v = length / 2 ->
                v' = (px v * lerp r_start r_end t_top,
                      py v * lerp r_start r_end t_top, pz v)))
          verts
          (CreateCueExport.create_cue_section length r_start r_end z_start verts) /\
  (length / 2 <= z_start ->
     Forall (on_circle r_start)
            (CreateCueExport.create_cue_section length r_start r_end z_start verts)).
Proof.
  intros Hlen Hz Hprim t_top.
  assert (Hq : 0 <= z_start / length) by (apply div_ge_0; lra).
  assert (Htop : t_top <= 1 / 2).
  { unfold t_top. rewrite <- (clamp01_inside (1 / 2)) at 2 by lra.
    apply clamp01_mono. lra. }
  split; [exact Htop|]. split.
  { intros Hne Heq. unfold lerp in Heq.
    assert (H0 : (r_end - r_start) * (t_top - 1) = 0) by lra.
    apply Rmult_integral in H0. destruct H0; lra. }
  assert (Hrings :
    Forall2 (fun v v' =>
             (pz v = - length / 2 ->
                v' = (px v * r_start, py v * r_start, pz v)) /\
             (pz v = length / 2 ->
                v' = (px v * lerp r_start r_end t_top,
                      py v * lerp r_start r_end t_top, pz v)))
          verts
          (CreateCueExport.create_cue_section length r_start r_end z_start verts)).
  { unfold CreateCueExport.create_cue_section.
    apply Forall2_map_self. eapply Forall_impl; [|exact Hprim].
    intros [[x y] z] [Hc _]. pose proof (unit_circle_dist x y z Hc) as Hd.
    unfold CreateCueExport.section_vertex. cbn [px py pz fst snd].
    fold (clamp01 (if Rlt_dec 0 length then (z - z_start) / length else 0)).
    rewrite Hd.
    destruct (Rlt_dec 0 length) as [_|N]; [|contradiction].
    destruct (Rlt_dec 0.001 1) as [_|N]; [|lra].
    split; intros ->.
    - rewrite clamp01_below.
      + apply vec3_eq; [field | field | reflexivity].
      + replace ((- length / 2 - z_start) / length)
          with (- (1 / 2) - z_start / length) by (field; lra). lra.
    - replace ((length / 2 - z_start) / length)
        with (1 / 2 - z_start / length) by (field; lra).
      fold t_top. unfold lerp. apply vec3_eq; [field | field | reflexivity]. }
  split; [exact Hrings|].
  intros Hhalf.
  assert (Ht0 : t_top = 0).
  { unfold t_top. apply clamp01_below.
    assert (1 / 2 <= z_start / length); [|lra].
    replace (1 / 2) with (length / 2 / length) by (field; lra).
    unfold Rdiv at 1 3. apply Rmult_le_compat_r; [|exact Hhalf].
    left. now apply Rinv_0_lt_compat. }
  rewrite Ht0 in Hrings.
  assert (Hboth : Forall2 (fun v v' => primitive_vertex 1 length v /\
             (pz v = - length / 2 ->
                v' = (px v * r_start, py v * r_start, pz v)) /\
             (pz v = length / 2 ->
                v' = (px v * lerp r_start r_end 0,
                      py v * lerp r_start r_end 0, pz v)))
          verts
          (CreateCueExport.create_cue_section length r_start r_end z_start verts)).
  { clear - Hrings Hprim. induction Hrings; constructor.
    - split; [now inversion Hprim|assumption].
    - apply IHHrings. now inversion Hprim. }
  eapply Forall2_Forall_r; [|exact Hboth].
  intros [[x y] z] v' [[Hc Hpz] [Hb Ht]]. unfold on_circle in *.
  cbn [px py pz fst snd] in *.
  destruct Hpz as [Hpz|Hpz]; [rewrite (Hb Hpz)|rewrite (Ht Hpz)];
    cbn [px py pz fst snd]; unfold lerp; nra.
Qed.

Lemma for_verts_map (f : vec3 -> res vec3) (g : vec3 -> vec3) (verts : list vec3) :
  (forall v, f v = Ok (g v)) -> CreateCue.for_verts f verts = Ok (map g verts).
Proof.
  intros H. induction verts as [|v verts IH]; cbn [CreateCue.for_verts map]; [reflexivity|].
  rewrite H, IH. reflexivity.
Qed.

Lemma for_verts_zero (r_end : R) (verts : list vec3) :
  (Exists (fun v => 0 < pz v) verts ->
     CreateCue.for_verts (CreateCue.scale_top 0 r_end) verts = Raise ZeroDivisionError) /\
  (~ Exists (fun v => 0 < pz v) verts ->
     CreateCue.for_verts (CreateCue.scale_top 0 r_end) verts = Ok verts).
Proof.
  induction verts as [|[[x y] z] verts [IH1 IH2]]; cbn [CreateCue.for_verts].
  - split; [intros H; inversion H|reflexivity].
  - unfold CreateCue.scale_top at 1 3, float_div. cbn [pz snd].
    destruct (Rlt_dec 0 z) as [Hz|Hz].
    + destruct (Req_dec_T 0 0) as [_|N]; [|contradiction].
      split; [reflexivity|]. intros H. destruct H. now left.
    + cbn [bind]. split.
      * intros H. inversion H as [? ? Hv|? ? Hv]; subst; [contradiction|].
        now rewrite IH1.
      * intros H. rewrite IH2; [reflexivity|]. intros Hex. apply H. now right.
Qed.

Lemma Forall2_diag {A : Type} (P : A -> A -> Prop) (l : list A) :
  (forall a, P a a) -> Forall2 P l l.
Proof. intros H. induction l; constructor; auto. Qed.

(** create_cue.py: tapering raises ZeroDivisionError exactly when the
    radii differ, [r_start] is 0 and some vertex lies above the local
    origin, and it raises nothing else.  When it returns, the vertices
    at or below the origin are untouched and, for a nonzero [r_start],
    those above it are scaled by [r_end / r_start] about the axis. *)
Theorem taper_segment_raises (r_start r_end : R) (verts : list vec3) :
  (CreateCue.taper_segment r_start r_end verts = Raise ZeroDivisionError <->
     r_start = 0 /\ r_end <> 0 /\ Exists (fun v => 0 < pz v) verts) /\
  (forall e, CreateCue.taper_segment r_start r_end verts = Raise e ->
     e = ZeroDivisionError) /\
  (forall out, CreateCue.taper_segment r_start r_end verts = Ok out ->
     Forall2 (fun v v' =>
                (pz v <= 0 -> v' = v) /\
                (0 < pz v -> r_start <> 0 ->
                   v' = (px v * (r_end / r_start), py v * (r_end / r_start), pz v)))
             verts out).
Proof.
  unfold CreateCue.taper_segment.
  destruct (Req_dec_T r_start r_end) as [E|Hne].
  - split; [split; [discriminate|intros (H0 & H1 & _); congruence]|].
    split; [discriminate|]. intros out H. injection H as <-.
    apply Forall2_diag. intros [[x y] z]. cbn [px py pz fst snd].
    split; [reflexivity|]. intros _ Hr. subst r_end.
    apply vec3_eq; [field; exact Hr | field; exact Hr | reflexivity].
  - destruct (Req_dec_T r_start 0) as [->|H0].
    + destruct (for_verts_zero r_end verts) as [Hraise Hok].
      destruct (Exists_dec (fun v => 0 < pz v) verts (fun v => Rlt_dec 0 (pz v)))
        as [Hex|Hno].
      * rewrite (Hraise Hex). split; [|split].
        -- split; [intros _|reflexivity]. repeat split; auto.
        -- intros e H. now injection H as <-.
        -- discriminate.
      * rewrite (Hok Hno). split; [|split].
        -- split; [discriminate|]. intros (_ & _ & Hex). contradiction.
        -- discriminate.
        -- intros out H. injection H as <-. apply Forall2_diag.
           intros v. split; [reflexivity|]. intros _ N. now destruct N.
    + rewrite (for_verts_map _
                 (fun v => if Rlt_dec 0 (pz v)
                           then (px v * (r_end / r_start), py v * (r_end / r_start), pz v)
                           else v)).
      * split; [|split].
        -- split; [discriminate|]. intros (H & _). contradiction.
        -- discriminate.
        -- intros out H. injection H as <-. apply Forall2_map_self.
           apply Forall_forall. intros v _.
           destruct (Rlt_dec 0 (pz v)); split; intros; first [reflexivity | lra].
      * intros [[x y] z]. unfold CreateCue.scale_top, float_div. cbn [px py pz fst snd].
        destruct (Rlt_dec 0 z); [|reflexivity].
        destruct (Req_dec_T r_start 0); [contradiction|reflexivity].
Qed.

End RingFacts.

(** ** create_cue_export.py: the height parameter of a section *)

Section ExportTaperFacts.
Local Open Scope R_scope.

(** On a vertex of the primitive cylinder (radius 1) the loop of
    [create_cue_section] scales x and y by the radius it has
    interpolated. *)
Lemma section_vertex_primitive (length r_start r_end z_start : R) (v : vec3) :
  0 < length ->
  primitive_vertex 1 length v ->
  CreateCueExport.section_vertex length r_start r_end z_start v
  = (px v * lerp r_start r_end (clamp01 ((pz v - z_start) / length)),
     py v * lerp r_start r_end (clamp01 ((pz v - z_start) / length)),
     pz v).
Proof.
  intros Hlen. destruct v as [[x y] z]. intros [Hc _].
  pose proof (unit_circle_dist x y z Hc) as Hd.
  unfold CreateCueExport.section_vertex. cbn [px py pz fst snd].
  fold (clamp01 (if Rlt_dec 0 length then (z - z_start) / length else 0)).
  rewrite Hd.
  destruct (Rlt_dec 0 length) as [_|N]; [|contradiction].
  destruct (Rlt_dec 0.001 1) as [_|N]; [|lra].
  unfold lerp. apply vec3_eq; [field | field | reflexivity].
Qed.

(** The same for the loop of generate_cue.py's
    [create_tapered_cylinder]. *)
Lemma taper_vertex_primitive (length radius_top radius_bottom : R) (v : vec3) :
  0 < length ->
  primitive_vertex 1 length v ->
  GenerateCue.taper_vertex length radius_top radius_bottom v
  = (px v * lerp radius_bottom radius_top (clamp01 ((pz v - - length / 2) / length)),
     py v * lerp radius_bottom radius_top (clamp01 ((pz v - - length / 2) / length)),
     pz v).
Proof.
  intros Hlen. destruct v as [[x y] z]. intros [Hc _].
  pose proof (unit_circle_dist x y z Hc) as Hd.
  unfold GenerateCue.taper_vertex. cbn [px py pz fst snd].
  rewrite clamp01_decimal, Hd.
  destruct (Rlt_dec 0 length) as [_|N]; [|contradiction].
  destruct (Rlt_dec 0.0001 1) as [_|N]; [|lra].
  unfold lerp. apply vec3_eq; [field | field | reflexivity].
Qed.

(** Two scalings of a point of the unit circle are the same point only
    for the same factor. *)
Lemma scaled_unit_inj (x y z a b : R) :
  on_circle 1 (x, y, z) -> (x * a, y * a, z) = (x * b, y * b, z) -> a = b.
Proof.
  unfold on_circle. cbn [px py fst snd]. intros Hc E.
  injection E as Ex Ey.
  assert (H : (x * x + y * y) * (a - b) = 0).
  { replace ((x * x + y * y) * (a - b))
      with (x * (x * a - x * b) + y * (y * a - y * b)) by ring.
    rewrite Ex, Ey. ring. }
  rewrite Hc in H. lra.
Qed.

(** C7 (a defect of create_cue_export.py).  [create_cue_section] computes
    its parameter as (v.co.z - z_start) / length: the vertex's height in
    the object's own coordinates, which run from -length/2 to length/2,
    minus the section's height in the world.  For a section of positive
    length at z_start >= 0 whose radii differ, that parameter is the
    vertex's normalized height h = (z + length/2) / length lowered by
    1/2 + z_start / length, so on the top ring of the primitive, where
    h = 1, it is at most 1/2: the radius assigned there is not r_end,
    the interpolation at the vertex's normalized height, and the vertex
    is not where that interpolation would put it. *)
Theorem C7_export_height_not_normalized (length r_start r_end z_start : R)
    (unit_verts : list vec3) :
  0 < length -> 0 <= z_start -> r_start <> r_end ->
  Forall (primitive_vertex 1 length) unit_verts ->
  Forall2 (fun v v' =>
             let h := (pz v - - length / 2) / length in
             let t := clamp01 ((pz v - z_start) / length) in
             0 <= h <= 1 /\
             (pz v - z_start) / length = h - (1 / 2 + z_start / length) /\
             v' = (px v * lerp r_start r_end t, py v * lerp r_start r_end t, pz v) /\
             (pz v = length / 2 ->
                h = 1 /\ t <= 1 / 2 /\
                lerp r_start r_end h = r_end /\
                lerp r_start r_end t <> lerp r_start r_end h /\
                v' <> (px v * lerp r_start r_end h,
                       py v * lerp r_start r_end h, pz v)))
          unit_verts
          (CreateCueExport.create_cue_section length r_start r_end z_start unit_verts).
Proof.
  intros Hlen Hz Hne Hprim.
  assert (Hq : 0 <= z_start / length) by (apply div_ge_0; lra).
  unfold CreateCueExport.create_cue_section.
  apply Forall2_map_self. eapply Forall_impl; [|exact Hprim].
  intros v Hv. cbv zeta.
  rewrite (section_vertex_primitive length r_start r_end z_start v Hlen Hv).
  destruct v as [[x y] z]. destruct Hv as [Hc Hh]. cbn [px py pz fst snd] in *.
  assert (Hpar : (z - z_start) / length
                 = (z - - length / 2) / length - (1 / 2 + z_start / length))
    by (field; lra).
  split.
  { destruct Hh as [-> | ->].
    - replace ((- length / 2 - - length / 2) / length) with 0 by (field; lra). lra.
    - replace ((length / 2 - - length / 2) / length) with 1 by (field; lra). lra. }
  split; [exact Hpar|]. split; [reflexivity|].
  intros ->.
  assert (Hh1 : (length / 2 - - length / 2) / length = 1) by (field; lra).
  assert (Ht : clamp01 ((length / 2 - z_start) / length) <= 1 / 2).
  { rewrite <- (clamp01_inside (1 / 2)) by lra.
    apply clamp01_mono. rewrite Hpar, Hh1. lra. }
  assert (Hr : lerp r_start r_end (clamp01 ((length / 2 - z_start) / length))
               <> lerp r_start r_end 1).
  { unfold lerp. intros E.
    assert (H0 : (r_end - r_start)
                 * (clamp01 ((length / 2 - z_start) / length) - 1) = 0) by lra.
    apply Rmult_integral in H0. destruct H0; lra. }
  rewrite Hh1.
  split; [reflexivity|]. split; [exact Ht|].
  split; [unfold lerp; ring|]. split; [exact Hr|].
  intros E. apply Hr. exact (scaled_unit_inj x y (length / 2) _ _ Hc E).
Qed.

End ExportTaperFacts.

Section UnwrapExamples.
Local Open Scope R_scope.



Lemma cylindrical_uv_frame_witness :
  exists obj',
    GenerateCue.apply_cylindrical_uv_proper GenerateCue.cap_triangle = Ok obj' /\
    GenerateCue.vertices (GenerateCue.data obj')
    = GenerateCue.vertices (GenerateCue.data GenerateCue.cap_triangle) /\
    GenerateCue.loops (GenerateCue.data obj')
    = GenerateCue.loops (GenerateCue.data GenerateCue.cap_triangle) /\
    GenerateCue.polygons (GenerateCue.data obj')
    = GenerateCue.polygons (GenerateCue.data GenerateCue.cap_triangle) /\
    exists uvs',
      GenerateCue.uv_layer (GenerateCue.data obj') = Some uvs' /\
      length uvs' = length (layer_before (GenerateCue.data GenerateCue.cap_triangle)) /\
      forall j, ~ In j (visited_loops (GenerateCue.data GenerateCue.cap_triangle)) ->
        nth_error uvs' j
        = nth_error (layer_before (GenerateCue.data GenerateCue.cap_triangle)) j.
Proof.
  destruct cap_triangle_returns as [obj' Hg].
  exists obj'. split; [exact Hg|].
  exact (cylindrical_uv_frame GenerateCue.cap_triangle obj' Hg).
Defined.

Lemma cylindrical_uv_in_unit_square_witness :
  exists obj',
    GenerateCue.apply_cylindrical_uv_proper GenerateCue.cap_triangle = Ok obj' /\
    exists uvs',
      GenerateCue.uv_layer (GenerateCue.data obj') = Some uvs' /\
      forall loop_idx,
        In loop_idx (visited_loops (GenerateCue.data GenerateCue.cap_triangle)) ->
        exists uv, nth_error uvs' loop_idx = Some uv /\ in_unit_square uv.
Proof.
  destruct cap_triangle_returns as [obj' Hg].
  exists obj'. split; [exact Hg|].
  exact (cylindrical_uv_in_unit_square GenerateCue.cap_triangle obj' Hg).
Defined.

Lemma sample_unit_verts_primitive : Forall (primitive_vertex 1 2) sample_unit_verts.
Proof. repeat constructor; unfold on_circle; cbn [px py pz fst snd]; lra. Qed.

Lemma tapered_cylinder_rings_witness :
  0 < 2 /\ Forall (primitive_vertex 1 2) sample_unit_verts /\
  Forall2 (fun v v' =>
             (pz v = - 2 / 2 -> v' = (px v * 3, py v * 3, pz v)) /\
             (pz v = 2 / 2 -> v' = (px v * 1, py v * 1, pz v)))
          sample_unit_verts
          (GenerateCue.create_tapered_cylinder 2 1 3 sample_unit_verts).
Proof.
  assert (H0 : 0 < 2) by lra.
  split; [exact H0|]. split; [exact sample_unit_verts_primitive|].
  exact (tapered_cylinder_rings 2 1 3 sample_unit_verts H0 sample_unit_verts_primitive).
Defined.

Lemma cue_section_rings_witness :
  0 < 2 /\ 0 <= 1 /\ Forall (primitive_vertex 1 2) sample_unit_verts /\
  let t_top := clamp01 (1 / 2 - 1 / 2) in
  t_top <= 1 / 2 /\
  (3 <> 1 -> lerp 3 1 t_top <> 1) /\
  Forall2 (fun v v' =>
             (pz v = - 2 / 2 -> v' = (px v * 3, py v * 3, pz v)) /\
             (pz v = 2 / 2 ->
                v' = (px v * lerp 3 1 t_top, py v * lerp 3 1 t_top, pz v)))
          sample_unit_verts
          (CreateCueExport.create_cue_section 2 3 1 1 sample_unit_verts) /\
  (2 / 2 <= 1 ->
     Forall (on_circle 3)
            (CreateCueExport.create_cue_section 2 3 1 1 sample_unit_verts)).
Proof.
  assert (H0 : 0 < 2) by lra.
  assert (H1 : 0 <= 1) by lra.
  split; [exact H0|]. split; [exact H1|]. split; [exact sample_unit_verts_primitive|].
  exact (cue_section_rings 2 3 1 1 sample_unit_verts H0 H1 sample_unit_verts_primitive).
Defined.

End UnwrapExamples.

Section ExportTaperExamples.
Local Open Scope R_scope.

(** The section of length 2 from radius 3 to radius 1 at z_start = 0, on
    one vertex of each ring of the primitive: create_cue_export.py
    leaves the top-ring vertex on radius 2, generate_cue.py moves it to
    radius 1. *)
Lemma export_section_sample :
  CreateCueExport.create_cue_section 2 3 1 0 sample_unit_verts
  = [(3, 0, -1); (0, 2, 1)] /\
  GenerateCue.create_tapered_cylinder 2 1 3 sample_unit_verts
  = [(3, 0, -1); (0, 1, 1)].
Proof.
  assert (H0 : 0 < 2) by lra.
  pose proof sample_unit_verts_primitive as Hp.
  split.
  - unfold CreateCueExport.create_cue_section, sample_unit_verts in *.
    cbn [map].
    inversion Hp as [|? ? Hb Hp']; subst. inversion Hp' as [|? ? Ht _]; subst.
    rewrite (section_vertex_primitive 2 3 1 0 _ H0 Hb),
            (section_vertex_primitive 2 3 1 0 _ H0 Ht).
    cbn [px py pz fst snd].
    rewrite (clamp01_below ((-1 - 0) / 2)) by lra.
    rewrite (clamp01_inside ((1 - 0) / 2)) by lra.
    unfold lerp. f_equal; [|f_equal]; apply vec3_eq; lra.
  - unfold GenerateCue.create_tapered_cylinder, sample_unit_verts in *.
    cbn [map].
    inversion Hp as [|? ? Hb Hp']; subst. inversion Hp' as [|? ? Ht _]; subst.
    rewrite (taper_vertex_primitive 2 1 3 _ H0 Hb),
            (taper_vertex_primitive 2 1 3 _ H0 Ht).
    cbn [px py pz fst snd].
    rewrite !clamp01_inside by lra.
    unfold lerp. f_equal; [|f_equal]; apply vec3_eq; lra.
Qed.

Lemma C7_export_height_not_normalized_witness :
  0 < 2 /\ 0 <= 0 /\ 3 <> 1 /\
  Forall (primitive_vertex 1 2) sample_unit_verts /\
  Forall2 (fun v v' =>
             let h := (pz v - - 2 / 2) / 2 in
             let t := clamp01 ((pz v - 0) / 2) in
             0 <= h <= 1 /\
             (pz v - 0) / 2 = h - (1 / 2 + 0 / 2) /\
             v' = (px v * lerp 3 1 t, py v * lerp 3 1 t, pz v) /\
             (pz v = 2 / 2 ->
                h = 1 /\ t <= 1 / 2 /\
                lerp 3 1 h = 1 /\
                lerp 3 1 t <> lerp 3 1 h /\
                v' <> (px v * lerp 3 1 h, py v * lerp 3 1 h, pz v)))
          sample_unit_verts
          (CreateCueExport.create_cue_section 2 3 1 0 sample_unit_verts).
Proof.
  assert (H0 : 0 < 2) by lra.
  assert (H1 : 0 <= 0) by lra.
  assert (H2 : 3 <> 1) by lra.
  split; [exact H0|]. split; [exact H1|]. split; [exact H2|].
  split; [exact sample_unit_verts_primitive|].
  exact (C7_export_height_not_normalized 2 3 1 0 sample_unit_verts H0 H1 H2
           sample_unit_verts_primitive).
Defined.

End ExportTaperExamples.

(** ** The stacks of sections *)

Section StackFacts.
Local Open Scope R_scope.

Variable int16 : string -> res Z.
Variable primitive_cylinder_add : Z -> R -> R -> list vec3.

Lemma fold_left_Rplus (l : list R) (a : R) :
  fold_left Rplus l a = a + fold_left Rplus l 0.
Proof.
  revert a. induction l as [|x l IH]; intros a; cbn [fold_left]; [lra|].
  rewrite (IH (a + x)), (IH (0 + x)). lra.
Qed.

Lemma find_snoc {A : Type} (f : A -> bool) (l : list A) (a : A) :
  find f (l ++ [a])
  = match find f l with
    | Some x => Some x
    | None => if f a then Some a else None
    end.
Proof.
  induction l as [|x l IH]; cbn [app find]; [reflexivity|].
  destruct (f x); [reflexivity|exact IH].
Qed.

Lemma section_loop_inv (sections : list PoolCue.SectionSpec) :
  forall z0 objs0 c0 z objs c,
    for_each sections (PoolCue.section_step int16 primitive_cylinder_add) (z0, objs0, c0)
    = Ok (z, objs, c) ->
    exists news,
      objs = objs0 ++ news /\
      map PoolCue.section_name news = map PoolCue.name sections /\
      PoolCue.stacked_down z0 news z /\
      z = z0 - fold_left Rplus (map PoolCue.length_mm sections) 0 * 0.001 /\
      c = match find PoolCue.is_outside (rev news) with
          | Some o => Some o
          | None => c0
          end.
Proof.
  induction sections as [|s sections IH]; intros z0 objs0 c0 z objs c H.
  - cbn in H. injection H as <- <- <-. exists []. rewrite app_nil_r.
    cbn. repeat split; lra.
  - cbn [for_each] in H. unfold PoolCue.section_step at 1 in H.
    destruct (PoolCue.hex_to_rgba int16 (PoolCue.color_hex s)) as [color|]; [|discriminate].
    cbn [bind] in H. cbv zeta in H.
    destruct (IH _ _ _ _ _ _ H) as (news & -> & Hn & Hs & Hz & Hc).
    eexists (_ :: news). split; [now rewrite <- app_assoc|].
    split; [cbn [map PoolCue.create_tapered_cylinder PoolCue.section_name]; now f_equal|].
    split; [|split].
    + cbn [PoolCue.stacked_down]. split.
      * unfold PoolCue.top, PoolCue.create_tapered_cylinder.
        cbn [PoolCue.location_z PoolCue.depth]. lra.
      * unfold PoolCue.bottom, PoolCue.create_tapered_cylinder at 1 2.
        cbn [PoolCue.location_z PoolCue.depth].
        match goal with
        | |- PoolCue.stacked_down ?a _ _ =>
            replace a with (z0 - PoolCue.length_mm s * 0.001) by lra
        end.
        exact Hs.
    + rewrite Hz. cbn [map fold_left].
      rewrite (fold_left_Rplus _ (0 + PoolCue.length_mm s)). lra.
    + rewrite Hc. cbn [rev]. rewrite find_snoc.
      destruct (find PoolCue.is_outside (rev news)); [reflexivity|].
      assert (Em : forall a b c d e f g h i,
                 PoolCue.material_name
                   (PoolCue.create_tapered_cylinder primitive_cylinder_add
                      a b c d e f g h i) = g) by reflexivity.
      unfold PoolCue.is_outside. rewrite Em.
      destruct (String.eqb (PoolCue.mat_name s) "outside"); reflexivity.
Qed.

(** generate_cue.py: whenever the section loop of [create_pool_cue]
    returns, the objects carry the sections' names in order and are
    stacked without gap or overlap from the total length (in scene
    units) down to height 0, where [z_position] ends; the object tracked
    for UV mapping is the last one whose material is named 'outside',
    if there is one.  With at least one section the total length is not
    0: the printed breakdown divides by it. *)
Theorem pool_cue_sections_stack (sections : list PoolCue.SectionSpec)
    (z : R) (objs : list PoolCue.CueSection) (custom : option PoolCue.CueSection) :
  PoolCue.place_sections int16 primitive_cylinder_add sections = Ok (z, objs, custom) ->
  map PoolCue.section_name objs = map PoolCue.name sections /\
  PoolCue.stacked_down
    (fold_left Rplus (map PoolCue.length_mm sections) 0 * 0.001) objs z /\
  z = 0 /\
  custom = find PoolCue.is_outside (rev objs) /\
  (sections <> [] -> fold_left Rplus (map PoolCue.length_mm sections) 0 <> 0).
Proof.
  unfold PoolCue.place_sections. intros H.
  destruct (for_each sections
              (PoolCue.breakdown_step (fold_left Rplus (map PoolCue.length_mm sections) 0))
              tt) as [u|] eqn:Ep; [|discriminate].
  cbn [bind] in H.
  assert (Hnz : sections <> [] ->
                fold_left Rplus (map PoolCue.length_mm sections) 0 <> 0).
  { intros Hne. destruct sections as [|s0 l0]; [contradiction|].
    cbn [for_each] in Ep. unfold PoolCue.breakdown_step at 1, float_div in Ep.
    destruct (Req_dec_T _ 0) as [E0|N0]; [discriminate|exact N0]. }
  destruct (section_loop_inv _ _ _ _ _ _ _ H) as (news & -> & Hn & Hs & Hz & Hc).
  cbn [app]. split; [exact Hn|]. split; [exact Hs|]. split; [lra|].
  split; [|exact Hnz].
  rewrite Hc. now destruct (find PoolCue.is_outside (rev news)).
Qed.

Lemma taper_segment_raise_only (r_start r_end : R) (verts : list vec3) (e : exn) :
  CreateCue.taper_segment r_start r_end verts = Raise e ->
  e = ZeroDivisionError /\ r_start = 0 /\ r_end <> 0.
Proof.
  unfold CreateCue.taper_segment.
  destruct (Req_dec_T r_start r_end) as [E|Hne]; [discriminate|].
  destruct (Req_dec_T r_start 0) as [->|H0].
  - destruct (for_verts_zero r_end verts) as [Hraise Hok].
    destruct (Exists_dec (fun v => 0 < pz v) verts (fun v => Rlt_dec 0 (pz v)))
      as [Hex|Hno].
    + rewrite (Hraise Hex). intros H. injection H as <-. repeat split; auto.
    + rewrite (Hok Hno). discriminate.
  - rewrite (for_verts_map _
               (fun v => if Rlt_dec 0 (pz v)
                         then (px v * (r_end / r_start), py v * (r_end / r_start), pz v)
                         else v)); [discriminate|].
    intros [[x y] z]. unfold CreateCue.scale_top, float_div. cbn [px py pz fst snd].
    destruct (Rlt_dec 0 z); [|reflexivity].
    destruct (Req_dec_T r_start 0); [contradiction|reflexivity].
Qed.

Lemma segment_loop_inv (segments : list CueStick.Segment) :
  forall z0 objs0 cs0 z objs cs,
    for_each segments (CueStick.segment_step primitive_cylinder_add) (z0, objs0, cs0)
    = Ok (z, objs, cs) ->
    exists news,
      objs = objs0 ++ news /\
      map CueStick.object_name news = map CueStick.name segments /\
      CueStick.stacked_up z0 news z /\
      z = z0 + fold_left Rplus (map CueStick.length segments) 0 /\
      map CueStick.object_name cs
      = map CueStick.object_name cs0
        ++ map CueStick.name (filter CueStick.is_custom segments).
Proof.
  induction segments as [|s segments IH]; intros z0 objs0 cs0 z objs cs H.
  - cbn in H. injection H as <- <- <-. exists []. rewrite !app_nil_r.
    cbn. repeat split; lra.
  - cbn [for_each] in H. unfold CueStick.segment_step at 1 in H.
    destruct (CreateCue.taper_segment _ _ _) as [verts|]; [|discriminate].
    cbn [bind] in H.
    destruct (IH _ _ _ _ _ _ H) as (news & -> & Hn & Hs & Hz & Hc).
    eexists (_ :: news). split; [now rewrite <- app_assoc|].
    split; [cbn [map CueStick.object_name]; now f_equal|].
    split; [|split].
    + cbn [CueStick.stacked_up]. split.
      * unfold CueStick.bottom. cbn [CueStick.location_z CueStick.depth]. lra.
      * unfold CueStick.top. cbn [CueStick.location_z CueStick.depth].
        match goal with
        | |- CueStick.stacked_up ?a _ _ =>
            replace a with (z0 + CueStick.length s) by lra
        end.
        exact Hs.
    + rewrite Hz. cbn [map fold_left].
      rewrite (fold_left_Rplus _ (0 + CueStick.length s)). lra.
    + rewrite Hc. cbn [filter]. destruct (CueStick.is_custom s).
      * rewrite map_app. cbn [map CueStick.object_name]. now rewrite <- app_assoc.
      * reflexivity.
Qed.

Lemma segment_loop_raises (segments : list CueStick.Segment) :
  forall st e,
    for_each segments (CueStick.segment_step primitive_cylinder_add) st = Raise e ->
    e = ZeroDivisionError /\
    Exists (fun s => CueStick.r_start s = 0 /\ CueStick.r_end s <> 0) segments.
Proof.
  induction segments as [|s segments IH]; intros [[z0 objs0] cs0] e H; [discriminate|].
  cbn [for_each] in H. unfold CueStick.segment_step at 1 in H.
  destruct (CreateCue.taper_segment _ _ _) as [verts|e'] eqn:Et; cbn [bind] in H.
  - destruct (IH _ _ H) as [He Hex]. split; [exact He|]. now right.
  - injection H as <-. destruct (taper_segment_raise_only _ _ _ _ Et) as (He & H0 & H1).
    split; [exact He|]. left. now split.
Qed.

(** create_cue.py: whenever the segment loop of [create_cue_stick]
    returns, the objects carry the segments' names in order and are
    stacked without gap or overlap from height 0 up to the sum of the
    lengths, where [z_offset] ends, and the customizable objects are
    those of the segments flagged so, in order.  The loop can raise only
    ZeroDivisionError, and only when some segment has a start radius 0
    and another end radius. *)
Theorem cue_stick_segments_stack (segments : list CueStick.Segment) :
  (forall z objs customs,
     CueStick.place_segments primitive_cylinder_add segments = Ok (z, objs, customs) ->
     map CueStick.object_name objs = map CueStick.name segments /\
     CueStick.stacked_up 0 objs z /\
     z = fold_left Rplus (map CueStick.length segments) 0 /\
     map CueStick.object_name customs
     = map CueStick.name (filter CueStick.is_custom segments)) /\
  (forall e,
     CueStick.place_segments primitive_cylinder_add segments = Raise e ->
     e = ZeroDivisionError /\
     Exists (fun s => CueStick.r_start s = 0 /\ CueStick.r_end s <> 0) segments) /\
  (Forall (fun s => CueStick.r_start s <> 0) segments ->
     exists z objs customs,
       CueStick.place_segments primitive_cylinder_add segments = Ok (z, objs, customs)).
Proof.
  unfold CueStick.place_segments. split; [|split].
  - intros z objs customs H.
    destruct (segment_loop_inv _ _ _ _ _ _ _ H) as (news & -> & Hn & Hs & Hz & Hc).
    cbn [app map] in *. repeat split; try assumption. lra.
  - intros e H. exact (segment_loop_raises _ _ _ H).
  - intros Hnz.
    destruct (for_each segments (CueStick.segment_step primitive_cylinder_add) (0, [], []))
      as [[[z objs] customs]|e] eqn:E; [eauto|].
    destruct (segment_loop_raises _ _ _ E) as [_ Hex].
    apply Exists_exists in Hex. destruct Hex as (s & Hin & H0 & _).
    rewrite Forall_forall in Hnz. destruct (Hnz s Hin H0).
Qed.

Lemma get_radius_lerp (s e t : R) :
  lerp (RealisticCue.get_radius s) (RealisticCue.get_radius e) t
  = RealisticCue.get_radius (s + t * (e - s)).
Proof. unfold lerp, RealisticCue.get_radius. ring. Qed.

Lemma get_radius_decreasing (a b : R) :
  a < b -> RealisticCue.get_radius b < RealisticCue.get_radius a.
Proof.
  unfold RealisticCue.get_radius, RealisticCue.tip_radius, RealisticCue.butt_radius.
  intros H. nra.
Qed.

(** create_cue_export.py: a section of [create_realistic_cue] with
    ratios 0 <= start < end occupies the heights from start * 3 to
    end * 3.  On the host's primitive cylinder its bottom ring lies on
    the taper's radius at [start], but its top ring on the taper's
    radius at start + t * (end - start) for some t <= 1/2, which is
    strictly larger than the taper's radius at [end], where the next
    section begins: the radius steps at every seam. *)
Theorem realistic_cue_seams (s : RealisticCue.SectionSpec) :
  0 <= RealisticCue.start_ratio s < RealisticCue.end_ratio s ->
  let o := RealisticCue.section_object primitive_cylinder_add s in
  Forall (primitive_vertex 1 (RealisticCue.depth o))
         (primitive_cylinder_add 32 1.0 (RealisticCue.depth o)) ->
  RealisticCue.bottom o = RealisticCue.start_ratio s * RealisticCue.total_length /\
  RealisticCue.top o = RealisticCue.end_ratio s * RealisticCue.total_length /\
  exists t,
    0 <= t <= 1 / 2 /\
    RealisticCue.get_radius (RealisticCue.end_ratio s)
    < RealisticCue.get_radius
        (RealisticCue.start_ratio s
         + t * (RealisticCue.end_ratio s - RealisticCue.start_ratio s)) /\
    Forall2 (fun v v' =>
               pz v' = pz v /\
               (pz v = - RealisticCue.depth o / 2 ->
                  on_circle (RealisticCue.get_radius (RealisticCue.start_ratio s)) v') /\
               (pz v = RealisticCue.depth o / 2 ->
                  on_circle
                    (RealisticCue.get_radius
                       (RealisticCue.start_ratio s
                        + t * (RealisticCue.end_ratio s - RealisticCue.start_ratio s)))
                    v'))
            (primitive_cylinder_add 32 1.0 (RealisticCue.depth o))
            (RealisticCue.vertices o).
Proof.
  intros Hr o.
  assert (Eo : o = RealisticCue.section_object primitive_cylinder_add s) by reflexivity.
  unfold RealisticCue.section_object in Eo. cbv zeta in Eo.
  set (a := RealisticCue.start_ratio s) in *.
  set (b := RealisticCue.end_ratio s) in *.
  set (len := b * RealisticCue.total_length - a * RealisticCue.total_length) in *.
  assert (Hd : RealisticCue.depth o = len).
  { rewrite Eo. now destruct (if (RealisticCue.name s =? "Tip")%string then _ else _). }
  assert (Hl : RealisticCue.location_z o = a * RealisticCue.total_length + len / 2).
  { rewrite Eo. now destruct (if (RealisticCue.name s =? "Tip")%string then _ else _). }
  assert (Hv : RealisticCue.vertices o
               = CreateCueExport.create_cue_section len (RealisticCue.get_radius a)
                   (RealisticCue.get_radius b) (a * RealisticCue.total_length)
                   (primitive_cylinder_add 32 1.0 len)).
  { rewrite Eo. now destruct (if (RealisticCue.name s =? "Tip")%string then _ else _). }
  rewrite Hd, Hv. clear Eo. intros Hprim.
  assert (Htot : RealisticCue.total_length = 3) by (unfold RealisticCue.total_length; lra).
  assert (Hlen : 0 < len) by (unfold len; rewrite Htot; lra).
  split; [unfold RealisticCue.bottom; rewrite Hd, Hl; lra|].
  split; [unfold RealisticCue.top; rewrite Hd, Hl; unfold len; lra|].
  set (t := clamp01 (1 / 2 - a * RealisticCue.total_length / len)).
  assert (Hq : 0 <= a * RealisticCue.total_length / len).
  { apply div_ge_0; [exact Hlen|]. rewrite Htot. lra. }
  assert (Ht : 0 <= t <= 1 / 2).
  { split; [apply clamp01_range|].
    unfold t. rewrite <- (clamp01_inside (1 / 2)) at 2 by lra.
    apply clamp01_mono. lra. }
  exists t. split; [exact Ht|]. split.
  { apply get_radius_decreasing. nra. }
  unfold CreateCueExport.create_cue_section.
  apply Forall2_map_self. eapply Forall_impl; [|exact Hprim].
  intros v [Hc Hz].
  assert (Hdist : 0.001 < sqrt (px v ^ 2 + py v ^ 2)).
  { destruct v as [[x y] z]. cbn [px py fst snd].
    rewrite (unit_circle_dist x y z Hc). lra. }
  destruct (section_vertex_on_circle len (RealisticCue.get_radius a)
              (RealisticCue.get_radius b) (a * RealisticCue.total_length) v Hdist)
    as [Hon Hpz].
  cbv zeta in Hon. destruct (Rlt_dec 0 len) as [_|N]; [|contradiction].
  rewrite get_radius_lerp in Hon.
  split; [exact Hpz|]. split; intros Hz'.
  - rewrite Hz' in Hon. rewrite clamp01_below in Hon.
    + now replace (a + 0 * (b - a)) with a in Hon by ring.
    + replace ((- len / 2 - a * RealisticCue.total_length) / len)
        with (- (1 / 2) - a * RealisticCue.total_length / len) by (field; lra).
      lra.
  - rewrite Hz' in Hon.
    replace ((len / 2 - a * RealisticCue.total_length) / len)
      with (1 / 2 - a * RealisticCue.total_length / len) in Hon by (field; lra).
    exact Hon.
Qed.

End StackFacts.

Section StackExamples.
Local Open Scope R_scope.

Lemma pool_cue_sections_placed :
  exists z objs custom,
    PoolCue.place_sections PoolCue.zero_int16 PoolCue.no_primitive PoolCue.sections
    = Ok (z, objs, custom).
Proof.
  unfold PoolCue.place_sections, PoolCue.sections.
  cbn [for_each map fold_left PoolCue.length_mm].
  unfold PoolCue.breakdown_step, float_div.
  destruct (Req_dec_T (0 + 43 + 682 + 43 + 653 + 29) 0) as [E|_]; [lra|].
  cbn [bind]. eexists _, _, _. reflexivity.
Qed.

Lemma pool_cue_sections_stack_witness :
  exists z objs custom,
    PoolCue.place_sections PoolCue.zero_int16 PoolCue.no_primitive PoolCue.sections
    = Ok (z, objs, custom) /\
    map PoolCue.section_name objs = map PoolCue.name PoolCue.sections /\
    PoolCue.stacked_down
      (fold_left Rplus (map PoolCue.length_mm PoolCue.sections) 0 * 0.001) objs z /\
    z = 0 /\
    custom = find PoolCue.is_outside (rev objs) /\
    (PoolCue.sections <> [] ->
     fold_left Rplus (map PoolCue.length_mm PoolCue.sections) 0 <> 0).
Proof.
  destruct pool_cue_sections_placed as (z & objs & custom & H).
  exists z, objs, custom. split; [exact H|].
  exact (pool_cue_sections_stack PoolCue.zero_int16 PoolCue.no_primitive
           PoolCue.sections z objs custom H).
Defined.

Lemma realistic_cue_seams_witness :
  let s := {| RealisticCue.name := "CustomArea"; RealisticCue.start_ratio := 0.008;
              RealisticCue.end_ratio := 0.50; RealisticCue.is_custom := true |} in
  let o := RealisticCue.section_object RealisticCue.two_ring_primitive s in
  0 <= RealisticCue.start_ratio s < RealisticCue.end_ratio s /\
  Forall (primitive_vertex 1 (RealisticCue.depth o))
         (RealisticCue.two_ring_primitive 32 1.0 (RealisticCue.depth o)) /\
  RealisticCue.bottom o = RealisticCue.start_ratio s * RealisticCue.total_length /\
  RealisticCue.top o = RealisticCue.end_ratio s * RealisticCue.total_length /\
  exists t,
    0 <= t <= 1 / 2 /\
    RealisticCue.get_radius (RealisticCue.end_ratio s)
    < RealisticCue.get_radius
        (RealisticCue.start_ratio s
         + t * (RealisticCue.end_ratio s - RealisticCue.start_ratio s)) /\
    Forall2 (fun v v' =>
               pz v' = pz v /\
               (pz v = - RealisticCue.depth o / 2 ->
                  on_circle (RealisticCue.get_radius (RealisticCue.start_ratio s)) v') /\
               (pz v = RealisticCue.depth o / 2 ->
                  on_circle
                    (RealisticCue.get_radius
                       (RealisticCue.start_ratio s
                        + t * (RealisticCue.end_ratio s - RealisticCue.start_ratio s)))
                    v'))
            (RealisticCue.two_ring_primitive 32 1.0 (RealisticCue.depth o))
            (RealisticCue.vertices o).
Proof.
  intros s o.
  assert (H1 : 0 <= RealisticCue.start_ratio s < RealisticCue.end_ratio s).
  { cbn [s RealisticCue.start_ratio RealisticCue.end_ratio]. lra. }
  assert (H2 : Forall (primitive_vertex 1 (RealisticCue.depth o))
                 (RealisticCue.two_ring_primitive 32 1.0 (RealisticCue.depth o))).
  { generalize (RealisticCue.depth o). intros d.
    unfold RealisticCue.two_ring_primitive.
    repeat constructor; unfold on_circle; cbn [px py pz fst snd]; lra. }
  split; [exact H1|]. split; [exact H2|].
  exact (realistic_cue_seams RealisticCue.two_ring_primitive s H1 H2).
Defined.

End StackExamples.

(** ** The unwrapped butt under the inspection utility *)

Section SplitFacts.
Local Open Scope R_scope.

Lemma sum_cons (x : R) (l : list R) : CheckUv.sum (x :: l) = x + CheckUv.sum l.
Proof.
  unfold CheckUv.sum. cbn [fold_left]. rewrite (fold_left_Rplus l (0 + x)). lra.
Qed.

Lemma sum_const {A : Type} (c : R) (l : list A) :
  CheckUv.sum (map (fun _ => c) l) = INR (length l) * c.
Proof.
  induction l as [|a l IH]; [unfold CheckUv.sum; cbn; lra|].
  cbn [map]. rewrite sum_cons, IH. cbn [length]. rewrite S_INR. lra.
Qed.

Lemma sum_affine {A : Type} (f : A -> R) (lo r : R) (l : list A) :
  r <> 0 ->
  CheckUv.sum (map (fun a => (f a - lo) / r) l)
  = (CheckUv.sum (map f l) - INR (length l) * lo) / r.
Proof.
  intros Hr. induction l as [|a l IH]; [unfold CheckUv.sum; cbn; field; exact Hr|].
  cbn [map]. rewrite !sum_cons, IH. cbn [length]. rewrite S_INR. field. exact Hr.
Qed.

Lemma INR_length_pos {A : Type} (l : list A) : l <> [] -> 0 < INR (length l).
Proof.
  destruct l as [|a l]; [contradiction|]. intros _. cbn [length].
  rewrite S_INR. pose proof (pos_INR (length l)). lra.
Qed.

Lemma is_rect_face_iff (uvs : list vec2) : is_rect_face uvs = true <-> 0.45 < mean_v uvs.
Proof.
  unfold is_rect_face. destruct (Rlt_dec 0.45 (mean_v uvs)); split; intros H;
    first [assumption | reflexivity | discriminate | contradiction].
Qed.

(** create_cue_butt.py and check_uv_dimensions.py together: on a mesh
    the unwrap has written, the inspection utility counts every cap face
    among the circles, and counts a side face as part of the rectangle
    exactly when the mean height of its corners lies more than 45 % of
    the way from the lowest to the highest vertex. *)
Theorem unwrapped_faces_split (uv_aspect : R) (bm bm' : CueButt.BMesh) :
  CueButt.unwrap_cylinder_side_only bm uv_aspect = Ok bm' ->
  exists min_z max_z,
    is_minimum min_z (map pz (CueButt.verts bm)) /\
    is_maximum max_z (map pz (CueButt.verts bm)) /\
    Forall2
      (fun face uvs =>
         CueButt.loops face <> [] ->
         (is_cap_normal (CueButt.normal face) -> is_rect_face uvs = false) /\
         (~ is_cap_normal (CueButt.normal face) -> min_z < max_z ->
            (is_rect_face uvs = true <->
             min_z + 0.45 * (max_z - min_z) < mean_height face)))
      (CueButt.faces bm) (face_uvs bm').
Proof.
  unfold CueButt.unwrap_cylinder_side_only. intros H.
  destruct (py_min (map pz (CueButt.verts bm))) as [min_z|] eqn:Emin; [|discriminate].
  destruct (py_max (map pz (CueButt.verts bm))) as [max_z|] eqn:Emax; [|discriminate].
  cbn [bind] in H. injection H as <-.
  exists min_z, max_z.
  split; [now apply py_min_spec|]. split; [now apply py_max_spec|].
  unfold face_uvs. cbn [CueButt.faces]. rewrite map_map.
  apply Forall2_map_self. apply Forall_forall. intros face _ Hne.
  pose proof (INR_length_pos _ Hne) as Hn.
  unfold CueButt.unwrap_face, is_cap_normal.
  destruct (Rlt_dec 0.9 (Rabs (pz (CueButt.normal face)))) as [Hcap|Hside];
    cbn [CueButt.loops]; (split; [intros Hc|intros Hc Hlt]); try contradiction.
  - destruct (is_rect_face _) eqn:E; [|reflexivity]. apply is_rect_face_iff in E.
    unfold mean_v in E. rewrite !map_map in E. cbn [CueButt.collapse_loop CueButt.uv snd] in E.
    rewrite sum_const, !length_map in E.
    replace (INR (length (CueButt.loops face)) * 0.005 / INR (length (CueButt.loops face)))
      with 0.005 in E by (field; lra).
    lra.
  - rewrite is_rect_face_iff. unfold mean_v, mean_height.
    rewrite !map_map, !length_map.
    assert (Hr : 0 < max_z - min_z) by lra.
    assert (Euv : map (fun x => snd (CueButt.uv
                                 (CueButt.project_loop min_z (max_z - min_z) x)))
                      (CueButt.loops face)
                  = map (fun loop => (pz (CueButt.vert loop) - min_z) / (max_z - min_z))
                        (CueButt.loops face)).
    { apply map_ext. intros loop. unfold CueButt.project_loop.
      destruct (CueButt.vert loop) as [[x y] z]. cbn [CueButt.uv snd pz].
      destruct (Rlt_dec 0 (max_z - min_z)); [reflexivity|contradiction]. }
    rewrite Euv, (sum_affine (fun loop => pz (CueButt.vert loop))) by lra.
    set (S := CheckUv.sum (map (fun loop => pz (CueButt.vert loop)) (CueButt.loops face))).
    set (n := INR (length (CueButt.loops face))) in *.
    replace ((S - n * min_z) / (max_z - min_z) / n)
      with ((S / n - min_z) / (max_z - min_z)) by (field; lra).
    set (q := (S / n - min_z) / (max_z - min_z)).
    assert (Hq : q * (max_z - min_z) = S / n - min_z) by (unfold q; field; lra).
    split; intros Hlt'; nra.
Qed.

End SplitFacts.

Section SplitExamples.
Local Open Scope R_scope.

Lemma unwrapped_faces_split_witness :
  exists bm',
    CueButt.unwrap_cylinder_side_only CueButt.sample_bmesh 0.1365 = Ok bm' /\
    exists min_z max_z,
      is_minimum min_z (map pz (CueButt.verts CueButt.sample_bmesh)) /\
      is_maximum max_z (map pz (CueButt.verts CueButt.sample_bmesh)) /\
      Forall2
        (fun face uvs =>
           CueButt.loops face <> [] ->
           (is_cap_normal (CueButt.normal face) -> is_rect_face uvs = false) /\
           (~ is_cap_normal (CueButt.normal face) -> min_z < max_z ->
              (is_rect_face uvs = true <->
               min_z + 0.45 * (max_z - min_z) < mean_height face)))
        (CueButt.faces CueButt.sample_bmesh) (face_uvs bm').
Proof.
  destruct sample_bmesh_returns as [bm' Hb].
  exists bm'. split; [exact Hb|].
  exact (unwrapped_faces_split 0.1365 CueButt.sample_bmesh bm' Hb).
Defined.

End SplitExamples.

(** ** The segment table's helpers *)

Section ConstantsFacts.
Import Constants.
Local Open Scope R_scope.

Lemma dict_get_set_same (d : list (string * R)) (k : string) (v : R) :
  dict_get (dict_set d k v) k = Some v.
Proof.
  induction d as [|[k' v'] d IH]; cbn [dict_set dict_get].
  - now rewrite String.eqb_refl.
  - destruct (String.eqb k' k) eqn:E; cbn [dict_get].
    + now rewrite String.eqb_refl.
    + now rewrite E.
Qed.

Lemma dict_get_set_other (d : list (string * R)) (k k0 : string) (v : R) :
  k0 <> k -> dict_get (dict_set d k v) k0 = dict_get d k0.
Proof.
  intros Hne. induction d as [|[k' v'] d IH]; cbn [dict_set dict_get].
  - apply String.eqb_neq in Hne. rewrite String.eqb_sym in Hne. now rewrite Hne.
  - destruct (String.eqb k' k) eqn:E; cbn [dict_get].
    + apply String.eqb_eq in E. subst k'.
      assert (E0 : String.eqb k k0 = false).
      { apply String.eqb_neq. congruence. }
      now rewrite E0.
    + destruct (String.eqb k' k0); [reflexivity|exact IH].
Qed.

Lemma dict_set_new_key (d : list (string * R)) (k : string) (v : R) :
  dict_get d k = None -> map fst (dict_set d k v) = map fst d ++ [k].
Proof.
  induction d as [|[k' v'] d IH]; cbn [dict_set dict_get map fst app]; [reflexivity|].
  destruct (String.eqb k' k); [discriminate|]. intros H.
  cbn [map fst]. now rewrite IH.
Qed.

Lemma total_cons (seg : Segment) (l : list Segment) :
  calculate_total_length (seg :: l) = length_mm seg + calculate_total_length l.
Proof.
  unfold calculate_total_length. cbn [map fold_left].
  rewrite (fold_left_Rplus _ (0 + length_mm seg)). lra.
Qed.

Lemma total_app (l1 l2 : list Segment) :
  calculate_total_length (l1 ++ l2)
  = calculate_total_length l1 + calculate_total_length l2.
Proof.
  induction l1 as [|seg l1 IH]; cbn [app].
  - unfold calculate_total_length at 2. cbn. lra.
  - rewrite !total_cons, IH. lra.
Qed.

Lemma total_rev (l : list Segment) :
  calculate_total_length (rev l) = calculate_total_length l.
Proof.
  induction l as [|seg l IH]; [reflexivity|].
  cbn [rev]. rewrite total_app, !total_cons, IH.
  unfold calculate_total_length at 2. cbn. lra.
Qed.

(** The position loop over a list of segments with distinct names, none
    of them a key yet. *)
Lemma position_loop_inv (l : list Segment) :
  forall d y,
    NoDup (map name l) ->
    (forall seg, In seg l -> dict_get d (name seg) = None) ->
    let st := fold_left position_step l (d, y) in
    snd st = y + calculate_total_length l /\
    (forall l1 seg l2, l = l1 ++ seg :: l2 ->
       dict_get (fst st) (name seg) = Some (y + calculate_total_length l1)) /\
    (forall k, ~ In k (map name l) -> dict_get (fst st) k = dict_get d k) /\
    map fst (fst st) = map fst d ++ map name l.
Proof.
  induction l as [|seg l IH]; intros d y Hnd Hnew; cbv zeta.
  - cbn [fold_left fst snd map]. rewrite app_nil_r.
    split; [unfold calculate_total_length; cbn; lra|].
    split; [intros [|? ?] ? ? H; discriminate|]. split; reflexivity.
  - cbn [fold_left position_step]. cbn [map] in Hnd.
    apply NoDup_cons_iff in Hnd. destruct Hnd as [Hseg Hnd].
    assert (Hnew1 : forall s, In s l ->
              dict_get (dict_set d (name seg) y) (name s) = None).
    { intros s Hs. rewrite dict_get_set_other.
      - apply Hnew. now right.
      - intros E. apply Hseg. rewrite <- E. now apply in_map. }
    destruct (IH (dict_set d (name seg) y) (y + length_mm seg) Hnd Hnew1)
      as (Hy & Hpos & Hframe & Hkeys).
    split; [rewrite Hy, total_cons; lra|]. split; [|split].
    + intros l1 s l2 E. destruct l1 as [|s1 l1]; cbn [app] in E.
      * injection E as <- <-. rewrite (Hframe _ Hseg), dict_get_set_same.
        f_equal. unfold calculate_total_length. cbn. lra.
      * injection E as <- ->. rewrite (Hpos _ _ _ eq_refl), total_cons.
        f_equal. lra.
    + intros k Hk. rewrite Hframe.
      * apply dict_get_set_other. intros ->. apply Hk. now left.
      * intros Hin. apply Hk. now right.
    + rewrite Hkeys, dict_set_new_key by (apply Hnew; now left).
      cbn [map]. now rewrite <- app_assoc.
Qed.

(** pool_cue_constants.py: for a table of segments with distinct names,
    [get_segment_positions] has one key per segment, inserted from the
    last segment to the first, and gives each segment the height of the
    model's bottom plus the lengths of all segments after it: the last
    segment starts at minus half the total length, each segment starts
    where the next one ends, and when the total length is the sum of
    the lengths (as for the module's table) the first segment ends at
    plus half the total length. *)
Theorem segment_positions_stack (segments : list Segment) (total_length_mm : R) :
  NoDup (map name segments) ->
  map fst (get_segment_positions segments total_length_mm) = map name (rev segments) /\
  (forall before seg after,
     segments = before ++ seg :: after ->
     dict_get (get_segment_positions segments total_length_mm) (name seg)
     = Some (- total_length_mm / 2 + calculate_total_length after)) /\
  (forall seg after,
     segments = seg :: after ->
     total_length_mm = calculate_total_length segments ->
     exists y,
       dict_get (get_segment_positions segments total_length_mm) (name seg) = Some y /\
       y + length_mm seg = total_length_mm / 2).
Proof.
  intros Hnd. unfold get_segment_positions.
  assert (Hnd' : NoDup (map name (rev segments))).
  { rewrite map_rev. now apply NoDup_rev. }
  destruct (position_loop_inv (rev segments) [] (- total_length_mm / 2) Hnd'
              (fun _ _ => eq_refl)) as (_ & Hpos & _ & Hkeys).
  assert (Hat : forall before seg after,
     segments = before ++ seg :: after ->
     dict_get (fst (fold_left position_step (rev segments) ([], - total_length_mm / 2)))
              (name seg)
     = Some (- total_length_mm / 2 + calculate_total_length after)).
  { intros before seg after E.
    rewrite (Hpos (rev after) seg (rev before)).
    - now rewrite total_rev.
    - rewrite E, rev_app_distr. cbn [rev]. now rewrite <- app_assoc. }
  split; [exact Hkeys|]. split; [exact Hat|].
  intros seg after E Htot. eexists. split; [exact (Hat [] seg after E)|].
  rewrite Htot, E, total_cons. lra.
Qed.

Lemma find_first (segments : list Segment) (f : Segment -> bool) (seg : Segment) :
  find f segments = Some seg ->
  exists before after,
    segments = before ++ seg :: after /\ f seg = true /\
    Forall (fun s => f s = false) before.
Proof.
  revert seg. induction segments as [|s l IH]; intros seg H; [discriminate|].
  cbn [find] in H. destruct (f s) eqn:E.
  - injection H as <-. exists [], l. now repeat split.
  - destruct (IH _ H) as (before & after & -> & Hf & Hb).
    exists (s :: before), after. repeat split; [exact Hf|]. now constructor.
Qed.

Lemma find_none_iff (segments : list Segment) (f : Segment -> bool) :
  find f segments = None <-> Forall (fun s => f s = false) segments.
Proof.
  induction segments as [|s l IH]; cbn [find].
  - split; [constructor|reflexivity].
  - destruct (f s) eqn:E.
    + split; [discriminate|]. intros H. inversion H; congruence.
    + rewrite IH. split; [now constructor|]. intros H. now inversion H.
Qed.

(** pool_cue_constants.py: [get_segment_by_name] returns the first
    segment with the given name and None exactly when no segment has
    it, so with distinct names every segment is found again under its
    own name; [get_customizable_segment] returns the first segment
    flagged customizable and None exactly when none is. *)
Theorem segment_lookups (segments : list Segment) :
  (forall n seg,
     get_segment_by_name segments n = Some seg ->
     exists before after,
       segments = before ++ seg :: after /\ name seg = n /\
       Forall (fun s => name s <> n) before) /\
  (forall n, get_segment_by_name segments n = None <-> ~ In n (map name segments)) /\
  (NoDup (map name segments) ->
   forall seg, In seg segments -> get_segment_by_name segments (name seg) = Some seg) /\
  (forall seg,
     get_customizable_segment segments = Some seg ->
     exists before after,
       segments = before ++ seg :: after /\ is_customizable seg = true /\
       Forall (fun s => is_customizable s = false) before) /\
  (get_customizable_segment segments = None <->
   Forall (fun s => is_customizable s = false) segments).
Proof.
  pose proof (find_first segments) as Hfirst.
  pose proof (find_none_iff segments) as Hnone.
  unfold get_segment_by_name, get_customizable_segment.
  split; [|split; [|split; [|split]]].
  - intros n seg H. destruct (Hfirst _ _ H) as (before & after & E & Hf & Hb).
    exists before, after. split; [exact E|]. split; [now apply String.eqb_eq|].
    eapply Forall_impl; [|exact Hb]. intros s Hs. now apply String.eqb_neq.
  - intros n. rewrite Hnone, Forall_forall. split.
    + intros H Hin. apply in_map_iff in Hin. destruct Hin as (s & Es & Hs).
      specialize (H s Hs). apply String.eqb_neq in H. contradiction.
    + intros H s Hs. apply String.eqb_neq. intros E. apply H.
      rewrite <- E. now apply in_map.
  - intros Hnd seg Hin.
    destruct (find (fun s => String.eqb (name s) (name seg)) segments) as [s|] eqn:E.
    + destruct (Hfirst _ _ E) as (before & after & -> & Hf & Hb).
      apply String.eqb_eq in Hf. f_equal.
      apply in_app_or in Hin. destruct Hin as [Hin|[->|Hin]]; [|reflexivity|].
      * rewrite Forall_forall in Hb. specialize (Hb seg Hin).
        now rewrite String.eqb_refl in Hb.
      * rewrite map_app in Hnd. apply NoDup_remove_2 in Hnd.
        destruct Hnd. apply in_or_app. right. cbn [map]. rewrite Hf.
        now apply in_map.
    + apply Hnone in E. rewrite Forall_forall in E. specialize (E seg Hin).
      now rewrite String.eqb_refl in E.
  - intros seg H. exact (Hfirst _ _ H).
  - apply Hnone.
Qed.

End ConstantsFacts.

Section ConstantsExamples.
Import Constants.
Local Open Scope R_scope.

Lemma SEGMENTS_names_distinct : NoDup (map name SEGMENTS).
Proof. repeat constructor; cbn; intuition discriminate. Qed.

Lemma segment_positions_stack_witness :
  NoDup (map name SEGMENTS) /\
  map fst (get_segment_positions SEGMENTS TOTAL_LENGTH_MM) = map name (rev SEGMENTS) /\
  (forall before seg after,
     SEGMENTS = before ++ seg :: after ->
     dict_get (get_segment_positions SEGMENTS TOTAL_LENGTH_MM) (name seg)
     = Some (- TOTAL_LENGTH_MM / 2 + calculate_total_length after)) /\
  (forall seg after,
     SEGMENTS = seg :: after ->
     TOTAL_LENGTH_MM = calculate_total_length SEGMENTS ->
     exists y,
       dict_get (get_segment_positions SEGMENTS TOTAL_LENGTH_MM) (name seg) = Some y /\
       y + length_mm seg = TOTAL_LENGTH_MM / 2).
Proof.
  split; [exact SEGMENTS_names_distinct|].
  exact (segment_positions_stack SEGMENTS TOTAL_LENGTH_MM SEGMENTS_names_distinct).
Defined.

(** The module's constant is the sum of the table's lengths. *)
Lemma TOTAL_LENGTH_MM_is_sum : TOTAL_LENGTH_MM = calculate_total_length SEGMENTS.
Proof.
  unfold TOTAL_LENGTH_MM, calculate_total_length, SEGMENTS. cbn [map fold_left length_mm].
  lra.
Qed.

End ConstantsExamples.
